(** * RNA-editing pipeline: collation, selection, normalisation and FDR core

    A shallow embedding of the Python stages under [Python_scripts/] and the
    properties their specification states about them.

    Conventions of the embedding:
    - a pandas/numpy float is a rational [Q]; a missing value (NaN / NA) is
      [None], so a float Series is a [list (option Q)] read by position;
      comparisons of floats are comparisons of rationals, and a sum,
      product or quotient is the exact one unless said otherwise.  The mean
      of two values inside a median, whose rounding decides ties, is an
      abstract operation; the Benjamini-Hochberg arithmetic is exact, and a
      lemma that relates its flags to its corrected values holds in exact
      arithmetic only;
    - the standard normal quantile function [scipy.stats.norm.ppf] and the
      standard normal distribution function [scipy.special.ndtr] are
      transcendental: they stay abstract (Section variables) and only the
      properties a statement needs are assumed of them;
    - a Python exception is the [Raise] branch of [result]; a process is
      described by its exit code and the lines it wrote to stderr. *)

From Stdlib Require Import String Ascii DecimalString DecimalPos DecimalZ.
From Stdlib Require Import List ZArith QArith Qreduction Lqa Lia Bool Arith.
From Stdlib Require Import Sorted OrderedTypeEx Permutation.
Import ListNotations.

Open Scope string_scope.
Open Scope list_scope.
Open Scope nat_scope.

Set Implicit Arguments.

(** ** Python exceptions and results *)

Inductive exn : Type :=
| KeyError (label : string)
| ValueError (msg : string)
| FileNotFoundError (msg : string)
| InvalidIndexError (msg : string)
| ZeroDivisionError (msg : string).

(** [str(e)]: the text an f-string prints for the exception. *)
Definition exn_str (e : exn) : string :=
  match e with
  | KeyError label => "'" ++ label ++ "'"
  | ValueError msg | FileNotFoundError msg | InvalidIndexError msg
  | ZeroDivisionError msg => msg
  end.

Inductive result (A : Type) : Type :=
| Ok (a : A)
| Raise (e : exn).

Arguments Ok {A} a.
Arguments Raise {A} e.

Definition bind {A B : Type} (m : result A) (k : A -> result B) : result B :=
  match m with
  | Ok a => k a
  | Raise e => Raise e
  end.

Notation "x <- m ;; k" := (bind m (fun x => k))
  (at level 61, m at next level, right associativity).

Fixpoint mapM {A B : Type} (f : A -> result B) (l : list A) : result (list B) :=
  match l with
  | [] => Ok []
  | a :: l' => b <- f a ;; bs <- mapM f l' ;; Ok (b :: bs)
  end.

(** ** Floats as rationals *)

Definition Qltb (x y : Q) : bool := negb (Qle_bool y x).

Definition is_nan {A : Type} (o : option A) : bool :=
  match o with None => true | Some _ => false end.

Definition notna {A : Type} (o : option A) : bool := negb (is_nan o).

(** A float Series addressed by position. *)
Definition series := list (option Q).

(** [Series.dropna()]. *)
Fixpoint dropna {A : Type} (s : list (option A)) : list A :=
  match s with
  | [] => []
  | Some x :: s' => x :: dropna s'
  | None :: s' => dropna s'
  end.

(** * Rank Normalizer (Inverse Normal Transformation) *)

Module RankNormalizer.

(** Number of observed values strictly below / equal to [x]. *)
Definition count_lt (vals : list Q) (x : Q) : nat :=
  length (filter (fun y => Qltb y x) vals).

Definition count_eq (vals : list Q) (x : Q) : nat :=
  length (filter (fun y => Qeq_bool y x) vals).

(** [method='average']: the values equal to [x] jointly occupy the ranks
    [count_lt + 1 .. count_lt + count_eq]; each of them gets their mean. *)
Definition average_rank (vals : list Q) (x : Q) : Q :=
  (inject_Z (Z.of_nat (count_lt vals x))
   + (inject_Z (Z.of_nat (count_eq vals x)) + 1) / 2)%Q.

(** [(rank - 0.5) / n], kept in lowest terms. *)
Definition percentile (n : nat) (r : Q) : Q :=
  Qred ((r - (1 # 2)) / inject_Z (Z.of_nat n))%Q.

(** [Series.rank(method='average', na_option='keep')]. *)
Definition series_rank (s : series) : series :=
  map (option_map (average_rank (dropna s))) s.

(** [scipy.stats.rankdata(data, method='average')] with its default
    [nan_policy='propagate']: any NaN in the input makes every rank NaN. *)
Definition rankdata (data : series) : series :=
  if existsb is_nan data then map (fun _ => None) data
  else map (option_map (average_rank (dropna data))) data.

(** [result = pd.Series(np.nan, index=series.index); result.update(transformed)]
    where [transformed] is indexed by the observed positions of [s]. *)
Fixpoint update_nan_series {A V : Type} (s : list (option A)) (transformed : list V)
  : list (option V) :=
  match s with
  | [] => []
  | None :: s' => None :: update_nan_series s' transformed
  | Some _ :: s' =>
      match transformed with
      | [] => None :: update_nan_series s' []
      | v :: t' => Some v :: update_nan_series s' t'
      end
  end.

Section Transform.

Variable V : Type.
(** [scipy.stats.norm.ppf], the standard normal quantile function. *)
Variable norm_ppf : Q -> V.
(** [scipy.special.ndtr], the standard normal distribution function. *)
Variable ndtr : Q -> V.

(** run_phase6_normalization.py, [inverse_normal_transformation]. *)
Definition inverse_normal_transformation (s : series) : list (option V) :=
  let non_na_values := dropna s in
  let N := length non_na_values in
  if N <? 2 then map (fun _ => None) s
  else
    let ranked := series_rank s in
    let percentiles := map (option_map (percentile N)) ranked in
    let transformed := map norm_ppf (dropna percentiles) in
    update_nan_series s transformed.

(** normalize_and_covariate_phase6_v2.py, [inverse_normal_transform]. *)
Definition inverse_normal_transform (data : series) : list (option V) :=
  let ranked_data := rankdata data in
  let n := length data in
  let normalized_ranks := map (option_map (percentile n)) ranked_data in
  map (option_map ndtr) normalized_ranks.

End Transform.

(** Rank-order preservation of an output [out] for the fully observed input
    [xs]: same length; a smaller input has a smaller (observed) output;
    equal inputs have the same output; distinct inputs distinct outputs. *)
Definition rank_order_preserving {V : Type} (Vlt : V -> V -> Prop)
  (xs : list Q) (out : list (option V)) : Prop :=
  length out = length xs /\
  forall i j xi xj,
    nth_error xs i = Some xi -> nth_error xs j = Some xj ->
    ((xi < xj)%Q ->
     exists oi oj, nth_error out i = Some (Some oi) /\
                   nth_error out j = Some (Some oj) /\ Vlt oi oj) /\
    ((xi == xj)%Q -> nth_error out i = nth_error out j) /\
    (~ (xi == xj)%Q -> nth_error out i <> nth_error out j).

End RankNormalizer.

(** * Processes: exit code and stderr *)

Record process := {
  exit_code : Z;
  stderr : list string
}.

(** What a stage function does when it is called from the script's
    [try: ... except Exception as e: print(FATAL UNCAUGHT ...); sys.exit(1)]:
    it returns, it calls [sys.exit], or an exception escapes it. *)
Inductive completion (A : Type) : Type :=
| Returned (a : A)
| SysExit (code : Z)
| Uncaught (e : exn).

Arguments Returned {A} a.
Arguments SysExit {A} code.
Arguments Uncaught {A} e.

(** The [if __name__ == "__main__"] block shared by the stages: a normal
    return ends the interpreter with status 0, [sys.exit(c)] with [c]
    ([SystemExit] is not an [Exception]), an escaped exception with the
    "FATAL UNCAUGHT ERROR" line and status 1. *)
Definition main_block {A : Type} (phase : string) (log : list string)
  (c : completion A) : process :=
  match c with
  | Returned _ => {| exit_code := 0; stderr := log |}
  | SysExit code => {| exit_code := code; stderr := log |}
  | Uncaught e =>
      {| exit_code := 1;
         stderr := log ++ [String "010" ("FATAL UNCAUGHT ERROR in " ++ phase ++ ": "
                                         ++ exn_str e)%string] |}
  end.

(** * String helpers *)

Fixpoint str_prefix (p s : string) : bool :=
  match p, s with
  | EmptyString, _ => true
  | String a p', String b s' => Ascii.eqb a b && str_prefix p' s'
  | String _ _, EmptyString => false
  end.

Fixpoint str_drop (n : nat) (s : string) : string :=
  match n, s with
  | O, _ => s
  | S n', String _ s' => str_drop n' s'
  | S _, EmptyString => EmptyString
  end.

(** [s.endswith(suffix)]. *)
Definition str_endswith (suffix s : string) : bool :=
  let n := String.length s in
  let k := String.length suffix in
  (k <=? n) && String.eqb (str_drop (n - k) s) suffix.

(** [s.replace(old, '')] for a non-empty [old]: every occurrence, scanning
    from the left; [fuel] bounds the scan by the length of [s]. *)
Fixpoint str_remove_all_aux (fuel : nat) (old s : string) : string :=
  match fuel with
  | O => s
  | S fuel' =>
      match s with
      | EmptyString => EmptyString
      | String a s' =>
          if str_prefix old s
          then str_remove_all_aux fuel' old (str_drop (String.length old) s)
          else String a (str_remove_all_aux fuel' old s')
      end
  end.

Definition str_remove_all (old s : string) : string :=
  str_remove_all_aux (String.length s) old s.

(** [str(z)] for an integer. *)
Definition string_of_Z (z : Z) : string := NilZero.string_of_int (Z.to_int z).

(** [s.split(sep)] for a one-character separator. *)
Fixpoint split_on (sep : ascii) (s : string) : list string :=
  match s with
  | EmptyString => [EmptyString]
  | String a s' =>
      if Ascii.eqb a sep then EmptyString :: split_on sep s'
      else
        match split_on sep s' with
        | [] => [String a EmptyString]
        | w :: ws => String a w :: ws
        end
  end.

(** Python's tuple order on [(Gene, CellType)] pairs of strings. *)
Definition pair_compare (a b : string * string) : comparison :=
  match String.compare (fst a) (fst b) with
  | Eq => String.compare (snd a) (snd b)
  | c => c
  end.

Definition pair_eqb (a b : string * string) : bool :=
  String.eqb (fst a) (fst b) && String.eqb (snd a) (snd b).

(** Insertion into a sorted list without duplicates. *)
Fixpoint insert_key {K : Type} (cmp : K -> K -> comparison) (k : K) (l : list K)
  : list K :=
  match l with
  | [] => [k]
  | h :: t =>
      match cmp k h with
      | Lt => k :: h :: t
      | Eq => h :: t
      | Gt => h :: insert_key cmp k t
      end
  end.

(** The group keys of a [groupby] (default [sort=True]): sorted, unique. *)
Definition sorted_keys {K : Type} (cmp : K -> K -> comparison) (ks : list K) : list K :=
  fold_right (insert_key cmp) [] ks.

(** * Phase 5: population collation and representative-site selection *)

Module Phase5.

(** One row of a Phase-4 matrix, as Phase 5 reads it: the [SiteID] index,
    [GlobalFilterStatus], [Phase3_Gene] and the values of the remaining
    columns in column order. *)
Record p4_row := {
  p4_SiteID : string;
  p4_GlobalFilterStatus : string;
  p4_Phase3_Gene : string;
  p4_values : list (option Q)
}.

(** A Phase-4 matrix file that [pd.read_csv] could load: the names of the
    value columns and the rows. *)
Record p4_matrix := {
  p4_columns : list string;
  p4_rows : list p4_row
}.

(** An input file matched by [glob]: the individual ID cut out of its name
    and what the body of the per-file [try] makes of it. *)
Record input_file := {
  file_path : string;
  individual_id : string;
  loaded : result p4_matrix
}.

(** A row of the population matrix: the (SiteID, Phase3_Gene, CellType)
    index and one value per individual column. *)
Record pop_row := {
  SiteID : string;
  Phase3_Gene : string;
  CellType : string;
  values : list (option Q)
}.

Definition row_key (r : pop_row) : string * string * string :=
  (SiteID r, Phase3_Gene r, CellType r).

Definition key3_eqb (a b : string * string * string) : bool :=
  String.eqb (fst (fst a)) (fst (fst b))
  && String.eqb (snd (fst a)) (snd (fst b))
  && String.eqb (snd a) (snd b).

(** [df_filtered = df[df['GlobalFilterStatus'] == 'PASS']]. *)
Definition df_filtered (df : p4_matrix) : list p4_row :=
  filter (fun r => String.eqb (p4_GlobalFilterStatus r) "PASS") (p4_rows df).

(** Positions and names of the columns whose name ends with [_ER]. *)
Definition er_cols (df : p4_matrix) : list (nat * string) :=
  filter (fun c => str_endswith "_ER" (snd c))
         (combine (seq 0 (length (p4_columns df))) (p4_columns df)).

(** One individual's long frame: [melt] stacks the [_ER] columns one after
    the other, each over the filtered rows; the index is
    (SiteID, Phase3_Gene, CellType) and the single column the individual. *)
Definition df_long (df : p4_matrix) : list (string * string * string * option Q) :=
  flat_map (fun c =>
    map (fun r =>
      (p4_SiteID r, p4_Phase3_Gene r, str_remove_all "_ER" (snd c),
       nth (fst c) (p4_values r) None))
      (df_filtered df))
    (er_cols df).

(** The collation loop: files the [try] body fails on are skipped with a
    WARNING; the others contribute their long frame. *)
Fixpoint collate (files : list input_file)
  : list (string * list (string * string * string * option Q)) * list string :=
  match files with
  | [] => ([], [])
  | f :: rest =>
      let '(data, log) := collate rest in
      match loaded f with
      | Ok df => ((individual_id f, df_long df) :: data, log)
      | Raise e =>
          (data, ("WARNING: Skipping file " ++ file_path f ++ " due to error: "
                  ++ exn_str e)%string :: log)
      end
  end.

Fixpoint has_dup_key (l : list (string * string * string)) : bool :=
  match l with
  | [] => false
  | k :: t => existsb (key3_eqb k) t || has_dup_key t
  end.

Fixpoint lookup_key (k : string * string * string)
  (l : list (string * string * string * option Q)) : option Q :=
  match l with
  | [] => None
  | (k', v) :: t => if key3_eqb k k' then v else lookup_key k t
  end.

(** Union of the indexes in order of first appearance. *)
Fixpoint union_keys (acc : list (string * string * string))
  (l : list (string * string * string)) : list (string * string * string) :=
  match l with
  | [] => acc
  | k :: t =>
      if existsb (key3_eqb k) acc then union_keys acc t
      else union_keys (acc ++ [k]) t
  end.

Fixpoint keys_eqb (a b : list (string * string * string)) : bool :=
  match a, b with
  | [], [] => true
  | x :: a', y :: b' => key3_eqb x y && keys_eqb a' b'
  | _, _ => false
  end.

Definition frame_index (d : string * list (string * string * string * option Q))
  : list (string * string * string) := map fst (snd d).

(** [pd.concat(all_data, axis=1)]: a full outer alignment on the index.
    Frames whose indexes are all the same are put side by side as they are;
    otherwise every frame is reindexed on the union of the indexes, which
    pandas refuses for a frame whose index holds a key twice. *)
Definition concat_axis1
  (all_data : list (string * list (string * string * string * option Q)))
  : result (list pop_row) :=
  match all_data with
  | [] => Raise (ValueError "No objects to concatenate")
  | first :: _ =>
      if forallb (fun d => keys_eqb (frame_index d) (frame_index first)) all_data
      then
        Ok (map (fun ik =>
              {| SiteID := fst (fst (snd ik)); Phase3_Gene := snd (fst (snd ik));
                 CellType := snd (snd ik);
                 values := map (fun d => nth (fst ik) (map snd (snd d)) None) all_data |})
            (combine (seq 0 (length (frame_index first))) (frame_index first)))
      else if existsb (fun d => has_dup_key (frame_index d)) all_data
      then Raise (InvalidIndexError "Reindexing only valid with uniquely valued Index objects")
      else
        let index := fold_left (fun acc d => union_keys acc (frame_index d)) all_data [] in
        Ok (map (fun k =>
              {| SiteID := fst (fst k); Phase3_Gene := snd (fst k); CellType := snd k;
                 values := map (fun d => lookup_key k (snd d)) all_data |})
            index)
  end.

(** [population_matrix.notna().sum(axis=1)]. *)
Definition sample_count (r : pop_row) : Z :=
  Z.of_nat (length (dropna (values r))).

(** [population_matrix_raw[sample_counts >= MIN_SAMPLES]]. *)
Definition sample_size_filter (MIN_SAMPLES : Z) (pm : list pop_row) : list pop_row :=
  filter (fun r => (MIN_SAMPLES <=? sample_count r)%Z) pm.

Fixpoint insert_sorted (x : Q) (l : list Q) : list Q :=
  match l with
  | [] => [x]
  | h :: t => if Qle_bool x h then x :: h :: t else h :: insert_sorted x t
  end.

Definition sort_values (l : list Q) : list Q := fold_right insert_sorted [] l.

Section Selection.

(** The mean of two floats as [median] computes it in binary64: their sum,
    rounded, then halved.  The rounding is not a function of rational
    arithmetic, so the operation stays abstract; nothing is assumed of it. *)
Variable mean2 : Q -> Q -> Q.

(** [median(axis=1)] with the default [skipna=True]: the middle of the
    sorted observed values, the mean of the two middle ones when their number
    is even, NaN when there is none. *)
Definition median (vals : list (option Q)) : option Q :=
  let sorted := sort_values (dropna vals) in
  let n := length sorted in
  if n =? 0 then None
  else if Nat.odd n then Some (nth (n / 2) sorted 0%Q)
  else Some (mean2 (nth (n / 2 - 1) sorted 0%Q) (nth (n / 2) sorted 0%Q)).

Definition Median_Raw_ER_Population (r : pop_row) : option Q := median (values r).

(** [Series.idxmax()] within one group, over the (label, value) pairs of its
    rows in row order: NaN is skipped, the first of several maxima wins;
    [None] when every value is NaN. *)
Fixpoint idxmax (l : list (nat * option Q)) : option (nat * Q) :=
  match l with
  | [] => None
  | (_, None) :: t => idxmax t
  | (i, Some m) :: t =>
      match idxmax t with
      | Some (j, m') => if Qltb m m' then Some (j, m') else Some (i, m)
      | None => Some (i, m)
      end
  end.

(** The rows of one (Phase3_Gene, CellType) group with their labels in
    [df_selection] (a RangeIndex after [reset_index]). *)
Definition group_rows (df_selection : list pop_row) (g : string * string)
  : list (nat * pop_row) :=
  filter (fun ir => pair_eqb (Phase3_Gene (snd ir), CellType (snd ir)) g)
         (combine (seq 0 (length df_selection)) df_selection).

Definition group_medians (df_selection : list pop_row) (g : string * string)
  : list (nat * option Q) :=
  map (fun ir => (fst ir, Median_Raw_ER_Population (snd ir))) (group_rows df_selection g).

(** [idx_max = groupby([...])[median].idxmax(); df_selection.loc[idx_max]]:
    a group whose medians are all NaN has the label NaN, which [.loc]
    rejects (pandas 3 raises from [idxmax] itself). *)
Definition select_group (df_selection : list pop_row) (g : string * string)
  : result pop_row :=
  match idxmax (group_medians df_selection g) with
  | None => Raise (KeyError "[nan] not in index")
  | Some (i, _) =>
      match nth_error df_selection i with
      | Some r => Ok r
      | None => Raise (KeyError "label not in index")
      end
  end.

Definition FeatureID (r : pop_row) : string :=
  (Phase3_Gene r ++ "__" ++ CellType r)%string.

(** The groups of [groupby(['Phase3_Gene', 'CellType'])]. *)
Definition groups (df_selection : list pop_row) : list (string * string) :=
  sorted_keys pair_compare (map (fun r => (Phase3_Gene r, CellType r)) df_selection).

(** The output row of a selected site: the feature identifier and the
    per-individual values. *)
Definition feature_row (r : pop_row) : string * list (option Q) :=
  (FeatureID r, values r).

(** Grouping, selection and re-keying as [Gene__CellType]. *)
Definition feature_selection (df_selection : list pop_row)
  : result (list (string * list (option Q))) :=
  final_features_df <- mapM (select_group df_selection) (groups df_selection) ;;
  Ok (map feature_row final_features_df).

(** [r] belongs to the group [g]. *)
Definition in_group (g : string * string) (r : pop_row) : Prop :=
  Phase3_Gene r = fst g /\ CellType r = snd g.

(** [r] is the representative of the group [g] of [df]: a row of the group
    with a defined median that no row of the group exceeds and that every
    earlier row of the group stays strictly below. *)
Definition representative (df : list pop_row) (g : string * string) (r : pop_row) : Prop :=
  exists i m,
    nth_error df i = Some r /\ in_group g r /\ Median_Raw_ER_Population r = Some m /\
    forall j r' m',
      nth_error df j = Some r' -> in_group g r' ->
      Median_Raw_ER_Population r' = Some m' ->
      (m' <= m)%Q /\ (j < i -> (m' < m)%Q).

(** What a run leaves behind: the written feature matrix, if any. *)
Definition output := option (list (string * list (option Q))).

Definition no_files_message (input_pattern : string) : string :=
  ("FATAL ERROR: No files found matching pattern: " ++ input_pattern)%string.

Definition no_data_message : string := "No data successfully processed. Exiting.".

(** collate_and_select_phase5.py, [run_phase5_collation_and_selection]. *)
Definition run_phase5_collation_and_selection_v1
  (input_pattern : string) (input_files : list input_file)
  : completion output * list string :=
  match input_files with
  | [] => (Returned None, [no_files_message input_pattern])
  | _ =>
      let '(all_data, log) := collate input_files in
      match all_data with
      | [] => (Returned None, log ++ [no_data_message])
      | _ =>
          match pm <- concat_axis1 all_data ;; feature_selection pm with
          | Ok m => (Returned (Some m), log)
          | Raise e => (Uncaught e, log)
          end
      end
  end.

(** collate_and_select_phase5_v2.py, [run_phase5_collation_and_selection]. *)
Definition run_phase5_collation_and_selection
  (MIN_SAMPLES : Z) (input_pattern : string) (input_files : list input_file)
  : completion output * list string :=
  match input_files with
  | [] => (Returned None, [no_files_message input_pattern])
  | _ =>
      let '(all_data, log) := collate input_files in
      match all_data with
      | [] => (Returned None, log ++ [no_data_message])
      | _ =>
          match pm <- concat_axis1 all_data ;;
                feature_selection (sample_size_filter MIN_SAMPLES pm) with
          | Ok m => (Returned (Some m), log)
          | Raise e => (Uncaught e, log)
          end
      end
  end.

(** The scripts run as programs. *)
Definition main_v1 (input_pattern : string) (input_files : list input_file) : process :=
  let '(c, log) := run_phase5_collation_and_selection_v1 input_pattern input_files in
  main_block "Phase 5 Collation" log c.

Definition main (MIN_SAMPLES : Z) (input_pattern : string)
  (input_files : list input_file) : process :=
  let '(c, log) := run_phase5_collation_and_selection MIN_SAMPLES input_pattern input_files in
  main_block "Phase 5 Collation" log c.

End Selection.

End Phase5.

(** * Phase 8: Benjamini-Hochberg correction of the association results *)

Module Phase8.

(** [np.argsort] followed by [np.take]: the p-values with their positions,
    in ascending order of p-value. *)
Fixpoint insert_by_p (x : nat * Q) (l : list (nat * Q)) : list (nat * Q) :=
  match l with
  | [] => [x]
  | h :: t => if Qle_bool (snd x) (snd h) then x :: h :: t else h :: insert_by_p x t
  end.

Definition argsort (pvals : list Q) : list (nat * Q) :=
  fold_right insert_by_p [] (combine (seq 0 (length pvals)) pvals).

(** [_ecdf]: [arange(1, m + 1) / m] at the 0-based position [i]. *)
Definition ecdf (m i : nat) : Q :=
  (inject_Z (Z.of_nat (S i)) / inject_Z (Z.of_nat m))%Q.

(** [max(np.nonzero(reject)[0])], [None] when [reject.any()] is false. *)
Fixpoint rejectmax (i : nat) (reject : list bool) : option nat :=
  match reject with
  | [] => None
  | b :: t =>
      match rejectmax (S i) t with
      | Some k => Some k
      | None => if b then Some i else None
      end
  end.

Definition Qminimum (x y : Q) : Q := if Qle_bool x y then x else y.

(** [np.minimum.accumulate(raw[::-1])[::-1]]. *)
Fixpoint cummin_right (raw : list Q) : list Q :=
  match raw with
  | [] => []
  | x :: t =>
      match cummin_right t with
      | [] => [x]
      | h :: acc => Qminimum x h :: h :: acc
      end
  end.

(** statsmodels [fdrcorrection(pvals, alpha, method='indep', is_sorted=True)].
    The products [ecdffactor * alpha] and the quotients
    [pvals_sorted / ecdffactor] are exact here; binary64 rounds each of
    them, so a flag and the comparison of the corrected value with [alpha]
    may differ there when the two are within one rounding of each other. *)
Definition fdrcorrection (alpha : Q) (pvals_sorted : list Q) : list bool * list Q :=
  let m := length pvals_sorted in
  let ecdffactor := map (ecdf m) (seq 0 m) in
  let reject :=
    map (fun pe => Qle_bool (fst pe) (snd pe * alpha)%Q)
        (combine pvals_sorted ecdffactor) in
  let reject :=
    match rejectmax 0 reject with
    | Some k => map (fun ib => (fst ib <? k) || snd ib) (combine (seq 0 m) reject)
    | None => reject
    end in
  let pvals_corrected_raw :=
    map (fun pe => (fst pe / snd pe)%Q) (combine pvals_sorted ecdffactor) in
  let pvals_corrected := cummin_right pvals_corrected_raw in
  let pvals_corrected := map (fun q => if Qltb 1 q then 1%Q else q) pvals_corrected in
  (reject, pvals_corrected).

(** [out = np.empty_like(vals); out[sortind] = vals], read at position [k]. *)
Fixpoint unsort_at {A : Type} (k : nat) (sortind : list nat) (vals : list A) : option A :=
  match sortind, vals with
  | i :: sortind', v :: vals' => if i =? k then Some v else unsort_at k sortind' vals'
  | _, _ => None
  end.

Definition unsort {A : Type} (d : A) (sortind : list nat) (vals : list A) : list A :=
  map (fun k => match unsort_at k sortind vals with Some v => v | None => d end)
      (seq 0 (length sortind)).

(** statsmodels [multipletests(pvals, alpha, method='fdr_bh')], its first two
    results: the reject flags and the corrected p-values, in input order.
    With no test at all it divides by the number of tests. *)
Definition multipletests (alpha : Q) (pvals : list Q) : result (list bool * list Q) :=
  match pvals with
  | [] => Raise (ZeroDivisionError "float division by zero")
  | _ =>
      let sorted := argsort pvals in
      let sortind := map fst sorted in
      let '(reject, pvals_corrected) := fdrcorrection alpha (map snd sorted) in
      Ok (unsort false sortind reject, unsort 0%Q sortind pvals_corrected)
  end.

(** *** Arrays that may hold NaN

    process_fastqtl_results_p8.py passes its p-value column to
    [multipletests] as it is read, NaN included. *)

(** [np.argsort] sorts NaN to the end. *)
Definition p_le (x y : option Q) : bool :=
  match x, y with
  | Some a, Some b => Qle_bool a b
  | Some _, None => true
  | None, Some _ => false
  | None, None => true
  end.

Fixpoint insert_by_p_nan (x : nat * option Q) (l : list (nat * option Q))
  : list (nat * option Q) :=
  match l with
  | [] => [x]
  | h :: t => if p_le (snd x) (snd h) then x :: h :: t else h :: insert_by_p_nan x t
  end.

Definition argsort_nan (pvals : list (option Q)) : list (nat * option Q) :=
  fold_right insert_by_p_nan [] (combine (seq 0 (length pvals)) pvals).

(** [np.minimum] propagates NaN. *)
Definition minimum_nan (x y : option Q) : option Q :=
  match x, y with
  | Some a, Some b => Some (Qminimum a b)
  | _, _ => None
  end.

Fixpoint cummin_right_nan (raw : list (option Q)) : list (option Q) :=
  match raw with
  | [] => []
  | x :: t =>
      match cummin_right_nan t with
      | [] => [x]
      | h :: acc => minimum_nan x h :: h :: acc
      end
  end.

(** [fdrcorrection] on a sorted array that may end in NaN: a comparison with
    NaN is false, a quotient of NaN is NaN. *)
Definition fdrcorrection_nan (alpha : Q) (pvals_sorted : list (option Q))
  : list bool * list (option Q) :=
  let m := length pvals_sorted in
  let ecdffactor := map (ecdf m) (seq 0 m) in
  let reject :=
    map (fun pe => match fst pe with
                   | Some p => Qle_bool p (snd pe * alpha)%Q
                   | None => false
                   end)
        (combine pvals_sorted ecdffactor) in
  let reject :=
    match rejectmax 0 reject with
    | Some k => map (fun ib => (fst ib <? k) || snd ib) (combine (seq 0 m) reject)
    | None => reject
    end in
  let pvals_corrected_raw :=
    map (fun pe => option_map (fun p => (p / snd pe)%Q) (fst pe))
        (combine pvals_sorted ecdffactor) in
  let pvals_corrected := cummin_right_nan pvals_corrected_raw in
  let pvals_corrected :=
    map (option_map (fun q => if Qltb 1 q then 1%Q else q)) pvals_corrected in
  (reject, pvals_corrected).

(** [multipletests(pvals, alpha, method='fdr_bh')] on an array that may hold
    NaN. *)
Definition multipletests_nan (alpha : Q) (pvals : list (option Q))
  : result (list bool * list (option Q)) :=
  match pvals with
  | [] => Raise (ZeroDivisionError "float division by zero")
  | _ =>
      let sorted := argsort_nan pvals in
      let sortind := map fst sorted in
      let '(reject, pvals_corrected) := fdrcorrection_nan alpha (map snd sorted) in
      Ok (unsort false sortind reject, unsort None sortind pvals_corrected)
  end.

(** ** process_fastqtl_results_p8.py *)

Record fastqtl_row := {
  FeatureID : string;
  SNP_ID : string;
  P_nominal : Q;
  SNP_distance : Z;
  P_beta : option Q
}.

Record corrected_row := {
  row : fastqtl_row;
  Q_value : option Q;
  Significant : bool
}.

(** [df_raw['Q_value'] < FDR_THRESHOLD], false for NaN. *)
Definition below_threshold (FDR_THRESHOLD : Q) (r : corrected_row) : bool :=
  match Q_value r with
  | Some q => Qltb q FDR_THRESHOLD
  | None => false
  end.

Record p8_output := {
  full_with_qval : list corrected_row;
  df_final_edQTLs : list corrected_row
}.

(** [process_fastqtl_results]; [read] is what [pd.read_csv] gives. *)
Definition process_fastqtl_results (FDR_THRESHOLD : Q) (input_file : string)
  (read : result (list fastqtl_row))
  : completion p8_output * list string :=
  match read with
  | Raise (FileNotFoundError _) =>
      (SysExit 1, [("FATAL ERROR: Input file not found at " ++ input_file)%string])
  | Raise e => (SysExit 1, [("FATAL ERROR while loading file: " ++ exn_str e)%string])
  | Ok [] => (SysExit 0, ["WARNING: FastQTL output file is empty. Exiting."])
  | Ok df_raw =>
      let p_values := map P_beta df_raw in
      match multipletests_nan (5 # 100) p_values with
      | Raise e => (Uncaught e, [])
      | Ok (reject, q_values) =>
          let df_raw :=
            map (fun rqs => {| row := fst (fst rqs); Q_value := snd (fst rqs);
                               Significant := snd rqs |})
                (combine (combine df_raw q_values) reject) in
          (Returned {| full_with_qval := df_raw;
                       df_final_edQTLs := filter (below_threshold FDR_THRESHOLD) df_raw |},
           [])
      end
  end.

(** ** qvalue_filter_phase8.py *)

Record pvalue_row := {
  feature_id : string;
  variant_id : string;
  p_empirical : option Q
}.

Record result_file := {
  result_path : string;
  exists_on_disk : bool;
  parsed : result (list pvalue_row)
}.

Record fdr_row := {
  fdr_feature_id : string;
  fdr_variant_id : string;
  fdr_p_empirical : Q;
  source_file : string;
  q_value : Q;
  FDR_significant : bool
}.

Record fdr_output := {
  lead_snps : list fdr_row;
  full_corrected : list fdr_row
}.

(** The loading loop: rows of the files that exist and parse, tagged with
    their file, and the WARNING / ERROR lines of the others. *)
Fixpoint load_pvalues (input_files : list result_file)
  : list (list (pvalue_row * string)) * list string :=
  match input_files with
  | [] => ([], [])
  | f :: rest =>
      let '(all_pvalues, log) := load_pvalues rest in
      if negb (exists_on_disk f)
      then (all_pvalues,
            ("WARNING: Input file not found: " ++ result_path f ++ ". Skipping.")%string :: log)
      else
        match parsed f with
        | Ok df => (map (fun r => (r, result_path f)) df :: all_pvalues, log)
        | Raise e =>
            (all_pvalues,
             ("ERROR processing " ++ result_path f ++ ": " ++ exn_str e)%string :: log)
        end
  end.

(** [df_combined.dropna(subset=['p_empirical'])]. *)
Fixpoint dropna_p_empirical (df : list (pvalue_row * string))
  : list (pvalue_row * string * Q) :=
  match df with
  | [] => []
  | (r, src) :: t =>
      match p_empirical r with
      | Some p => (r, src, p) :: dropna_p_empirical t
      | None => dropna_p_empirical t
      end
  end.

(** [Series.idxmin()] within one group: the first of several minima. *)
Fixpoint idxmin (l : list fdr_row) : option fdr_row :=
  match l with
  | [] => None
  | r :: t =>
      match idxmin t with
      | Some r' => if Qltb (fdr_p_empirical r') (fdr_p_empirical r) then Some r' else Some r
      | None => Some r
      end
  end.

Fixpoint insert_by_q (r : fdr_row) (l : list fdr_row) : list fdr_row :=
  match l with
  | [] => [r]
  | h :: t => if Qle_bool (q_value r) (q_value h) then r :: h :: t else h :: insert_by_q r t
  end.

Definition fatal_no_data : string :=
  "FATAL ERROR: No valid data loaded for correction. Exiting.".

(** [run_fdr_correction]. *)
Definition run_fdr_correction (input_files : list result_file)
  : completion (option fdr_output) * list string :=
  let '(all_pvalues, log) := load_pvalues input_files in
  match all_pvalues with
  | [] => (Returned None, log ++ [fatal_no_data])
  | _ =>
      let df_combined := dropna_p_empirical (concat all_pvalues) in
      match multipletests (5 # 100) (map snd df_combined) with
      | Raise e => (Uncaught e, log)
      | Ok (reject, qvals) =>
          let df_combined :=
            map (fun x =>
                   let '(r, src, p, q, rej) := x in
                   {| fdr_feature_id := feature_id r; fdr_variant_id := variant_id r;
                      fdr_p_empirical := p; source_file := src;
                      q_value := q; FDR_significant := rej |})
                (combine (combine df_combined qvals) reject) in
          let df_significant := filter FDR_significant df_combined in
          let groups := sorted_keys String.compare (map fdr_feature_id df_significant) in
          let df_lead_snps :=
            flat_map (fun g =>
              match idxmin (filter (fun r => String.eqb (fdr_feature_id r) g) df_significant) with
              | Some r => [r]
              | None => []
              end) groups in
          (Returned (Some {| lead_snps := fold_right insert_by_q [] df_lead_snps;
                             full_corrected := df_combined |}),
           log)
      end
  end.

(** The script run as a program. *)
Definition main (input_files : list result_file) : process :=
  let '(c, log) := run_fdr_correction input_files in
  main_block "Phase 8" log c.

End Phase8.

(** * Phase 6: normalisation and covariate merge *)

Module Phase6Merge.

(** A table indexed by individual ID: the column names and, per row, the
    label and the cells in column order. *)
Record frame (A : Type) := {
  columns : list string;
  rows : list (string * list A)
}.

Arguments columns {A} f.
Arguments rows {A} f.

Definition index {A : Type} (df : frame A) : list string := map fst (rows df).

Definition mem (x : string) (l : list string) : bool := existsb (String.eqb x) l.

Fixpoint has_duplicates (l : list string) : bool :=
  match l with
  | [] => false
  | x :: t => mem x t || has_duplicates t
  end.

Fixpoint labels_eqb (a b : list string) : bool :=
  match a, b with
  | [], [] => true
  | x :: a', y :: b' => String.eqb x y && labels_eqb a' b'
  | _, _ => false
  end.

(** The labels of [l] not yet in [acc], appended in order of appearance. *)
Fixpoint union_labels (acc l : list string) : list string :=
  match l with
  | [] => acc
  | x :: t => if mem x acc then union_labels acc t else union_labels (acc ++ [x]) t
  end.

(** The cells of the row labelled [x], NaN in every column when absent. *)
Fixpoint reindex_row {A : Type} (x : string) (ncols : nat)
  (l : list (string * list (option A))) : list (option A) :=
  match l with
  | [] => repeat None ncols
  | (y, cells) :: t => if String.eqb x y then cells else reindex_row x ncols t
  end.

(** [pd.concat(covariates, axis=1)], the default outer join on the index. *)
Definition concat_axis1 {A : Type} (dfs : list (frame (option A)))
  : result (frame (option A)) :=
  match dfs with
  | [] => Raise (ValueError "No objects to concatenate")
  | first :: _ =>
      let cols := flat_map columns dfs in
      if forallb (fun df => labels_eqb (index df) (index first)) dfs
      then
        Ok {| columns := cols;
              rows := map (fun ix =>
                        (snd ix,
                         flat_map (fun df => nth (fst ix) (map snd (rows df)) []) dfs))
                      (combine (seq 0 (length (index first))) (index first)) |}
      else if existsb (fun df => has_duplicates (index df)) dfs
      then Raise (InvalidIndexError "Reindexing only valid with uniquely valued Index objects")
      else
        let idx := fold_left (fun acc df => union_labels acc (index df)) dfs [] in
        Ok {| columns := cols;
              rows := map (fun x =>
                        (x, flat_map (fun df =>
                                        reindex_row x (length (columns df)) (rows df)) dfs))
                      idx |}
  end.

(** [Index.unique()]: first occurrences. *)
Fixpoint unique (l : list string) : list string :=
  match l with
  | [] => []
  | x :: t => x :: filter (fun y => negb (String.eqb x y)) (unique t)
  end.

(** [a.intersection(b)]: the labels of [a] that [b] holds, each once. *)
Definition intersection (a b : list string) : list string :=
  unique (filter (fun x => mem x b) a).

(** [df.loc[labels]] for labels that all occur in the index: for each label
    in turn, every row that carries it. *)
Definition loc {A : Type} (df : frame A) (labels : list string) : frame A :=
  {| columns := columns df;
     rows := flat_map (fun x => filter (fun r => String.eqb (fst r) x) (rows df)) labels |}.

(** [df.fillna(0)]. *)
Definition fillna0 (df : frame (option Q)) : frame (option Q) :=
  {| columns := columns df;
     rows := map (fun r => (fst r, map (fun c => match c with
                                                 | None => Some 0%Q
                                                 | c => c
                                                 end) (snd r)))
                 (rows df) |}.

Definition column {A : Type} (j : nat) (df : frame (option A)) : list (option A) :=
  map (fun r => nth j (snd r) None) (rows df).

(** Keep the columns at the positions [keep] selects. *)
Definition select_columns {A : Type} (keep : nat -> bool) (df : frame (option A))
  : frame (option A) :=
  let pick {B : Type} (l : list B) : list B :=
    map snd (filter (fun jb => keep (fst jb)) (combine (seq 0 (length l)) l)) in
  {| columns := pick (columns df);
     rows := map (fun r => (fst r, pick (snd r))) (rows df) |}.

Fixpoint distinct_values (l : list Q) : list Q :=
  match l with
  | [] => []
  | x :: t => x :: filter (fun y => negb (Qeq_bool x y)) (distinct_values t)
  end.

(** [Series.nunique()]: the number of distinct observed values. *)
Definition nunique (col : list (option Q)) : nat :=
  length (distinct_values (dropna col)).

(** [df.dropna(axis=1, how='all')]. *)
Definition dropna_all_columns (df : frame (option Q)) : frame (option Q) :=
  select_columns (fun j => existsb notna (column j df)) df.

(** [df.T]. *)
Definition transpose {A : Type} (df : frame (option A)) : frame (option A) :=
  {| columns := index df;
     rows := map (fun jc => (snd jc, column (fst jc) df))
                 (combine (seq 0 (length (columns df))) (columns df)) |}.

Section Run.

Variable V : Type.
Variable ndtr : Q -> V.

(** pandas' [apply_standard] for [inverse_normal_transform] along axis 0:
    the function is applied column by column and the arrays it returns are
    put side by side under the index and the columns of [df]. *)
Definition apply_standard (df : frame (option Q)) : frame (option V) :=
  let cols :=
    map (fun j => RankNormalizer.inverse_normal_transform ndtr (column j df))
        (seq 0 (length (columns df))) in
  {| columns := columns df;
     rows := map (fun ir => (snd ir, map (fun c => nth (fst ir) c None) cols))
                 (combine (seq 0 (length (rows df))) (index df)) |}.

(** pandas' [apply_empty_result], taken when [df] has no row or no column.
    The function maps the empty Series to an empty array, which is not a
    Series, so pandas reduces: without any column the result is an empty
    Series (no feature and no individual; its file is a header line
    without any individual); with columns it builds a Series of the empty
    array over the column labels, which raises. *)
Definition apply_empty_result (df : frame (option Q)) : result (frame (option V)) :=
  match columns df with
  | [] => Ok {| columns := []; rows := [] |}
  | _ :: _ =>
      Raise (ValueError ("Length of values (0) does not match length of index ("
                         ++ string_of_Z (Z.of_nat (length (columns df))) ++ ")")%string)
  end.

(** [df.apply(inverse_normal_transform, axis=0)]. *)
Definition apply_int (df : frame (option Q)) : result (frame (option V)) :=
  match columns df, rows df with
  | _ :: _, _ :: _ => Ok (apply_standard df)
  | _, _ => apply_empty_result df
  end.

Record saved := {
  output_phenotype : frame (option V);
  output_covariates : frame (option Q)
}.

(** The individuals of the saved phenotype matrix are its columns, those of
    the saved covariate matrix its row labels. *)
Definition phenotype_individuals (o : saved) : list string :=
  columns (output_phenotype o).

Definition covariate_individuals (o : saved) : list string :=
  index (output_covariates o).

(** The optional covariate tables that loaded. *)
Definition optional (r : result (frame (option Q))) : list (frame (option Q)) :=
  match r with
  | Ok df => [df]
  | Raise _ => []
  end.

(** normalize_and_covariate_phase6_v2.py, [run_normalization_and_merge]. *)
Definition run_normalization_and_merge
  (input_features input_aei_covariates input_genotype_pcs input_peer_factors
     : result (frame (option Q)))
  : completion saved * list string :=
  match input_features with
  | Raise e => (SysExit 1, [("FATAL ERROR loading feature file: " ++ exn_str e)%string])
  | Ok df_phenotype =>
      match input_aei_covariates with
      | Raise e =>
          (SysExit 1, [("FATAL ERROR loading AEI covariates: " ++ exn_str e)%string])
      | Ok df_aei =>
          let covariates :=
            dropna_all_columns df_aei
              :: optional input_genotype_pcs ++ optional input_peer_factors in
          match concat_axis1 covariates with
          | Raise e => (Uncaught e, [])
          | Ok df_covariates_merged =>
              let individuals :=
                intersection (index df_phenotype) (index df_covariates_merged) in
              let df_phenotype := loc df_phenotype individuals in
              let df_covariates_final := fillna0 (loc df_covariates_merged individuals) in
              let df_covariates_final :=
                select_columns (fun j => 1 <? nunique (column j df_covariates_final))
                               df_covariates_final in
              match apply_int df_phenotype with
              | Raise e => (Uncaught e, [])
              | Ok df_phenotype_int =>
                  (Returned {| output_phenotype := transpose df_phenotype_int;
                               output_covariates := df_covariates_final |},
                   [])
              end
          end
      end
  end.

End Run.

End Phase6Merge.

(** * Phase 4: per-cell-type quantification *)

Module Phase4.

Definition lower_ascii (a : ascii) : ascii :=
  let n := nat_of_ascii a in
  if (65 <=? n) && (n <=? 90) then ascii_of_nat (n + 32) else a.

Fixpoint lower (s : string) : string :=
  match s with
  | EmptyString => EmptyString
  | String a s' => String (lower_ascii a) (lower s')
  end.

(** A row of the Phase-3 matrix with the coordinates cut out of its SiteID.
    The index is the index of a pivot: each SiteID occurs once. *)
Record site := {
  site_id : string;
  Chr : string;
  Pos : Z;
  Ref : string;
  Alt : string;
  Functional_Region : string;
  Gene : string;
  REDIPortal_Status : string
}.

(** A VCF record as [check_germline_status] reads it; [rec_GT] is
    [rec.samples[ind_id]["GT"]], which raises for an unknown sample. *)
Record vcf_record := {
  rec_ref : string;
  rec_alts : list string;
  rec_GT : result (Z * Z)
}.

Definition germline_genotype (gt : Z * Z) : bool :=
  match gt with
  | (0, 1)%Z | (1, 1)%Z | (1, 0)%Z => true
  | _ => false
  end.

(** The [for rec in vcf_in.fetch(...)] loop: [true] at the first record of
    the queried alleles with a germline genotype. *)
Fixpoint scan_records (ref alt : string) (recs : list vcf_record) : result bool :=
  match recs with
  | [] => Ok false
  | rec :: rest =>
      if String.eqb (rec_ref rec) ref && existsb (String.eqb alt) (rec_alts rec)
      then gt <- rec_GT rec ;;
           (if germline_genotype gt then Ok true else scan_records ref alt rest)
      else scan_records ref alt rest
  end.

Record gtf_annotation := {
  annot_GlobalFilterStatus : string;
  annot_MinDistToSplice : Z
}.

Record metrics := {
  TotalReads : Z;
  VariantReads : Z;
  EditingRatio : option Q
}.

Record annotation := {
  GlobalFilterStatus : string;
  VCF_Status : string;
  MinDistToSplice : Z;
  Phase3_FunctionalRegion : string;
  Phase3_Gene : string;
  Phase3_REDIPortal_Status : string
}.

(** A row of the output matrix: the site, its annotation, and per BAM file
    the cell type with its [_ER], [_TR] and [_QC] cells. *)
Record matrix_row := {
  SiteID : string;
  row_annotation : annotation;
  quantification : list (string * metrics * string)
}.

Section Quantifier.

(** [pysam.VariantFile(vcf).fetch(chrom, pos - 1, pos)]. *)
Variable fetch : string -> Z -> result (list vcf_record).
(** [load_gtf_splice_junctions]: per chromosome the sorted junction
    coordinates, or the failure to load the GTF. *)
Variable GTF_JUNCTION_MAP : result (list (string * list Z)).
(** The pileup column of a BAM file at a site: depth and reads carrying the
    alternate base, or the failure to query it. *)
Variable pileup : string -> site -> result (Z * Z).
(** The BAM files with the cell type cut out of their names. *)
Variable BAM_FILES : list (string * string).

Definition check_germline_status (s : site) : bool * string :=
  match recs <- fetch (Chr s) (Pos s) ;; scan_records (Ref s) (Alt s) recs with
  | Ok true => (true, "GermlineSNP")
  | Ok false => (false, "SomaticEdit")
  | Raise _ => (false, "VCF_Error")
  end.

Fixpoint lookup_junctions (chrom : string) (m : list (string * list Z)) : option (list Z) :=
  match m with
  | [] => None
  | (c, js) :: t => if String.eqb c chrom then Some js else lookup_junctions chrom t
  end.

(** [np.min(np.abs(junctions - pos))]. *)
Definition min_abs_dist (pos : Z) (junctions : list Z) : Z :=
  match junctions with
  | [] => 9999%Z
  | j :: t => fold_left (fun m j' => Z.min m (Z.abs (j' - pos))) t (Z.abs (j - pos))
  end.

Definition parse_gtf_and_get_annotation (splice_threshold : Z) (s : site) : gtf_annotation :=
  match GTF_JUNCTION_MAP with
  | Raise _ => {| annot_GlobalFilterStatus := "GTF_Error"; annot_MinDistToSplice := 9999 |}
  | Ok m =>
      match lookup_junctions (str_remove_all "chr" (Chr s)) m with
      | Some junctions =>
          let min_dist := min_abs_dist (Pos s) junctions in
          if (min_dist <=? splice_threshold)%Z
          then {| annot_GlobalFilterStatus :=
                    "SJ_Filtered_<" ++ string_of_Z splice_threshold ++ "bp";
                  annot_MinDistToSplice := min_dist |}
          else {| annot_GlobalFilterStatus := "PASS"; annot_MinDistToSplice := min_dist |}
      | None => {| annot_GlobalFilterStatus := "PASS"; annot_MinDistToSplice := 9999 |}
      end
  end.

(** [quantify_site_per_bam].  Only the pileup sits inside the [try]; the
    division [variant_reads / total_reads] comes after it, so a depth of 0
    that is not masked (a minimum coverage of 0 or less) divides by zero. *)
Definition quantify_site_per_bam (min_coverage : Z) (bam_path : string) (s : site)
  : result (metrics * string) :=
  match pileup bam_path s with
  | Raise _ =>
      Ok ({| TotalReads := 0; VariantReads := 0; EditingRatio := None |}, "BAM_Error")
  | Ok (total_reads, variant_reads) =>
      if (total_reads <? min_coverage)%Z
      then Ok ({| TotalReads := total_reads; VariantReads := variant_reads;
                  EditingRatio := None |}, "LowCoverage")
      else if (total_reads =? 0)%Z
      then Raise (ZeroDivisionError "division by zero")
      else Ok ({| TotalReads := total_reads; VariantReads := variant_reads;
                  EditingRatio :=
                    Some (inject_Z variant_reads / inject_Z total_reads)%Q |},
               "PASS")
  end.

(** An optional annotation filter is active when its argument is given and
    is not the word "none" in any case. *)
Definition active_filter (arg : option string) : option string :=
  match arg with
  | Some v => if String.eqb v "" || String.eqb (lower v) "none" then None else Some v
  | None => None
  end.

Definition annotation_filter (arg : option string) (field : site -> string)
  (df : list site) : list site :=
  match active_filter arg with
  | Some v => filter (fun s => String.eqb (field s) v) df
  | None => df
  end.

(** The entry of [site_annotation] for one site. *)
Definition annotate (splice_threshold : Z) (s : site) : annotation :=
  let '(is_snp, vcf_status) := check_germline_status s in
  let gtf_annot := parse_gtf_and_get_annotation splice_threshold s in
  let global_status :=
    if is_snp then vcf_status
    else if str_prefix "SJ_Filtered" (annot_GlobalFilterStatus gtf_annot)
         then annot_GlobalFilterStatus gtf_annot
         else "PASS" in
  {| GlobalFilterStatus := global_status;
     VCF_Status := vcf_status;
     MinDistToSplice := annot_MinDistToSplice gtf_annot;
     Phase3_FunctionalRegion := Functional_Region s;
     Phase3_Gene := Gene s;
     Phase3_REDIPortal_Status := REDIPortal_Status s |}.

(** The row built for a site that is quantified: its cells are filled BAM
    file by BAM file; an exception of one quantification ends the run. *)
Definition quantify_row (splice_threshold min_coverage : Z) (s : site)
  : result matrix_row :=
  cells <- mapM (fun bam =>
                   ms <- quantify_site_per_bam min_coverage (fst bam) s ;;
                   Ok (snd bam, fst ms, snd ms))
                BAM_FILES ;;
  Ok {| SiteID := site_id s;
        row_annotation := annotate splice_threshold s;
        quantification := cells |}.

(** The quantification loop: a site whose global status is not PASS is
    skipped, the others give one row each. *)
Fixpoint matrix_rows (splice_threshold min_coverage : Z) (sites : list site)
  : result (list matrix_row) :=
  match sites with
  | [] => Ok []
  | s :: rest =>
      if negb (String.eqb (GlobalFilterStatus (annotate splice_threshold s)) "PASS")
      then matrix_rows splice_threshold min_coverage rest
      else row <- quantify_row splice_threshold min_coverage s ;;
           rows <- matrix_rows splice_threshold min_coverage rest ;;
           Ok (row :: rows)
  end.

(** run_phase4_quantification_v3.py, [run_phase4_quantification]: the rows of
    the written matrix.  With no site left after the annotation filters an
    empty table is written; an exception of the quantification loop escapes;
    with no row at all [set_index('SiteID')] finds no such column. *)
Definition run_phase4_quantification
  (filter_redip_status filter_func_region : option string)
  (splice_site_threshold min_read_coverage : Z) (phase3_df : list site)
  : completion (list matrix_row) :=
  let phase3_df := annotation_filter filter_redip_status REDIPortal_Status phase3_df in
  let phase3_df := annotation_filter filter_func_region Functional_Region phase3_df in
  match phase3_df with
  | [] => Returned []
  | _ =>
      match matrix_rows splice_site_threshold min_read_coverage phase3_df with
      | Raise e => Uncaught e
      | Ok [] => Uncaught (KeyError "None of ['SiteID'] are in the columns")
      | Ok final_df => Returned final_df
      end
  end.

(** The sites the quantifier processes: those left by the annotation filters. *)
Definition processed_sites (filter_redip_status filter_func_region : option string)
  (phase3_df : list site) : list site :=
  annotation_filter filter_func_region Functional_Region
    (annotation_filter filter_redip_status REDIPortal_Status phase3_df).

End Quantifier.

End Phase4.

(** * Phase 3: per-individual aggregation and two-tool consensus *)

Module Phase3.

(** A cell of a raw call table. *)
Inductive cell : Type :=
| CStr (s : string)
| CInt (z : Z)
| CNum (q : Q)
| CNA.

(** A DataFrame row as [iterrows] hands it over: column label to cell. *)
Definition row := list (string * cell).

Definition frame := list row.

(** [row[label]]. *)
Fixpoint row_get (r : row) (label : string) : result cell :=
  match r with
  | [] => Raise (KeyError label)
  | (l, c) :: t => if String.eqb l label then Ok c else row_get t label
  end.

(** [df.rename(columns=mapping)]. *)
Definition rename (mapping : list (string * string)) (df : frame) : frame :=
  map (map (fun lc =>
    match find (fun m => String.eqb (fst m) (fst lc)) mapping with
    | Some m => (snd m, snd lc)
    | None => lc
    end)) df.

Inductive tool : Type := REDML | REDItools.

Definition tool_eqb (a b : tool) : bool :=
  match a, b with
  | REDML, REDML | REDItools, REDItools => true
  | _, _ => false
  end.

(** A row of [raw_df]. *)
Record raw_entry := {
  SiteID : string;
  CellType : string;
  Tool : tool;
  EditLevel : Q
}.

(** One substitution of an [AllSubs] cell, kept when it reads [X>Y]. *)
Definition substitution_alt (sub : string) : option string :=
  match sub with
  | String _ (String ">" (String alt EmptyString)) => Some (String alt EmptyString)
  | _ => None
  end.

(** The appended dictionary: its entries are read from the row in order. *)
Definition exploded_entry (r : row) (alt : string) : result row :=
  chr <- row_get r "Chr" ;;
  pos <- row_get r "Pos" ;;
  reference <- row_get r "Reference" ;;
  frequency <- row_get r "Frequency" ;;
  Ok [("Chr", chr); ("Pos", pos); ("Reference", reference);
      ("Alt", CStr alt); ("EditLevel", frequency)].

Fixpoint explode_subs (r : row) (subs : list string) : result (list row) :=
  match subs with
  | [] => Ok []
  | sub :: rest =>
      match substitution_alt sub with
      | Some alt =>
          e <- exploded_entry r alt ;; es <- explode_subs r rest ;; Ok (e :: es)
      | None => explode_subs r rest
      end
  end.

Definition explode_row (r : row) : result (list row) :=
  allsubs <- row_get r "AllSubs" ;;
  match allsubs with
  | CStr s => if String.eqb s "-" then Ok [] else explode_subs r (split_on " " s)
  | CNA => Ok []
  | _ => Raise (ValueError "AllSubs is not a string")
  end.

(** [explode_reditools_substitutions]. *)
Definition explode_reditools_substitutions (df : frame) : result frame :=
  sub_data <- mapM explode_row df ;;
  Ok (rename [("Reference", "Ref")] (concat sub_data)).

Definition cell_number (c : cell) : result (option Q) :=
  match c with
  | CInt z => Ok (Some (inject_Z z))
  | CNum q => Ok (Some q)
  | CNA => Ok None
  | CStr _ => Raise (ValueError "not a number")
  end.

Definition cell_str (c : cell) : string :=
  match c with
  | CStr s => s
  | CInt z => string_of_Z z
  | _ => "nan"
  end.

Definition cell_is (c : cell) (s : string) : bool :=
  match c with
  | CStr s' => String.eqb s' s
  | _ => false
  end.

(** The RED-ML branch: [EditLevel = VariantReads / TotalReads.replace(0, NA)]
    and [dropna(subset=['EditLevel'])]. *)
Fixpoint redml_edit_levels (df : frame) : result frame :=
  match df with
  | [] => Ok []
  | r :: rest =>
      v <- (c <- row_get r "VariantReads" ;; cell_number c) ;;
      t <- (c <- row_get r "TotalReads" ;; cell_number c) ;;
      rest' <- redml_edit_levels rest ;;
      match v, t with
      | Some v, Some t =>
          if Qeq_bool t 0 then Ok rest'
          else Ok ((r ++ [("EditLevel", CNum (v / t)%Q)]) :: rest')
      | _, _ => Ok rest'
      end
  end.

(** The statements shared by both branches: the editing-level and canonical
    base-change filters, then the [SiteID], [CellType] and [Tool] columns. *)
Fixpoint standardize (min_edit_level : Q) (t : tool) (cell_type : string) (df : frame)
  : result (list raw_entry) :=
  match df with
  | [] => Ok []
  | r :: rest =>
      level <- (c <- row_get r "EditLevel" ;; cell_number c) ;;
      ref <- row_get r "Ref" ;;
      alt <- row_get r "Alt" ;;
      chr <- row_get r "Chr" ;;
      pos <- row_get r "Pos" ;;
      rest' <- standardize min_edit_level t cell_type rest ;;
      match level with
      | Some level =>
          if Qle_bool min_edit_level level
             && ((cell_is ref "A" && cell_is alt "G") || (cell_is ref "T" && cell_is alt "C"))
          then Ok ({| SiteID := cell_str chr ++ ":" ++ cell_str pos ++ ":"
                                ++ cell_str ref ++ ">" ++ cell_str alt;
                      CellType := cell_type; Tool := t; EditLevel := level |} :: rest')
          else Ok rest'
      | None => Ok rest'
      end
  end.

(** A raw call file found by [glob]: the tool and the cell type told by its
    name, and the table [pd.read_csv] returns for the columns asked. *)
Record raw_file := {
  basename : string;
  file_tool : tool;
  file_cell_type : string;
  read_csv : result frame
}.

(** The body of the per-file [try]; [None] stands for [continue]. *)
Definition process_file (min_edit_level : Q) (f : raw_file)
  : result (option (list raw_entry)) :=
  df <- read_csv f ;;
  match file_tool f with
  | REDML =>
      df <- redml_edit_levels df ;;
      entries <- standardize min_edit_level REDML (file_cell_type f) df ;;
      Ok (Some entries)
  | REDItools =>
      let df := rename [("Region", "Chr"); ("Position", "Pos")] df in
      df <- explode_reditools_substitutions
              (rename [("Reference", "Ref"); ("Frequency", "EditLevel")] df) ;;
      match df with
      | [] => Ok None
      | _ =>
          entries <- standardize min_edit_level REDItools (file_cell_type f) df ;;
          Ok (Some entries)
      end
  end.

Fixpoint load_files (min_edit_level : Q) (all_files : list raw_file)
  : list (list raw_entry) * list string :=
  match all_files with
  | [] => ([], [])
  | f :: rest =>
      let '(raw_df_list, log) := load_files min_edit_level rest in
      match process_file min_edit_level f with
      | Ok (Some entries) => (entries :: raw_df_list, log)
      | Ok None => (raw_df_list, log)
      | Raise e =>
          (raw_df_list,
           ("Warning: Failed to process file " ++ basename f ++ ": " ++ exn_str e)%string
           :: log)
      end
  end.

(** [load_and_aggregate_raw_calls]. *)
Definition load_and_aggregate_raw_calls (min_edit_level : Q) (all_files : list raw_file)
  : result (list raw_entry) * list string :=
  match all_files with
  | [] => (Raise (FileNotFoundError "No raw call files found"), [])
  | _ =>
      let '(raw_df_list, log) := load_files min_edit_level all_files in
      match raw_df_list with
      | [] => (Raise (ValueError "No valid data loaded after filtering"), log)
      | _ => (Ok (concat raw_df_list), log)
      end
  end.

(** [raw_df.groupby('SiteID')['Tool'].nunique()] at one site. *)
Definition ToolCount (raw_df : list raw_entry) (site : string) : nat :=
  let tools := map Tool (filter (fun e => String.eqb (SiteID e) site) raw_df) in
  (if existsb (tool_eqb REDML) tools then 1 else 0)
  + (if existsb (tool_eqb REDItools) tools then 1 else 0).

(** [raw_df[raw_df['SiteID'].isin(consensus_sites)]]. *)
Definition consensus_df (raw_df : list raw_entry) : list raw_entry :=
  filter (fun e => ToolCount raw_df (SiteID e) =? 2) raw_df.

Fixpoint has_duplicate_entries (df : list raw_entry) : bool :=
  match df with
  | [] => false
  | e :: t =>
      existsb (fun e' => String.eqb (SiteID e) (SiteID e')
                         && String.eqb (CellType e) (CellType e')) t
      || has_duplicate_entries t
  end.

(** The Site x CellType matrix after [fillna(0)]. *)
Record matrix := {
  cell_types : list string;
  sites : list (string * list Q)
}.

Definition matrix_cell (df : list raw_entry) (site cell_type : string) : Q :=
  match find (fun e => String.eqb (SiteID e) site && String.eqb (CellType e) cell_type) df with
  | Some e => EditLevel e
  | None => 0%Q
  end.

(** [df.pivot(index='SiteID', columns='CellType', values='EditLevel')] and
    [fillna(0)]: [pivot] refuses two rows for one (SiteID, CellType). *)
Definition pivot_fillna (df : list raw_entry) : result matrix :=
  if has_duplicate_entries df
  then Raise (ValueError "Index contains duplicate entries, cannot reshape")
  else
    let cols := sorted_keys String.compare (map CellType df) in
    Ok {| cell_types := cols;
          sites := map (fun s => (s, map (matrix_cell df s) cols))
                       (sorted_keys String.compare (map SiteID df)) |}.

Definition no_consensus_message : string :=
  "No consensus sites found for this individual. Skipping output.".

(** run_phase3_individual_processing_v5.py, [run_individual_processing], up
    to the quantification matrix; the annotation that follows appends
    columns to its rows. *)
Definition run_individual_processing (min_edit_level : Q) (all_files : list raw_file)
  : completion (option matrix) * list string :=
  match load_and_aggregate_raw_calls min_edit_level all_files with
  | (Raise e, log) => (Uncaught e, log)
  | (Ok raw_df, log) =>
      match consensus_df raw_df with
      | [] => (Returned None, log ++ [no_consensus_message])
      | df =>
          match pivot_fillna df with
          | Ok m => (Returned (Some m), log)
          | Raise e => (Uncaught e, log)
          end
      end
  end.

(** The script run as a program. *)
Definition main (min_edit_level : Q) (all_files : list raw_file) : process :=
  let '(c, log) := run_individual_processing min_edit_level all_files in
  main_block "Phase 3 Processing" log c.

End Phase3.

(** * Scenarios *)

(** Scenario B: four sites of gene APP in B cells whose medians over three
    individuals are 0.1, 0.3, 0.2 and again 0.3. *)
Definition scenario_B : list Phase5.pop_row :=
  [ {| Phase5.SiteID := "21:100:A>G"; Phase5.Phase3_Gene := "APP"; Phase5.CellType := "Bcell";
       Phase5.values := [Some (1 # 10); None; None] |};
    {| Phase5.SiteID := "21:200:A>G"; Phase5.Phase3_Gene := "APP"; Phase5.CellType := "Bcell";
       Phase5.values := [Some (2 # 10); Some (3 # 10); Some (4 # 10)] |};
    {| Phase5.SiteID := "21:300:A>G"; Phase5.Phase3_Gene := "APP"; Phase5.CellType := "Bcell";
       Phase5.values := [Some (2 # 10); None; None] |};
    {| Phase5.SiteID := "21:400:A>G"; Phase5.Phase3_Gene := "APP"; Phase5.CellType := "Bcell";
       Phase5.values := [Some (3 # 10); Some (3 # 10); Some (3 # 10)] |} ].

(** Scenario B with one more site, of gene SOD1, that no individual has a
    B-cell value for. *)
Definition scenario_B_and_unobserved_group : list Phase5.pop_row :=
  scenario_B ++
  [ {| Phase5.SiteID := "21:900:A>G"; Phase5.Phase3_Gene := "SOD1"; Phase5.CellType := "Bcell";
       Phase5.values := [None; None; None] |} ].

(** The Phase-4 matrices of three individuals that collate to that
    population matrix: every site has status PASS, and the B-cell editing
    ratio of the SOD1 site is masked in all three. *)
Definition scenario_B_file (individual : string) (ratios : list (option Q))
  : Phase5.input_file :=
  {| Phase5.file_path := (individual ++ "_final_editing_matrix_p4.tsv")%string;
     Phase5.individual_id := individual;
     Phase5.loaded :=
       Ok {| Phase5.p4_columns := ["Bcell_ER"];
             Phase5.p4_rows :=
               map (fun sv =>
                      {| Phase5.p4_SiteID := fst (fst sv);
                         Phase5.p4_GlobalFilterStatus := "PASS";
                         Phase5.p4_Phase3_Gene := snd (fst sv);
                         Phase5.p4_values := [snd sv] |})
                   (combine [("21:100:A>G", "APP"); ("21:200:A>G", "APP");
                             ("21:300:A>G", "APP"); ("21:400:A>G", "APP");
                             ("21:900:A>G", "SOD1")]
                            ratios) |} |}.

Definition scenario_B_files : list Phase5.input_file :=
  [ scenario_B_file "IND1" [Some (1 # 10); Some (2 # 10); Some (2 # 10); Some (3 # 10); None];
    scenario_B_file "IND2" [None; Some (3 # 10); None; Some (3 # 10); None];
    scenario_B_file "IND3" [None; Some (4 # 10); None; Some (3 # 10); None] ].

(** The mean of two values in exact arithmetic; it stands in for the
    binary64 mean where an example needs a concrete one. *)
Definition exact_mean2 (a b : Q) : Q := ((a + b) / 2)%Q.

(** A Phase-4 matrix of one individual with a single PASS site whose only
    editing ratio is masked (low coverage). *)
Definition all_missing_file : Phase5.input_file :=
  {| Phase5.file_path := "IND1_final_editing_matrix_p4.tsv";
     Phase5.individual_id := "IND1";
     Phase5.loaded :=
       Ok {| Phase5.p4_columns := ["Bcell_ER"; "Bcell_TR"];
             Phase5.p4_rows :=
               [ {| Phase5.p4_SiteID := "21:100:A>G";
                    Phase5.p4_GlobalFilterStatus := "PASS";
                    Phase5.p4_Phase3_Gene := "APP";
                    Phase5.p4_values := [None; Some 3%Q] |} ] |} |}.

(** An association result file that is not on disk. *)
Definition absent_result_file : Phase8.result_file :=
  {| Phase8.result_path := "chr1.txt.gz";
     Phase8.exists_on_disk := false;
     Phase8.parsed := Raise (FileNotFoundError "chr1.txt.gz") |}.

(** Two sites of a Phase-3 matrix; the germline VCF holds a heterozygous
    A>G call at the second one. *)
Definition site_pass : Phase4.site :=
  {| Phase4.site_id := "1:1000:A>G"; Phase4.Chr := "1"; Phase4.Pos := 1000;
     Phase4.Ref := "A"; Phase4.Alt := "G"; Phase4.Functional_Region := "UTR3";
     Phase4.Gene := "APP"; Phase4.REDIPortal_Status := "Known" |}.

Definition site_germline : Phase4.site :=
  {| Phase4.site_id := "1:2000:A>G"; Phase4.Chr := "1"; Phase4.Pos := 2000;
     Phase4.Ref := "A"; Phase4.Alt := "G"; Phase4.Functional_Region := "UTR3";
     Phase4.Gene := "APP"; Phase4.REDIPortal_Status := "Novel" |}.

Definition example_vcf (chrom : string) (pos : Z) : result (list Phase4.vcf_record) :=
  if (pos =? 2000)%Z
  then Ok [ {| Phase4.rec_ref := "A"; Phase4.rec_alts := ["G"];
               Phase4.rec_GT := Ok (0, 1)%Z |} ]
  else Ok [].

Definition example_junctions : result (list (string * list Z)) :=
  Ok [("1", [5000; 6000]%Z)].

Definition example_pileup (bam : string) (s : Phase4.site) : result (Z * Z) :=
  Ok (20, 5)%Z.

Definition example_bams : list (string * string) := [("scRNA_file_Bcell.bam", "Bcell")].

(** A feature whose best empirical p-value equals 0.05, and one at 0.07. *)
Definition borderline_row : Phase8.fastqtl_row :=
  {| Phase8.FeatureID := "APP__Bcell"; Phase8.SNP_ID := "rs1";
     Phase8.P_nominal := 1 # 1000; Phase8.SNP_distance := 1200;
     Phase8.P_beta := Some (5 # 100) |}.

Definition weaker_row : Phase8.fastqtl_row :=
  {| Phase8.FeatureID := "APP__Tcell"; Phase8.SNP_ID := "rs2";
     Phase8.P_nominal := 1 # 100; Phase8.SNP_distance := -300;
     Phase8.P_beta := Some (7 # 100) |}.

(** A feature for which FastQTL reports no p-value. *)
Definition unresolved_row : Phase8.fastqtl_row :=
  {| Phase8.FeatureID := "SOD1__Bcell"; Phase8.SNP_ID := "rs3";
     Phase8.P_nominal := 1 # 2; Phase8.SNP_distance := 40;
     Phase8.P_beta := None |}.

Definition borderline_file : Phase8.result_file :=
  {| Phase8.result_path := "chr1.txt.gz";
     Phase8.exists_on_disk := true;
     Phase8.parsed :=
       Ok [ {| Phase8.feature_id := "APP__Bcell"; Phase8.variant_id := "rs1";
               Phase8.p_empirical := Some (5 # 100) |} ] |}.

(** Phase-6 inputs: three individuals with a phenotype, covariates for two
    of them and for a fourth one. *)
Definition example_phenotype : Phase6Merge.frame (option Q) :=
  {| Phase6Merge.columns := ["APP__Bcell"];
     Phase6Merge.rows := [("IND_A", [Some (1 # 10)]); ("IND_B", [Some (3 # 10)]);
                          ("IND_C", [Some (2 # 10)])] |}.


Definition example_aei : Phase6Merge.frame (option Q) :=
  {| Phase6Merge.columns := ["AEI_Bcell"];
     Phase6Merge.rows := [("IND_A", [Some (1 # 100)]); ("IND_B", [Some (2 # 100)])] |}.

Definition example_pcs : Phase6Merge.frame (option Q) :=
  {| Phase6Merge.columns := ["PC1"];
     Phase6Merge.rows := [("IND_B", [Some 1%Q]); ("IND_D", [Some 2%Q])] |}.

(** Scenario A: the raw call files of one individual for B cells.  RED-ML
    reports 1:1000:A>G (5 of 10 reads) and 1:2000:A>G; REDItools reports
    1:1000:A>G at frequency 0.5. *)
Definition scenario_A_redml : Phase3.raw_file :=
  {| Phase3.basename := "IND1_Bcell_redml_raw.tsv";
     Phase3.file_tool := Phase3.REDML;
     Phase3.file_cell_type := "Bcell";
     Phase3.read_csv :=
       Ok [ [("Chr", Phase3.CStr "1"); ("Pos", Phase3.CInt 1000);
             ("Ref", Phase3.CStr "A"); ("Alt", Phase3.CStr "G");
             ("VariantReads", Phase3.CInt 5); ("TotalReads", Phase3.CInt 10)];
            [("Chr", Phase3.CStr "1"); ("Pos", Phase3.CInt 2000);
             ("Ref", Phase3.CStr "A"); ("Alt", Phase3.CStr "G");
             ("VariantReads", Phase3.CInt 5); ("TotalReads", Phase3.CInt 10)] ] |}.

Definition scenario_A_reditools : Phase3.raw_file :=
  {| Phase3.basename := "IND1_Bcell_reditools_raw.tsv";
     Phase3.file_tool := Phase3.REDItools;
     Phase3.file_cell_type := "Bcell";
     Phase3.read_csv :=
       Ok [ [("Region", Phase3.CStr "1"); ("Position", Phase3.CInt 1000);
             ("Reference", Phase3.CStr "A"); ("AllSubs", Phase3.CStr "A>G");
             ("Frequency", Phase3.CNum (1 # 2))] ] |}.

(** The table [raw_df] that Scenario A describes: both tools at
    1:1000:A>G, RED-ML alone at 1:2000:A>G. *)
Definition scenario_A_raw_df : list Phase3.raw_entry :=
  [ {| Phase3.SiteID := "1:1000:A>G"; Phase3.CellType := "Bcell";
       Phase3.Tool := Phase3.REDML; Phase3.EditLevel := 1 # 2 |};
    {| Phase3.SiteID := "1:1000:A>G"; Phase3.CellType := "Bcell";
       Phase3.Tool := Phase3.REDItools; Phase3.EditLevel := 1 # 2 |};
    {| Phase3.SiteID := "1:2000:A>G"; Phase3.CellType := "Bcell";
       Phase3.Tool := Phase3.REDML; Phase3.EditLevel := 1 # 2 |} ].

(** * Phase 3: annotation of the consensus matrix *)

Module Phase3Annotation.

(** [c in s] for a character. *)
Fixpoint has_char (c : ascii) (s : string) : bool :=
  match s with
  | EmptyString => false
  | String a s' => Ascii.eqb a c || has_char c s'
  end.

(** The key under which a site is looked up among the known sites,
    [x.split(':')[0] + ':' + x.split(':')[1]]; [None] stands for the
    IndexError of a site ID without a colon. *)
Definition known_site_key (x : string) : option string :=
  match split_on ":" x with
  | chr :: pos :: _ => Some (chr ++ ":" ++ pos)%string
  | _ => None
  end.

(** [KnownID] of a row of the REDIPortal BED file (chromosome, 0-based
    start): [Chr + ':' + str(Start + 1)]. *)
Definition KnownID (bed_row : string * Z) : string :=
  (fst bed_row ++ ":" ++ string_of_Z (snd bed_row + 1))%string.

Fixpoint known_site_keys (index : list string) : option (list string) :=
  match index with
  | [] => Some []
  | x :: rest =>
      match known_site_key x, known_site_keys rest with
      | Some k, Some ks => Some (k :: ks)
      | _, _ => None
      end
  end.

(** run_phase3_individual_processing_v5.py, [annotate_rediportal_status]:
    the [REDIPortal_Status] of every site of the index and the warning, if
    any.  Every failure inside the [try] leaves all sites Novel. *)
Definition annotate_rediportal_status (index : list string)
  (rediportal_bed : result (list (string * Z)))
  : list (string * string) * list string :=
  let novel := map (fun x => (x, "Novel")) index in
  match rediportal_bed with
  | Raise e => (novel, [("  Warning: Failed to load REDIPortal: " ++ exn_str e)%string])
  | Ok rediportal_sites =>
      let known_site_ids := map KnownID rediportal_sites in
      match known_site_keys index with
      | None => (novel, ["  Warning: Failed to load REDIPortal: list index out of range"])
      | Some keys =>
          (map (fun xk => (fst xk,
                           if existsb (String.eqb (snd xk)) known_site_ids
                           then "Known" else "Novel"))
               (combine index keys),
           [])
      end
  end.

(** A row of the GTF feature map. *)
Record gtf_feature := {
  gtf_Chr : string;
  gtf_Start : Z;
  gtf_End : Z;
  gtf_Feature : string;
  gtf_Gene : string
}.

Definition is_feature (label : string) (f : gtf_feature) : bool :=
  String.eqb (gtf_Feature f) label.

(** The features of the chromosome with [Start <= pos <= End]. *)
Definition overlapping_features (gtf_df : list gtf_feature) (chrom : string) (pos : Z)
  : list gtf_feature :=
  filter (fun f => (gtf_Start f <=? pos)%Z && (pos <=? gtf_End f)%Z)
         (filter (fun f => String.eqb (gtf_Chr f) chrom) gtf_df).

(** The body of the loop of [annotate_functional_region] for one site:
    its [Functional_Region] and [Gene]. *)
Definition functional_region (gtf_df : list gtf_feature) (chrom : string) (pos : Z)
  : string * string :=
  let overlapping := overlapping_features gtf_df chrom pos in
  match overlapping with
  | [] => ("Intergenic", "Intergenic")
  | first :: _ =>
      match filter (is_feature "CDS") overlapping with
      | cds :: _ => ("CDS", gtf_Gene cds)
      | [] =>
          let utr_features :=
            filter (fun f => is_feature "UTR5" f || is_feature "UTR3" f) overlapping in
          match utr_features with
          | _ :: _ =>
              let best_feature :=
                if existsb (is_feature "UTR3") utr_features then "UTR3" else "UTR5" in
              match filter (is_feature best_feature) utr_features with
              | utr_row :: _ => (best_feature, gtf_Gene utr_row)
              | [] => (best_feature, "Intergenic") (* never taken: [utr_features]
                                                      holds a row of [best_feature] *)
              end
          | [] =>
              match filter (is_feature "Exon") overlapping with
              | exon :: _ => ("Exon", gtf_Gene exon)
              | [] => (gtf_Feature first, gtf_Gene first)
              end
          end
      end
  end.

(** The [SiteID] of a call as [load_and_aggregate_raw_calls] builds it:
    [Chr + ':' + Pos.astype(str) + ':' + Ref + '>' + Alt]. *)
Definition SiteID (chr : string) (pos : Z) (ref alt : string) : string :=
  (chr ++ ":" ++ string_of_Z pos ++ ":" ++ ref ++ ">" ++ alt)%string.

Section FunctionalRegion.

(** Python's [int] on a string; [None] stands for its ValueError. *)
Variable int : string -> option Z.

(** The chromosome and position of a site, from [x.split(':')] and
    [astype(int)]; [None] when the position is missing or no integer. *)
Definition site_position (x : string) : option (string * Z) :=
  match split_on ":" x with
  | chr :: pos_str :: _ =>
      match int pos_str with
      | Some pos => Some (chr, pos)
      | None => None
      end
  | _ => None
  end.

(** The loop of [annotate_functional_region] over the converted positions. *)
Fixpoint site_annotations (index : list string) (gtf_df : list gtf_feature)
  : option (list (string * (string * string))) :=
  match index with
  | [] => Some []
  | x :: rest =>
      match site_position x, site_annotations rest gtf_df with
      | Some (chrom, pos), Some rest' =>
          Some ((x, functional_region gtf_df chrom pos) :: rest')
      | _, _ => None
      end
  end.

(** [annotate_functional_region] on the index of the matrix: the region and
    gene of every site.  The positions are converted for the whole table
    before the loop starts: [None] stands for the exception that escapes
    when one of them is missing or no integer, or when the table has no row
    at all (the frame of the split IDs then has no column [Pos_str]). *)
Definition annotate_functional_region (index : list string) (gtf_df : list gtf_feature)
  : option (list (string * (string * string))) :=
  match index with
  | [] => None
  | _ => site_annotations index gtf_df
  end.

End FunctionalRegion.

(** The priority the loop gives to the feature labels. *)
Definition region_priority (label : string) : nat :=
  if String.eqb label "CDS" then 4
  else if String.eqb label "UTR3" then 3
  else if String.eqb label "UTR5" then 2
  else if String.eqb label "Exon" then 1
  else 0.

End Phase3Annotation.

(** * Phase 6: per-gene normalisation across cell types *)

Module Phase6Run.

(** [s.replace(old, new)] for a non-empty [old]; [fuel] bounds the scan by
    the length of [s]. *)
Fixpoint str_replace_aux (fuel : nat) (old new s : string) : string :=
  match fuel with
  | O => s
  | S fuel' =>
      match s with
      | EmptyString => EmptyString
      | String a s' =>
          if str_prefix old s
          then (new ++ str_replace_aux fuel' old new (str_drop (String.length old) s))%string
          else String a (str_replace_aux fuel' old new s')
      end
  end.

Definition str_replace (old new s : string) : string :=
  str_replace_aux (String.length s) old new s.

(** The gene-level matrix of Phase 5: the name of the gene column, the names
    of the trait columns and, per gene, the trait cells after
    [pd.to_numeric(errors='coerce')]. *)
Record gene_matrix (A : Type) := {
  gene_col : string;
  trait_cols : list string;
  genes : list (string * list (option A))
}.

Arguments gene_col {A} g.
Arguments trait_cols {A} g.
Arguments genes {A} g.

(** [df[trait_cols].count(axis=1)]. *)
Definition Quantified_Samples_Count (row : string * list (option Q)) : Z :=
  Z.of_nat (length (dropna (snd row))).

Definition rename_INT (col : string) : string :=
  if str_endswith "_AvgER" col then str_replace "_AvgER" "_INT" col else col.

Definition no_genes_message : string :=
  "FATAL ERROR: No genes passed the minimum sample quantification filter.".

Section Run.

Variable V : Type.
Variable norm_ppf : Q -> V.

(** run_phase6_normalization.py, [run_phase6_normalization]. *)
Definition run_phase6_normalization (min_quantifiable_samples : Z)
  (input_matrix : string) (read : result (gene_matrix Q))
  : completion (gene_matrix V) * list string :=
  match read with
  | Raise e =>
      (SysExit 1,
       [("FATAL ERROR: Could not load input matrix " ++ input_matrix ++ ": "
         ++ exn_str e)%string])
  | Ok df =>
      let df_filtered :=
        filter (fun row => (min_quantifiable_samples <=? Quantified_Samples_Count row)%Z)
               (genes df) in
      match df_filtered with
      | [] => (SysExit 1, [no_genes_message])
      | _ =>
          (Returned
             {| gene_col := rename_INT (gene_col df);
                trait_cols := map rename_INT (trait_cols df);
                genes :=
                  map (fun row =>
                         (fst row,
                          RankNormalizer.inverse_normal_transformation norm_ppf (snd row)))
                      df_filtered |},
           [])
      end
  end.

End Run.

End Phase6Run.

(** A call as the loader sees it: chromosome, position, reference and
    alternate base; and its [SiteID]. *)
Definition call_SiteID (c : string * Z * string * string) : string :=
  let '(chr, pos, ref, alt) := c in Phase3Annotation.SiteID chr pos ref alt.

Definition call_Chr (c : string * Z * string * string) : string := fst (fst (fst c)).

Definition call_Pos (c : string * Z * string * string) : Z := snd (fst (fst c)).

(** A reader of decimal literals (an optional minus sign, then digits),
    standing in for [int] in the examples. *)
Definition decimal_int (s : string) : option Z :=
  option_map Z.of_int (NilZero.int_of_string s).

(** Three features around position 150 of chromosome 1, and two calls. *)
Definition example_gtf : list Phase3Annotation.gtf_feature :=
  [ {| Phase3Annotation.gtf_Chr := "1"; Phase3Annotation.gtf_Start := 100;
       Phase3Annotation.gtf_End := 200; Phase3Annotation.gtf_Feature := "Exon";
       Phase3Annotation.gtf_Gene := "APP" |};
    {| Phase3Annotation.gtf_Chr := "1"; Phase3Annotation.gtf_Start := 120;
       Phase3Annotation.gtf_End := 180; Phase3Annotation.gtf_Feature := "UTR3";
       Phase3Annotation.gtf_Gene := "APP" |};
    {| Phase3Annotation.gtf_Chr := "2"; Phase3Annotation.gtf_Start := 100;
       Phase3Annotation.gtf_End := 200; Phase3Annotation.gtf_Feature := "CDS";
       Phase3Annotation.gtf_Gene := "SOD1" |} ].

Definition example_calls : list (string * Z * string * string) :=
  [("1", 150%Z, "A", "G"); ("2", 999%Z, "T", "C")].

(** A gene-level matrix with two genes: one quantified in two cell types,
    one in a single cell type. *)
Definition example_gene_matrix : Phase6Run.gene_matrix Q :=
  {| Phase6Run.gene_col := "Gene";
     Phase6Run.trait_cols := ["Bcell_AvgER"; "Tcell_AvgER"; "NK_AvgER"];
     Phase6Run.genes := [("APP", [Some (1 # 10); Some (3 # 10); None]);
                         ("SOD1", [Some (2 # 10); None; None])] |}.

(** A raw table in which the two tools report one site in different cell
    types: the only shape of a consensus that [pivot] accepts. *)
Definition split_consensus_df : list Phase3.raw_entry :=
  [ {| Phase3.SiteID := "1:1000:A>G"; Phase3.CellType := "Bcell";
       Phase3.Tool := Phase3.REDML; Phase3.EditLevel := 1 # 2 |};
    {| Phase3.SiteID := "1:1000:A>G"; Phase3.CellType := "Tcell";
       Phase3.Tool := Phase3.REDItools; Phase3.EditLevel := 1 # 4 |} ].

(** A REDItools row as the tool writes it, with the coordinates renamed. *)
Definition example_reditools_row : Phase3.row :=
  [("Chr", Phase3.CStr "1"); ("Pos", Phase3.CInt 1000);
   ("Reference", Phase3.CStr "A"); ("AllSubs", Phase3.CStr "AG A>G A>C");
   ("Frequency", Phase3.CNum (1 # 2))].

(** The substitutions of an [AllSubs] cell that read [X>Y], in order. *)
Definition valid_substitutions (allsubs : string) : list string :=
  flat_map (fun sub => match Phase3.substitution_alt sub with
                       | Some alt => [alt]
                       | None => []
                       end)
           (split_on " " allsubs).

(** Whether the body of the per-file [try] of the collation goes through. *)
Definition readable (f : Phase5.input_file) : bool :=
  match Phase5.loaded f with
  | Ok _ => true
  | Raise _ => false
  end.

(** The WARNING line of a file the collation gives up. *)
Definition skip_warning (f : Phase5.input_file) : list string :=
  match Phase5.loaded f with
  | Ok _ => []
  | Raise e => [("WARNING: Skipping file " ++ Phase5.file_path f ++ " due to error: "
                 ++ exn_str e)%string]
  end.

(** A Phase-4 matrix of a second individual with the site of
    [all_missing_file] quantified, and a file that cannot be read. *)
Definition quantified_file : Phase5.input_file :=
  {| Phase5.file_path := "IND2_final_editing_matrix_p4.tsv";
     Phase5.individual_id := "IND2";
     Phase5.loaded :=
       Ok {| Phase5.p4_columns := ["Bcell_ER"; "Bcell_TR"];
             Phase5.p4_rows :=
               [ {| Phase5.p4_SiteID := "21:100:A>G";
                    Phase5.p4_GlobalFilterStatus := "PASS";
                    Phase5.p4_Phase3_Gene := "APP";
                    Phase5.p4_values := [Some (1 # 4); Some 20%Q] |} ] |} |}.

Definition unreadable_file : Phase5.input_file :=
  {| Phase5.file_path := "IND3_final_editing_matrix_p4.tsv";
     Phase5.individual_id := "IND3";
     Phase5.loaded := Raise (KeyError "GlobalFilterStatus") |}.

(** Two association result files: three tests of two features, one of them
    without an empirical p-value. *)
Definition example_result_files : list Phase8.result_file :=
  [ {| Phase8.result_path := "chr1.txt.gz";
       Phase8.exists_on_disk := true;
       Phase8.parsed :=
         Ok [ {| Phase8.feature_id := "APP__Bcell"; Phase8.variant_id := "rs1";
                 Phase8.p_empirical := Some (1 # 100) |};
              {| Phase8.feature_id := "APP__Bcell"; Phase8.variant_id := "rs2";
                 Phase8.p_empirical := Some (1 # 1000) |};
              {| Phase8.feature_id := "SOD1__Tcell"; Phase8.variant_id := "rs3";
                 Phase8.p_empirical := None |} ] |};
    {| Phase8.result_path := "chr2.txt.gz";
       Phase8.exists_on_disk := true;
       Phase8.parsed :=
         Ok [ {| Phase8.feature_id := "SOD1__Tcell"; Phase8.variant_id := "rs4";
                 Phase8.p_empirical := Some (9 # 10) |} ] |} ].

(** The columns of the full corrected table that are read from the result
    files: feature, variant and empirical p-value. *)
Definition fdr_input_columns (r : Phase8.fdr_row) : string * string * Q :=
  (Phase8.fdr_feature_id r, Phase8.fdr_variant_id r, Phase8.fdr_p_empirical r).

Definition loaded_input_columns (x : Phase8.pvalue_row * string * Q)
  : string * string * Q :=
  (Phase8.feature_id (fst (fst x)), Phase8.variant_id (fst (fst x)), snd x).

(** * Properties *)

(** ** Rationals and lists *)

Lemma Qltb_iff (x y : Q) : Qltb x y = true <-> (x < y)%Q.
Proof.
  unfold Qltb. rewrite negb_true_iff, <- not_true_iff_false, Qle_bool_iff.
  split; intro H.
  - now apply Qnot_le_lt.
  - now apply Qlt_not_le.
Qed.

Lemma Qltb_false_iff (x y : Q) : Qltb x y = false <-> (y <= x)%Q.
Proof.
  unfold Qltb. rewrite negb_false_iff. apply Qle_bool_iff.
Qed.

Lemma inject_nat_le (a b : nat) : a <= b -> (inject_Z (Z.of_nat a) <= inject_Z (Z.of_nat b))%Q.
Proof. intro H. rewrite <- Zle_Qle. lia. Qed.

Lemma inject_nat_lt (a b : nat) : a < b -> (inject_Z (Z.of_nat a) < inject_Z (Z.of_nat b))%Q.
Proof. intro H. rewrite <- Zlt_Qlt. lia. Qed.

Lemma inject_nat_plus (a b : nat) :
  (inject_Z (Z.of_nat (a + b)) == inject_Z (Z.of_nat a) + inject_Z (Z.of_nat b))%Q.
Proof. rewrite Nat2Z.inj_add, inject_Z_plus. reflexivity. Qed.

Lemma dropna_map_Some {A : Type} (l : list A) : dropna (map Some l) = l.
Proof. induction l as [|x l IH]; simpl; congruence. Qed.

Lemma dropna_option_map {A B : Type} (f : A -> B) (s : list (option A)) :
  dropna (map (option_map f) s) = map f (dropna s).
Proof.
  induction s as [|[x|] s IH]; simpl; congruence.
Qed.

Lemma dropna_length_le {A : Type} (s : list (option A)) : length (dropna s) <= length s.
Proof. induction s as [|[x|] s IH]; simpl; lia. Qed.

Lemma In_dropna {A : Type} (s : list (option A)) (x : A) : In x (dropna s) <-> In (Some x) s.
Proof.
  induction s as [|[y|] s IH]; simpl.
  - tauto.
  - rewrite IH. split; intros [H|H]; auto; left; congruence.
  - rewrite IH. split; [auto | intros [H|H]; [discriminate | auto]].
Qed.

(** ** Rank Normalizer *)

Module RankNormalizerFacts.

Import RankNormalizer.

Lemma update_nan_series_map {A V : Type} (f : A -> V) (s : list (option A)) :
  update_nan_series s (map f (dropna s)) = map (option_map f) s.
Proof.
  induction s as [|[x|] s IH]; simpl; [reflexivity | |]; now rewrite IH.
Qed.

(** The two-step construction of [inverse_normal_transformation] is a map
    over the positions of the series. *)
Lemma inverse_normal_transformation_map {V : Type} (norm_ppf : Q -> V) (s : series) :
  inverse_normal_transformation norm_ppf s =
  if length (dropna s) <? 2 then map (fun _ => None) s
  else map (option_map (fun x =>
              norm_ppf (percentile (length (dropna s)) (average_rank (dropna s) x)))) s.
Proof.
  unfold inverse_normal_transformation, series_rank.
  destruct (length (dropna s) <? 2); [reflexivity|].
  rewrite map_map.
  rewrite (map_ext _ (option_map (fun x => percentile (length (dropna s))
                                            (average_rank (dropna s) x)))).
  2:{ intros [x|]; reflexivity. }
  rewrite dropna_option_map, map_map.
  rewrite (update_nan_series_map
             (fun x => norm_ppf (percentile (length (dropna s)) (average_rank (dropna s) x)))).
  reflexivity.
Qed.

Lemma existsb_is_nan_Some {A : Type} (l : list A) : existsb is_nan (map Some l) = false.
Proof. induction l as [|x l IH]; simpl; auto. Qed.

(** On a fully observed series [inverse_normal_transform] is a map too. *)
Lemma inverse_normal_transform_observed {V : Type} (ndtr : Q -> V) (xs : list Q) :
  inverse_normal_transform ndtr (map Some xs) =
  map (fun x => Some (ndtr (percentile (length xs) (average_rank xs x)))) xs.
Proof.
  unfold inverse_normal_transform, rankdata.
  rewrite existsb_is_nan_Some, dropna_map_Some, !map_map, length_map.
  reflexivity.
Qed.

(** *** Counting below and at a value *)

Lemma count_lt_eq_le_length (vals : list Q) (x : Q) :
  count_lt vals x + count_eq vals x <= length vals.
Proof.
  unfold count_lt, count_eq.
  induction vals as [|y vals IH]; simpl; [lia|].
  destruct (Qltb y x) eqn:Hlt, (Qeq_bool y x) eqn:Heq; simpl; try lia.
  apply Qltb_iff in Hlt. apply Qeq_bool_iff in Heq.
  rewrite Heq in Hlt. exfalso. exact (Qlt_irrefl _ Hlt).
Qed.

Lemma count_below_lt (vals : list Q) (x y : Q) :
  (x < y)%Q -> count_lt vals x + count_eq vals x <= count_lt vals y.
Proof.
  intro Hxy. unfold count_lt, count_eq.
  induction vals as [|z vals IH]; simpl; [lia|].
  destruct (Qltb z x) eqn:Hzx, (Qeq_bool z x) eqn:Hze, (Qltb z y) eqn:Hzy; simpl; try lia.
  - apply Qltb_iff in Hzx. apply Qeq_bool_iff in Hze.
    rewrite Hze in Hzx. exfalso. exact (Qlt_irrefl _ Hzx).
  - apply Qltb_iff in Hzx. apply Qeq_bool_iff in Hze.
    rewrite Hze in Hzx. exfalso. exact (Qlt_irrefl _ Hzx).
  - apply Qltb_iff in Hzx. apply Qltb_false_iff in Hzy.
    exfalso. apply (Qlt_irrefl z). apply Qlt_le_trans with y; [|exact Hzy].
    apply Qlt_trans with x; assumption.
  - apply Qeq_bool_iff in Hze. apply Qltb_false_iff in Hzy.
    exfalso. apply (Qlt_irrefl y). apply Qle_lt_trans with z; [exact Hzy|].
    rewrite Hze. exact Hxy.
Qed.

Lemma count_eq_pos (vals : list Q) (x : Q) : In x vals -> 1 <= count_eq vals x.
Proof.
  unfold count_eq. induction vals as [|y vals IH]; simpl; [tauto|].
  intros [->|H].
  - rewrite (Qeq_eq_bool x x (Qeq_refl x)). simpl. lia.
  - specialize (IH H). destruct (Qeq_bool y x); simpl; lia.
Qed.

Lemma count_lt_Qeq (vals : list Q) (x y : Q) : (x == y)%Q -> count_lt vals x = count_lt vals y.
Proof.
  intro H. unfold count_lt. f_equal. apply filter_ext. intro z.
  apply eq_true_iff_eq. rewrite !Qltb_iff, H. tauto.
Qed.

Lemma count_eq_Qeq (vals : list Q) (x y : Q) : (x == y)%Q -> count_eq vals x = count_eq vals y.
Proof.
  intro H. unfold count_eq. f_equal. apply filter_ext. intro z.
  apply eq_true_iff_eq. rewrite !Qeq_bool_iff, H. tauto.
Qed.

(** Equal values share one rank. *)
Lemma average_rank_Qeq (vals : list Q) (x y : Q) :
  (x == y)%Q -> average_rank vals x = average_rank vals y.
Proof.
  intro H. unfold average_rank.
  now rewrite (count_lt_Qeq vals H), (count_eq_Qeq vals H).
Qed.

(** A smaller value has a strictly smaller rank. *)
Lemma average_rank_lt (vals : list Q) (x y : Q) :
  In x vals -> (x < y)%Q -> (average_rank vals x < average_rank vals y)%Q.
Proof.
  intros Hin Hxy. unfold average_rank.
  pose proof (count_below_lt vals Hxy) as Hc.
  pose proof (count_eq_pos vals x Hin) as Hp.
  apply inject_nat_le in Hc. rewrite inject_nat_plus in Hc.
  apply inject_nat_le in Hp. simpl (inject_Z (Z.of_nat 1)) in Hp.
  assert (H0 : (0 <= inject_Z (Z.of_nat (count_eq vals y)))%Q).
  { change 0%Q with (inject_Z (Z.of_nat 0)). apply inject_nat_le. lia. }
  set (a := inject_Z (Z.of_nat (count_lt vals x))) in *.
  set (b := inject_Z (Z.of_nat (count_eq vals x))) in *.
  set (c := inject_Z (Z.of_nat (count_lt vals y))) in *.
  set (d := inject_Z (Z.of_nat (count_eq vals y))) in *.
  unfold Qdiv. change (/ 2)%Q with (1 # 2)%Q.
  change (inject_Z 1) with 1%Q in Hp.
  lra.
Qed.

(** Every rank lies between 1 and the number of observed values. *)
Lemma average_rank_bounds (vals : list Q) (x : Q) :
  In x vals ->
  (1 <= average_rank vals x)%Q /\ (average_rank vals x <= inject_Z (Z.of_nat (length vals)))%Q.
Proof.
  intro Hin. unfold average_rank.
  pose proof (count_eq_pos vals x Hin) as Hp.
  pose proof (count_lt_eq_le_length vals x) as Hl.
  apply inject_nat_le in Hl. rewrite inject_nat_plus in Hl.
  apply inject_nat_le in Hp. simpl (inject_Z (Z.of_nat 1)) in Hp.
  assert (H0 : (0 <= inject_Z (Z.of_nat (count_lt vals x)))%Q).
  { change 0%Q with (inject_Z (Z.of_nat 0)). apply inject_nat_le. lia. }
  set (a := inject_Z (Z.of_nat (count_lt vals x))) in *.
  set (b := inject_Z (Z.of_nat (count_eq vals x))) in *.
  set (n := inject_Z (Z.of_nat (length vals))) in *.
  unfold Qdiv. change (/ 2)%Q with (1 # 2)%Q.
  change (inject_Z 1) with 1%Q in Hp.
  split; lra.
Qed.

Lemma percentile_value (n : nat) (r : Q) :
  (percentile n r == (r - (1 # 2)) / inject_Z (Z.of_nat n))%Q.
Proof. unfold percentile. apply Qred_correct. Qed.

Lemma percentile_lt (n : nat) (r1 r2 : Q) :
  0 < n -> (r1 < r2)%Q -> (percentile n r1 < percentile n r2)%Q.
Proof.
  intros Hn Hr. rewrite !percentile_value.
  assert (Hpos : (0 < inject_Z (Z.of_nat n))%Q).
  { change 0%Q with (inject_Z (Z.of_nat 0)). now apply inject_nat_lt. }
  unfold Qdiv. apply Qmult_lt_compat_r.
  - now apply Qinv_lt_0_compat.
  - lra.
Qed.

(** The percentile of a rank is a probability strictly between 0 and 1, so
    the quantile function is finite there. *)
Lemma percentile_in_unit_interval (vals : list Q) (x : Q) :
  In x vals ->
  (0 < percentile (length vals) (average_rank vals x) < 1)%Q.
Proof.
  intro Hin. destruct (average_rank_bounds vals x Hin) as [Hlo Hhi].
  assert (Hn : 0 < length vals) by (destruct vals; simpl in *; [tauto | lia]).
  assert (Hpos : (0 < inject_Z (Z.of_nat (length vals)))%Q).
  { change 0%Q with (inject_Z (Z.of_nat 0)). now apply inject_nat_lt. }
  rewrite percentile_value. split.
  - apply Qlt_shift_div_l; [exact Hpos | lra].
  - apply Qlt_shift_div_r; [exact Hpos | lra].
Qed.

End RankNormalizerFacts.

Section RankNormalizerClaims.

Import RankNormalizer RankNormalizerFacts.

Variable V : Type.
Variable norm_ppf : Q -> V.
Variable ndtr : Q -> V.

(** What [inverse_normal_transformation] computes at an observed position:
    the quantile function at the percentile [(r - 0.5) / n] of the average
    rank [r], [n] being the number of observed values; that percentile is a
    probability strictly between 0 and 1. *)
Lemma inverse_normal_transformation_quantile (s : series) (i : nat) (x : Q) :
  2 <= length (dropna s) ->
  nth_error s i = Some (Some x) ->
  nth_error (inverse_normal_transformation norm_ppf s) i =
    Some (Some (norm_ppf (percentile (length (dropna s)) (average_rank (dropna s) x))))
  /\ (percentile (length (dropna s)) (average_rank (dropna s) x)
      == (average_rank (dropna s) x - (1 # 2)) / inject_Z (Z.of_nat (length (dropna s))))%Q
  /\ (0 < percentile (length (dropna s)) (average_rank (dropna s) x) < 1)%Q.
Proof.
  intros HN Hi. rewrite inverse_normal_transformation_map.
  destruct (Nat.ltb_spec (length (dropna s)) 2) as [Hlt|_]; [lia|].
  split; [|split].
  - erewrite map_nth_error by exact Hi. reflexivity.
  - apply percentile_value.
  - apply percentile_in_unit_interval. apply In_dropna.
    eapply nth_error_In; exact Hi.
Qed.

(** C1 (the code departs from the claim): on the fully observed input
    [0.1, 0.2] both values have percentiles 1/4 and 3/4;
    [inverse_normal_transform] of normalize_and_covariate_phase6_v2.py
    returns the distribution function [ndtr] at these percentiles, whatever
    the quantile function is, while [inverse_normal_transformation] of
    run_phase6_normalization.py returns the quantile function there. *)
Theorem inverse_normal_transform_applies_ndtr :
  inverse_normal_transform ndtr [Some (1 # 10); Some (2 # 10)]
    = [Some (ndtr (1 # 4)); Some (ndtr (3 # 4))]
  /\ inverse_normal_transformation norm_ppf [Some (1 # 10); Some (2 # 10)]
    = [Some (norm_ppf (1 # 4)); Some (norm_ppf (3 # 4))].
Proof. split; reflexivity. Qed.

(** The missing-value contract holds of [inverse_normal_transformation]:
    the length is kept, a missing entry stays missing, an observed entry
    stays observed when at least two values are observed, and everything is
    missing otherwise. *)
Lemma inverse_normal_transformation_missing (s : series) :
  let out := inverse_normal_transformation norm_ppf s in
  length out = length s
  /\ (forall i, nth_error s i = Some None -> nth_error out i = Some None)
  /\ (2 <= length (dropna s) ->
      forall i x, nth_error s i = Some (Some x) ->
                  exists v, nth_error out i = Some (Some v))
  /\ (length (dropna s) < 2 -> forall o, In o out -> o = None).
Proof.
  cbv zeta. rewrite inverse_normal_transformation_map.
  destruct (Nat.ltb_spec (length (dropna s)) 2) as [Hlt|Hge].
  - repeat split.
    + apply length_map.
    + intros i Hi. erewrite map_nth_error by exact Hi. reflexivity.
    + lia.
    + intros _ o Ho. apply in_map_iff in Ho. destruct Ho as [? [? _]]. congruence.
  - repeat split.
    + apply length_map.
    + intros i Hi. erewrite map_nth_error by exact Hi. reflexivity.
    + intros _ i x Hi. eexists. erewrite map_nth_error by exact Hi. reflexivity.
    + lia.
Qed.

(** C3 (the code departs from the claim): a feature with a single observed
    value, [0.3], has fewer than two observed values;
    [inverse_normal_transform] of normalize_and_covariate_phase6_v2.py
    returns the observed value [ndtr 0.5] for it, where
    [inverse_normal_transformation] of run_phase6_normalization.py returns
    the missing value. *)
Theorem inverse_normal_transform_single_value_not_missing :
  inverse_normal_transform ndtr [Some (3 # 10)] = [Some (ndtr (1 # 2))]
  /\ inverse_normal_transformation norm_ppf [Some (3 # 10)] = [None].
Proof. split; reflexivity. Qed.

Variable Vlt : V -> V -> Prop.

Lemma rank_order_preserving_map (g : Q -> V) (xs : list Q) :
  (forall v, ~ Vlt v v) ->
  (forall x y, In x xs -> In y xs -> (x < y)%Q -> Vlt (g x) (g y)) ->
  (forall x y, (x == y)%Q -> g x = g y) ->
  rank_order_preserving Vlt xs (map (fun x => Some (g x)) xs).
Proof.
  intros Hirr Hlt Heq. split; [apply length_map|].
  intros i j xi xj Hi Hj.
  pose proof (nth_error_In _ _ Hi) as Ini.
  pose proof (nth_error_In _ _ Hj) as Inj.
  rewrite (map_nth_error (fun x => Some (g x)) _ _ Hi).
  rewrite (map_nth_error (fun x => Some (g x)) _ _ Hj).
  split; [|split].
  - intro H. exists (g xi), (g xj). auto.
  - intro H. now rewrite (Heq _ _ H).
  - intros Hne Habs. injection Habs as Habs.
    destruct (Qcompare_spec xi xj) as [He|Hl|Hl].
    + contradiction.
    + apply (Hirr (g xj)). rewrite <- Habs at 1. now apply Hlt.
    + apply (Hirr (g xj)). rewrite <- Habs at 2. now apply Hlt.
Qed.

Lemma rank_order_preserving_degenerate (xs : list Q) :
  length xs < 2 ->
  rank_order_preserving Vlt xs (map (fun _ => @None V) (map Some xs)).
Proof.
  intro Hlen. split; [now rewrite !length_map|].
  intros i j xi xj Hi Hj.
  assert (i = 0 /\ j = 0) as [-> ->].
  { pose proof (proj1 (nth_error_Some xs i) ltac:(congruence)).
    pose proof (proj1 (nth_error_Some xs j) ltac:(congruence)). lia. }
  assert (xi = xj) as -> by congruence.
  split; [|split].
  - intro H. exfalso. exact (Qlt_irrefl _ H).
  - reflexivity.
  - intro H. exfalso. apply H. reflexivity.
Qed.

Hypothesis Vlt_irrefl : forall v, ~ Vlt v v.
Hypothesis norm_ppf_increasing :
  forall p q, (0 < p)%Q -> (p < q)%Q -> (q < 1)%Q -> Vlt (norm_ppf p) (norm_ppf q).
Hypothesis ndtr_increasing :
  forall p q, (0 < p)%Q -> (p < q)%Q -> (q < 1)%Q -> Vlt (ndtr p) (ndtr q).

Lemma transformed_rank_increasing (f : Q -> V) (xs : list Q) :
  (forall p q, (0 < p)%Q -> (p < q)%Q -> (q < 1)%Q -> Vlt (f p) (f q)) ->
  forall x y, In x xs -> In y xs -> (x < y)%Q ->
    Vlt (f (percentile (length xs) (average_rank xs x)))
        (f (percentile (length xs) (average_rank xs y))).
Proof.
  intros Hf x y Hx Hy Hxy.
  apply Hf.
  - apply (percentile_in_unit_interval xs x Hx).
  - apply percentile_lt.
    + destruct xs; simpl in *; [tauto | lia].
    + now apply average_rank_lt.
  - apply (percentile_in_unit_interval xs y Hy).
Qed.

(** C9: for a fully observed input both normalizers preserve the rank
    order, provided the function they apply to the percentiles is strictly
    increasing on the open unit interval (as the normal quantile and
    distribution functions are): a smaller input gets a smaller output,
    equal inputs get identical outputs, distinct inputs distinct outputs, and
    the length is kept. *)
Theorem rank_normalizer_preserves_rank_order (xs : list Q) :
  rank_order_preserving Vlt xs (inverse_normal_transformation norm_ppf (map Some xs))
  /\ rank_order_preserving Vlt xs (inverse_normal_transform ndtr (map Some xs)).
Proof.
  split.
  - rewrite inverse_normal_transformation_map, dropna_map_Some.
    destruct (Nat.ltb_spec (length xs) 2) as [Hlt|Hge].
    + now apply rank_order_preserving_degenerate.
    + rewrite map_map. simpl.
      apply (rank_order_preserving_map
               (fun x => norm_ppf (percentile (length xs) (average_rank xs x)))).
      * exact Vlt_irrefl.
      * apply transformed_rank_increasing. exact norm_ppf_increasing.
      * intros x y H. now rewrite (average_rank_Qeq xs H).
  - rewrite inverse_normal_transform_observed.
    apply (rank_order_preserving_map
             (fun x => ndtr (percentile (length xs) (average_rank xs x)))).
    + exact Vlt_irrefl.
    + apply transformed_rank_increasing. exact ndtr_increasing.
    + intros x y H. now rewrite (average_rank_Qeq xs H).
Qed.

End RankNormalizerClaims.

(** The hypotheses of the rank-order theorem are met by any pair of strictly
    increasing functions on the rationals; here two affine ones, inverse to
    each other, on the input [0.3, 0.1, 0.3, 0.7]. *)
Lemma rank_normalizer_preserves_rank_order_witness :
  RankNormalizer.rank_order_preserving Qlt [3 # 10; 1 # 10; 3 # 10; 7 # 10]
    (RankNormalizer.inverse_normal_transformation (fun p => 4 * p - 2)%Q
       (map Some [3 # 10; 1 # 10; 3 # 10; 7 # 10]))
  /\ RankNormalizer.rank_order_preserving Qlt [3 # 10; 1 # 10; 3 # 10; 7 # 10]
    (RankNormalizer.inverse_normal_transform (fun x => x / 4 + (1 # 2))%Q
       (map Some [3 # 10; 1 # 10; 3 # 10; 7 # 10])).
Proof.
  apply (@rank_normalizer_preserves_rank_order Q
           (fun p => 4 * p - 2)%Q (fun x => x / 4 + (1 # 2))%Q Qlt).
  - intros v H. exact (Qlt_irrefl v H).
  - intros p q _ H _. lra.
  - intros p q _ H _. unfold Qdiv. change (/ 4)%Q with (1 # 4)%Q. lra.
Defined.

(** ** Sorted group keys *)

Section SortedKeys.

Variable K : Type.
Variable cmp : K -> K -> comparison.
Hypothesis cmp_eq : forall a b, cmp a b = Eq <-> a = b.
Hypothesis cmp_antisym : forall a b, cmp a b = CompOpp (cmp b a).
Hypothesis cmp_trans : forall a b c, cmp a b = Lt -> cmp b c = Lt -> cmp a c = Lt.

Let klt (a b : K) : Prop := cmp a b = Lt.

Lemma In_insert_key (x k : K) (l : list K) :
  In x (insert_key cmp k l) <-> x = k \/ In x l.
Proof.
  induction l as [|h t IH]; simpl.
  - intuition.
  - destruct (cmp k h) eqn:E; simpl.
    + apply cmp_eq in E. subst. intuition.
    + intuition.
    + rewrite IH. intuition.
Qed.

Lemma In_sorted_keys (x : K) (ks : list K) : In x (sorted_keys cmp ks) <-> In x ks.
Proof.
  unfold sorted_keys. induction ks as [|k ks IH]; simpl.
  - tauto.
  - rewrite In_insert_key, IH. intuition.
Qed.

Lemma insert_key_sorted (k : K) (l : list K) :
  StronglySorted klt l -> StronglySorted klt (insert_key cmp k l).
Proof.
  induction 1 as [|h t Hs IH Hall]; simpl.
  - repeat constructor.
  - destruct (cmp k h) eqn:E.
    + now constructor.
    + constructor; [now constructor|].
      constructor; [exact E|].
      rewrite Forall_forall in *. intros y Hy. apply (cmp_trans E). now apply Hall.
    + constructor; [exact IH|].
      rewrite Forall_forall in *. intros y Hy.
      apply In_insert_key in Hy. destruct Hy as [->|Hy].
      * unfold klt. rewrite cmp_antisym, E. reflexivity.
      * now apply Hall.
Qed.

Lemma sorted_keys_sorted (ks : list K) : StronglySorted klt (sorted_keys cmp ks).
Proof.
  unfold sorted_keys. induction ks as [|k ks IH]; simpl.
  - constructor.
  - now apply insert_key_sorted.
Qed.

Lemma sorted_keys_NoDup (ks : list K) : NoDup (sorted_keys cmp ks).
Proof.
  pose proof (sorted_keys_sorted ks) as H.
  induction H as [|h t Hs IH Hall]; constructor; [|exact IH].
  intro Hin. rewrite Forall_forall in Hall. specialize (Hall h Hin).
  unfold klt in Hall. rewrite (proj2 (cmp_eq h h) eq_refl) in Hall. discriminate.
Qed.

End SortedKeys.

Lemma string_compare_trans (a b c : string) :
  String.compare a b = Lt -> String.compare b c = Lt -> String.compare a c = Lt.
Proof.
  intros H1 H2. apply String_as_OT.cmp_lt in H1. apply String_as_OT.cmp_lt in H2.
  apply String_as_OT.cmp_lt. eapply String_as_OT.lt_trans; eassumption.
Qed.

Lemma string_compare_eq (a b : string) : String.compare a b = Eq <-> a = b.
Proof. exact (String_as_OT.cmp_eq a b). Qed.

Lemma pair_compare_eq (a b : string * string) : pair_compare a b = Eq <-> a = b.
Proof.
  destruct a as [a1 a2], b as [b1 b2]. unfold pair_compare. simpl.
  destruct (String.compare a1 b1) eqn:E1.
  - apply string_compare_eq in E1. subst.
    rewrite string_compare_eq. split; intro H; [now subst | now inversion H].
  - split; [discriminate|]. intro H. inversion H. subst.
    rewrite (proj2 (string_compare_eq b1 b1) eq_refl) in E1. discriminate.
  - split; [discriminate|]. intro H. inversion H. subst.
    rewrite (proj2 (string_compare_eq b1 b1) eq_refl) in E1. discriminate.
Qed.

Lemma pair_compare_antisym (a b : string * string) :
  pair_compare a b = CompOpp (pair_compare b a).
Proof.
  destruct a as [a1 a2], b as [b1 b2]. unfold pair_compare. simpl.
  rewrite (String.compare_antisym b1 a1).
  destruct (String.compare a1 b1); simpl; auto.
  apply String.compare_antisym.
Qed.

Lemma pair_compare_trans (a b c : string * string) :
  pair_compare a b = Lt -> pair_compare b c = Lt -> pair_compare a c = Lt.
Proof.
  destruct a as [a1 a2], b as [b1 b2], c as [c1 c2]. unfold pair_compare. simpl.
  destruct (String.compare a1 b1) eqn:E1; try discriminate;
    destruct (String.compare b1 c1) eqn:E2; try discriminate; intros H1 H2.
  - apply string_compare_eq in E1, E2. subst.
    rewrite (proj2 (string_compare_eq c1 c1) eq_refl).
    eapply string_compare_trans; eassumption.
  - apply string_compare_eq in E1. subst. now rewrite E2.
  - apply string_compare_eq in E2. subst. now rewrite E1.
  - now rewrite (string_compare_trans _ _ _ E1 E2).
Qed.

Lemma pair_eqb_eq (a b : string * string) : pair_eqb a b = true <-> a = b.
Proof.
  destruct a, b. unfold pair_eqb. simpl.
  rewrite andb_true_iff, !String.eqb_eq. split; [intros []; congruence | intro H; inversion H; auto].
Qed.

(** ** The error monad *)

Lemma mapM_Forall2 {A B : Type} (f : A -> result B) (P : A -> B -> Prop) (l : list A) :
  (forall a, In a l -> exists b, f a = Ok b /\ P a b) ->
  exists bs, mapM f l = Ok bs /\ Forall2 P l bs.
Proof.
  induction l as [|a l IH]; intro H; simpl.
  - exists []. split; [reflexivity | constructor].
  - destruct (H a (or_introl eq_refl)) as [b [Hb Pb]].
    destruct IH as [bs [Hbs Fbs]]; [intros; apply H; now right|].
    exists (b :: bs). rewrite Hb, Hbs. simpl. split; [reflexivity | now constructor].
Qed.

Lemma mapM_Raise {A B : Type} (f : A -> result B) (l : list A) (a : A) :
  In a l -> (exists e, f a = Raise e) -> exists e, mapM f l = Raise e.
Proof.
  induction l as [|h l IH]; simpl; [tauto|].
  intros [->|Hin] Hr.
  - destruct Hr as [e He]. rewrite He. simpl. eauto.
  - destruct (f h); simpl; [|eauto].
    destruct (IH Hin Hr) as [e He]. rewrite He. simpl. eauto.
Qed.

(** ** Representative-site selection *)

Module Phase5Facts.

Import Phase5.

Lemma insert_sorted_length (x : Q) (l : list Q) : length (insert_sorted x l) = S (length l).
Proof.
  induction l as [|h t IH]; simpl; [reflexivity|].
  destruct (Qle_bool x h); simpl; [reflexivity | now rewrite IH].
Qed.

Lemma sort_values_length (l : list Q) : length (sort_values l) = length l.
Proof.
  unfold sort_values. induction l as [|x l IH]; simpl; [reflexivity|].
  now rewrite insert_sorted_length, IH.
Qed.

Lemma insert_sorted_perm (x : Q) (l : list Q) : Permutation (insert_sorted x l) (x :: l).
Proof.
  induction l as [|h t IH]; simpl; [reflexivity|].
  destruct (Qle_bool x h); [reflexivity|].
  rewrite IH. apply perm_swap.
Qed.

(** Sorting the observed values rearranges them. *)
Lemma sort_values_perm (l : list Q) : Permutation (sort_values l) l.
Proof.
  unfold sort_values. induction l as [|x l IH]; simpl; [reflexivity|].
  rewrite insert_sorted_perm. now constructor.
Qed.

Lemma insert_sorted_sorted (x : Q) (l : list Q) :
  StronglySorted Qle l -> StronglySorted Qle (insert_sorted x l).
Proof.
  induction 1 as [|h t Hs IH Hall]; simpl.
  - repeat constructor.
  - destruct (Qle_bool x h) eqn:E.
    + apply Qle_bool_iff in E. constructor; [now constructor|].
      constructor; [exact E|].
      rewrite Forall_forall in *. intros y Hy. apply Qle_trans with h; auto.
    + assert (Hhx : (h <= x)%Q).
      { apply Qlt_le_weak, Qnot_le_lt. intro Hle. apply Qle_bool_iff in Hle. congruence. }
      constructor; [exact IH|].
      rewrite Forall_forall in *. intros y Hy.
      apply (Permutation_in _ (insert_sorted_perm x t)) in Hy.
      destruct Hy as [<-|Hy]; auto.
Qed.

(** ... in ascending order. *)
Lemma sort_values_sorted (l : list Q) : StronglySorted Qle (sort_values l).
Proof.
  unfold sort_values. induction l as [|x l IH]; simpl; [constructor|].
  now apply insert_sorted_sorted.
Qed.

Section Median.

Variable mean2 : Q -> Q -> Q.

(** The median is defined exactly when some value is observed. *)
Lemma median_defined (vals : list (option Q)) :
  median mean2 vals <> None <-> 0 < length (dropna vals).
Proof.
  unfold median. rewrite sort_values_length.
  destruct (length (dropna vals)) as [|n] eqn:E; simpl.
  - split; [congruence | lia].
  - split; [lia|]. intros _. destruct (Nat.odd (S n)); discriminate.
Qed.

Lemma in_group_eqb (g : string * string) (r : pop_row) :
  pair_eqb (Phase3_Gene r, CellType r) g = true <-> in_group g r.
Proof.
  rewrite pair_eqb_eq. unfold in_group. destruct g as [g1 g2]. simpl.
  split; [intro H; inversion H; auto | intros [-> ->]; reflexivity].
Qed.

Section Groups.

Variable g : string * string.

Let labelled_medians (k : nat) (df : list pop_row) : list (nat * option Q) :=
  map (fun ir => (fst ir, Median_Raw_ER_Population mean2 (snd ir)))
      (filter (fun ir => pair_eqb (Phase3_Gene (snd ir), CellType (snd ir)) g)
              (combine (seq k (length df)) df)).

Lemma labelled_medians_cons (k : nat) (r0 : pop_row) (df : list pop_row) :
  labelled_medians k (r0 :: df) =
  if pair_eqb (Phase3_Gene r0, CellType r0) g
  then (k, Median_Raw_ER_Population mean2 r0) :: labelled_medians (S k) df
  else labelled_medians (S k) df.
Proof.
  unfold labelled_medians. simpl.
  destruct (pair_eqb (Phase3_Gene r0, CellType r0) g); reflexivity.
Qed.

(** [idxmax] finds nothing only if no row of the group has a median. *)
Lemma idxmax_None (df : list pop_row) :
  forall k, idxmax (labelled_medians k df) = None ->
  forall j r', nth_error df j = Some r' -> in_group g r' ->
               Median_Raw_ER_Population mean2 r' = None.
Proof.
  induction df as [|r0 df IH]; intros k H j r' Hj Hg.
  - destruct j; discriminate.
  - rewrite labelled_medians_cons in H.
    destruct (pair_eqb (Phase3_Gene r0, CellType r0) g) eqn:E.
    + simpl in H. destruct (Median_Raw_ER_Population mean2 r0) as [m0|] eqn:Em.
      * destruct (idxmax (labelled_medians (S k) df)) as [[j1 m1]|];
          [destruct (Qltb m0 m1)|]; discriminate.
      * destruct j as [|j]; simpl in Hj.
        -- injection Hj as <-. exact Em.
        -- eapply IH; eassumption.
    + destruct j as [|j]; simpl in Hj.
      * injection Hj as <-. apply in_group_eqb in Hg. congruence.
      * eapply IH; eassumption.
Qed.

(** What [idxmax] finds is the first row of the group with the largest
    defined median. *)
Lemma idxmax_Some (df : list pop_row) :
  forall k i m, idxmax (labelled_medians k df) = Some (i, m) ->
  k <= i /\
  exists r, nth_error df (i - k) = Some r /\ in_group g r /\
            Median_Raw_ER_Population mean2 r = Some m /\
            forall j r' m',
              nth_error df j = Some r' -> in_group g r' ->
              Median_Raw_ER_Population mean2 r' = Some m' ->
              (m' <= m)%Q /\ (k + j < i -> (m' < m)%Q).
Proof.
  induction df as [|r0 df IH]; intros k i m H.
  - discriminate.
  - rewrite labelled_medians_cons in H.
    assert (Hskip : idxmax (labelled_medians (S k) df) = Some (i, m) ->
                    (in_group g r0 -> forall m0, Median_Raw_ER_Population mean2 r0 = Some m0 ->
                                                 (m0 < m)%Q) ->
                    k <= i /\
                    exists r, nth_error (r0 :: df) (i - k) = Some r /\ in_group g r /\
                      Median_Raw_ER_Population mean2 r = Some m /\
                      forall j r' m',
                        nth_error (r0 :: df) j = Some r' -> in_group g r' ->
                        Median_Raw_ER_Population mean2 r' = Some m' ->
                        (m' <= m)%Q /\ (k + j < i -> (m' < m)%Q)).
    { intros Ht H0. destruct (IH _ _ _ Ht) as [Hle [r [Hr [Hg [Hm Hall]]]]].
      split; [lia|]. exists r.
      replace (i - k) with (S (i - S k)) by lia. simpl.
      split; [exact Hr|]. split; [exact Hg|]. split; [exact Hm|].
      intros j r' m' Hj Hg' Hm'.
      destruct j as [|j]; simpl in Hj.
      - injection Hj as <-. pose proof (H0 Hg' _ Hm') as Hlt.
        split; [now apply Qlt_le_weak | now intros _].
      - destruct (Hall j r' m' Hj Hg' Hm') as [Hle' Hlt'].
        split; [exact Hle'|]. intro Hk. apply Hlt'. lia. }
    assert (Hhead : forall m0, Median_Raw_ER_Population mean2 r0 = Some m0 ->
                    pair_eqb (Phase3_Gene r0, CellType r0) g = true ->
                    (forall j r' m',
                        nth_error df j = Some r' -> in_group g r' ->
                        Median_Raw_ER_Population mean2 r' = Some m' -> (m' <= m0)%Q) ->
                    k <= k /\
                    exists r, nth_error (r0 :: df) (k - k) = Some r /\ in_group g r /\
                      Median_Raw_ER_Population mean2 r = Some m0 /\
                      forall j r' m',
                        nth_error (r0 :: df) j = Some r' -> in_group g r' ->
                        Median_Raw_ER_Population mean2 r' = Some m' ->
                        (m' <= m0)%Q /\ (k + j < k -> (m' < m0)%Q)).
    { intros m0 Em E Hall. split; [lia|]. exists r0. rewrite Nat.sub_diag. simpl.
      split; [reflexivity|]. split; [now apply in_group_eqb|]. split; [exact Em|].
      intros j r' m' Hj Hg' Hm'. split; [|lia].
      destruct j as [|j]; simpl in Hj.
      - injection Hj as <-. rewrite Em in Hm'. injection Hm' as <-. apply Qle_refl.
      - eapply Hall; eassumption. }
    destruct (pair_eqb (Phase3_Gene r0, CellType r0) g) eqn:E.
    + simpl in H. destruct (Median_Raw_ER_Population mean2 r0) as [m0|] eqn:Em.
      * destruct (idxmax (labelled_medians (S k) df)) as [[j1 m1]|] eqn:Et.
        -- destruct (Qltb m0 m1) eqn:Hlt.
           ++ injection H as <- <-. apply Hskip; [reflexivity|].
              intros _ m0' Hm0'. injection Hm0' as <-. now apply Qltb_iff.
           ++ injection H as <- <-. apply Qltb_false_iff in Hlt.
              destruct (IH _ _ _ Et) as [_ [_ [_ [_ [_ Hall]]]]].
              apply Hhead; [reflexivity | reflexivity |].
              intros j r' m' Hj Hg' Hm'.
              apply Qle_trans with m1; [|exact Hlt].
              eapply Hall; eassumption.
        -- injection H as <- <-.
           apply Hhead; [reflexivity | reflexivity |].
           intros j r' m' Hj Hg' Hm'.
           rewrite (idxmax_None df (S k) Et j Hj Hg') in Hm'. discriminate.
      * apply Hskip; [exact H|]. intros _ m0 Hm0. congruence.
    + apply Hskip; [exact H|]. intros Hg. apply in_group_eqb in Hg. congruence.
Qed.

(** A group with a defined median gets its representative. *)
Lemma select_group_representative (df : list pop_row) :
  (exists r, In r df /\ in_group g r /\ Median_Raw_ER_Population mean2 r <> None) ->
  exists r, select_group mean2 df g = Ok r /\ representative mean2 df g r.
Proof.
  intros [r0 [Hin [Hg Hm]]].
  unfold select_group, group_medians, group_rows.
  change (map _ (filter _ (combine (seq 0 (length df)) df))) with (labelled_medians 0 df).
  destruct (idxmax (labelled_medians 0 df)) as [[i m]|] eqn:E.
  - destruct (idxmax_Some df 0 E) as [_ [r [Hr [Hgr [Hmr Hall]]]]].
    rewrite Nat.sub_0_r in Hr. rewrite Hr. exists r. split; [reflexivity|].
    exists i, m. split; [exact Hr|]. split; [exact Hgr|]. split; [exact Hmr|].
    intros j r' m' Hj Hg' Hm'. exact (Hall j r' m' Hj Hg' Hm').
  - apply In_nth_error in Hin. destruct Hin as [j Hj].
    exfalso. apply Hm. eapply idxmax_None; eassumption.
Qed.

(** A group without any defined median makes the selection raise. *)
Lemma select_group_all_missing (df : list pop_row) :
  (forall r, In r df -> in_group g r -> Median_Raw_ER_Population mean2 r = None) ->
  select_group mean2 df g = Raise (KeyError "[nan] not in index").
Proof.
  intro H. unfold select_group, group_medians, group_rows.
  change (map _ (filter _ (combine (seq 0 (length df)) df))) with (labelled_medians 0 df).
  destruct (idxmax (labelled_medians 0 df)) as [[i m]|] eqn:E; [|reflexivity].
  destruct (idxmax_Some df 0 E) as [_ [r [Hr [Hgr [Hmr _]]]]].
  apply nth_error_In in Hr. rewrite (H r Hr Hgr) in Hmr. discriminate.
Qed.

End Groups.

Lemma In_groups (df : list pop_row) (g : string * string) :
  In g (groups df) <-> exists r, In r df /\ in_group g r.
Proof.
  unfold groups. rewrite (In_sorted_keys pair_compare pair_compare_eq), in_map_iff.
  unfold in_group. destruct g as [g1 g2]. simpl. split.
  - intros [r [Hr Hin]]. exists r. inversion Hr. auto.
  - intros [r [Hin [<- <-]]]. exists r. auto.
Qed.

Lemma groups_NoDup (df : list pop_row) : NoDup (groups df).
Proof.
  apply (sorted_keys_NoDup pair_compare pair_compare_eq
           pair_compare_antisym pair_compare_trans).
Qed.

(** Selection succeeds when every group has a defined median, and then puts
    out the representatives of the groups, one per group, in group order. *)
Lemma feature_selection_representatives (df : list pop_row) :
  (forall g, In g (groups df) ->
             exists r, In r df /\ in_group g r /\ Median_Raw_ER_Population mean2 r <> None) ->
  exists reps, feature_selection mean2 df = Ok (map feature_row reps)
               /\ Forall2 (representative mean2 df) (groups df) reps.
Proof.
  intro H. unfold feature_selection.
  destruct (mapM_Forall2 (select_group mean2 df) (representative mean2 df) (groups df))
    as [reps [Hm HF]].
  - intros g Hg. apply select_group_representative. now apply H.
  - exists reps. rewrite Hm. simpl. auto.
Qed.

(** Selection raises as soon as one group has no defined median. *)
Lemma feature_selection_all_missing_group (df : list pop_row) (g : string * string) :
  In g (groups df) ->
  (forall r, In r df -> in_group g r -> Median_Raw_ER_Population mean2 r = None) ->
  exists e, feature_selection mean2 df = Raise e.
Proof.
  intros Hg H. unfold feature_selection.
  destruct (mapM_Raise (select_group mean2 df) (groups df) g Hg) as [e He].
  - eexists. now apply select_group_all_missing.
  - exists e. now rewrite He.
Qed.

Lemma sample_size_filter_In (MIN_SAMPLES : Z) (pm : list pop_row) (r : pop_row) :
  In r (sample_size_filter MIN_SAMPLES pm) <->
  In r pm /\ (MIN_SAMPLES <= sample_count r)%Z.
Proof.
  unfold sample_size_filter. rewrite filter_In, Z.leb_le. tauto.
Qed.

End Median.

End Phase5Facts.

Section SelectorClaims.

Import Phase5 Phase5Facts.

Variable mean2 : Q -> Q -> Q.

(** After the sample-size filter with a minimum of at least one sample,
    every remaining row has a defined median. *)
Lemma filtered_rows_have_median (MIN_SAMPLES : Z) (pm : list pop_row) (r : pop_row) :
  (1 <= MIN_SAMPLES)%Z ->
  In r (sample_size_filter MIN_SAMPLES pm) -> Median_Raw_ER_Population mean2 r <> None.
Proof.
  intros Hmin Hin. apply median_defined.
  apply sample_size_filter_In in Hin. destruct Hin as [_ Hc].
  unfold sample_count in Hc. lia.
Qed.

(** Every group of the rows left by the filter has a row with a defined
    median as soon as the configured minimum is at least one sample. *)
Lemma minimum_of_one_sample_suffices (MIN_SAMPLES : Z) (pm : list pop_row) :
  (1 <= MIN_SAMPLES)%Z ->
  forall g, In g (groups (sample_size_filter MIN_SAMPLES pm)) ->
            exists r, In r (sample_size_filter MIN_SAMPLES pm) /\ in_group g r
                      /\ Median_Raw_ER_Population mean2 r <> None.
Proof.
  intros Hmin g Hg. apply In_groups in Hg. destruct Hg as [r [Hin Hgr]].
  exists r. split; [exact Hin|]. split; [exact Hgr|].
  eapply filtered_rows_have_median; eassumption.
Qed.

(** The computed median of a row is the middle one of its observed values
    in ascending order, the mean of the two middle ones when their number is
    even. *)
Lemma median_middle_of_sorted (vals : list (option Q)) (m : Q) :
  median mean2 vals = Some m ->
  exists sorted,
    Permutation sorted (dropna vals) /\ StronglySorted Qle sorted
    /\ m = if Nat.odd (length sorted) then nth (length sorted / 2) sorted 0%Q
           else mean2 (nth (length sorted / 2 - 1) sorted 0%Q)
                      (nth (length sorted / 2) sorted 0%Q).
Proof.
  unfold median. cbv zeta. intro H. exists (sort_values (dropna vals)).
  split; [apply sort_values_perm|]. split; [apply sort_values_sorted|].
  destruct (length (sort_values (dropna vals)) =? 0); [discriminate|].
  destruct (Nat.odd (length (sort_values (dropna vals)))); injection H as <-; reflexivity.
Qed.

(** A filter keeps the order of the rows: the positions of the kept rows in
    the original list increase with their positions in the filtered one. *)
Lemma filter_positions {A : Type} (f : A -> bool) (l : list A) :
  exists pos : nat -> nat,
    (forall i x, nth_error (filter f l) i = Some x -> nth_error l (pos i) = Some x)
    /\ (forall j y, nth_error l j = Some y -> f y = true ->
                    exists i, nth_error (filter f l) i = Some y /\ pos i = j)
    /\ (forall i i', i < i' -> pos i < pos i').
Proof.
  induction l as [|a l [pos [H1 [H2 H3]]]].
  - exists (fun i => i). split; [intros i x H; exact H|].
    split; [intros [|j] y H; discriminate | auto].
  - simpl. destruct (f a) eqn:E.
    + exists (fun i => match i with 0 => 0 | S i' => S (pos i') end).
      split; [|split].
      * intros [|i] x H; simpl in *; auto.
      * intros [|j] y Hj Hy; simpl in Hj.
        -- exists 0. auto.
        -- destruct (H2 j y Hj Hy) as [i [Hi Hp]]. exists (S i). simpl. auto.
      * intros [|i] [|i'] Hlt; try lia.
        assert (pos i < pos i') by (apply H3; lia). lia.
    + exists (fun i => S (pos i)). split; [|split].
      * intros i x H. simpl. auto.
      * intros [|j] y Hj Hy; simpl in Hj.
        -- injection Hj as <-. congruence.
        -- destruct (H2 j y Hj Hy) as [i [Hi Hp]]. exists i. auto.
      * intros i i' Hlt. assert (pos i < pos i') by (apply H3; lia). lia.
Qed.

(** The representative of a group among the filtered rows, seen in the
    population matrix: no retained row of the group has a larger median and
    every earlier one has a strictly smaller one. *)
Lemma representative_in_population_matrix (MIN_SAMPLES : Z) (pm : list pop_row)
  (g : string * string) (r : pop_row) :
  representative mean2 (sample_size_filter MIN_SAMPLES pm) g r ->
  in_group g r /\
  exists i m,
    nth_error pm i = Some r
    /\ (MIN_SAMPLES <= Z.of_nat (length (dropna (values r))))%Z
    /\ Median_Raw_ER_Population mean2 r = Some m
    /\ forall j r' m',
         nth_error pm j = Some r' ->
         (MIN_SAMPLES <= Z.of_nat (length (dropna (values r'))))%Z ->
         in_group g r' -> Median_Raw_ER_Population mean2 r' = Some m' ->
         (m' <= m)%Q /\ (j < i -> (m' < m)%Q).
Proof.
  intros [i [m [Hi [Hg [Hm Hall]]]]]. split; [exact Hg|].
  unfold sample_size_filter in *.
  destruct (filter_positions (fun r => (MIN_SAMPLES <=? sample_count r)%Z) pm)
    as [pos [P1 [P2 P3]]].
  exists (pos i), m. split; [apply P1, Hi|]. split.
  { apply nth_error_In, filter_In in Hi. destruct Hi as [_ Hc].
    apply Z.leb_le in Hc. exact Hc. }
  split; [exact Hm|].
  intros j r' m' Hj Hret Hg' Hm'.
  destruct (P2 j r' Hj) as [j0 [Hj0 Hp]]; [apply Z.leb_le; exact Hret|].
  destruct (Hall j0 r' m' Hj0 Hg' Hm') as [Hle Hlt].
  split; [exact Hle|]. intro Hji. apply Hlt. subst j.
  destruct (Nat.lt_ge_cases j0 i) as [Hlt0|Hge]; [exact Hlt0|]. exfalso.
  destruct (Nat.eq_dec j0 i) as [->|Hne]; [lia|].
  assert (pos i < pos j0) by (apply P3; lia). lia.
Qed.

Lemma Forall2_choose {A B C : Type} (P : A -> B -> C -> Prop) (la : list A) (lb : list B) :
  Forall2 (fun a b => exists c, P a b c) la lb ->
  exists lc : list (C * B),
    Forall2 (fun a cb => P a (snd cb) (fst cb)) la lc /\ map snd lc = lb.
Proof.
  induction 1 as [|a b la lb [c Hc] _ [lc [HF Hm]]].
  - exists []. split; [constructor | reflexivity].
  - exists ((c, b) :: lc). split; [constructor; [exact Hc | exact HF]|].
    simpl. now rewrite Hm.
Qed.

Lemma Forall2_In_left {A B : Type} (P : A -> B -> Prop) (la : list A) (lb : list B) (a : A) :
  Forall2 P la lb -> In a la -> exists b, In b lb /\ P a b.
Proof.
  induction 1 as [|a0 b0 la lb H0 _ IH]; simpl; [tauto|].
  intros [->|Hin]; [exists b0; auto|].
  destruct (IH Hin) as [b [Hb Pb]]. exists b. auto.
Qed.

Lemma Forall2_In_right {A B : Type} (P : A -> B -> Prop) (la : list A) (lb : list B) (b : B) :
  Forall2 P la lb -> In b lb -> exists a, In a la /\ P a b.
Proof.
  induction 1 as [|a0 b0 la lb H0 _ IH]; simpl; [tauto|].
  intros [->|Hin]; [exists a0; auto|].
  destruct (IH Hin) as [a [Ha Pa]]. exists a. auto.
Qed.

(** X30: with a configured minimum of at least one non-missing sample the
    selection succeeds on every population matrix and writes exactly one row
    per (Gene, CellType) group that has a row with at least the minimum of
    non-missing values.  The row written for a group is named
    [Gene__CellType], carries the per-individual values of a retained row of
    the group, and that row's median (the middle of its observed values in
    ascending order, the mean of the two middle ones when their number is
    even) is not exceeded by the median of any retained row of the group and
    is strictly above the median of every retained row of the group that
    comes before it in the population matrix.  With the medians 0.1, 0.3,
    0.2, 0.3 of Scenario B the first site of median 0.3 becomes
    [APP__Bcell]. *)
Theorem representative_site_selection (MIN_SAMPLES : Z) (pm : list pop_row) :
  (1 <= MIN_SAMPLES)%Z ->
  let observed (r : pop_row) : list Q := dropna (values r) in
  let retained (r : pop_row) : Prop :=
    (MIN_SAMPLES <= Z.of_nat (length (observed r)))%Z in
  let same_group (r r' : pop_row) : Prop :=
    Phase3_Gene r' = Phase3_Gene r /\ CellType r' = CellType r in
  let median_of (r : pop_row) (m : Q) : Prop :=
    Median_Raw_ER_Population mean2 r = Some m
    /\ exists sorted,
         Permutation sorted (observed r) /\ StronglySorted Qle sorted
         /\ m = if Nat.odd (length sorted) then nth (length sorted / 2) sorted 0%Q
                else mean2 (nth (length sorted / 2 - 1) sorted 0%Q)
                           (nth (length sorted / 2) sorted 0%Q) in
  (exists selected : list (nat * pop_row),
      feature_selection mean2 (sample_size_filter MIN_SAMPLES pm)
      = Ok (map (fun ir => ((Phase3_Gene (snd ir) ++ "__" ++ CellType (snd ir))%string,
                            values (snd ir)))
                selected)
      /\ NoDup (map (fun ir => (Phase3_Gene (snd ir), CellType (snd ir))) selected)
      /\ (forall r, In r pm -> retained r ->
                    exists ir, In ir selected /\ same_group r (snd ir))
      /\ (forall i r, In (i, r) selected ->
            nth_error pm i = Some r /\ retained r
            /\ exists m, median_of r m
                 /\ forall j r',
                      nth_error pm j = Some r' -> retained r' -> same_group r r' ->
                      exists m', median_of r' m'
                                 /\ (m' <= m)%Q /\ (j < i -> (m' < m)%Q)))
  /\ feature_selection mean2 (sample_size_filter 1 scenario_B)
     = Ok [("APP__Bcell", [Some (2 # 10); Some (3 # 10); Some (4 # 10)])].
Proof.
  intros Hmin observed retained same_group median_of.
  split; [|reflexivity].
  set (df := sample_size_filter MIN_SAMPLES pm).
  assert (Hmed : forall r, retained r ->
                           exists m, Median_Raw_ER_Population mean2 r = Some m).
  { intros r Hr.
    destruct (Median_Raw_ER_Population mean2 r) as [m|] eqn:E; [eauto|].
    exfalso. revert E. apply median_defined.
    unfold retained, observed in Hr. lia. }
  assert (Hspec : forall r m, Median_Raw_ER_Population mean2 r = Some m -> median_of r m).
  { intros r m Hm. split; [exact Hm|]. now apply median_middle_of_sorted. }
  destruct (feature_selection_representatives mean2 df) as [reps [Hsel HF]].
  { now apply minimum_of_one_sample_suffices. }
  assert (HF' : Forall2
            (fun g r => exists i,
               in_group g r /\ nth_error pm i = Some r /\ retained r
               /\ exists m, Median_Raw_ER_Population mean2 r = Some m
                    /\ forall j r' m',
                         nth_error pm j = Some r' -> retained r' -> in_group g r' ->
                         Median_Raw_ER_Population mean2 r' = Some m' ->
                         (m' <= m)%Q /\ (j < i -> (m' < m)%Q))
            (groups df) reps).
  { eapply Forall2_impl; [|exact HF]. intros g r Hrep.
    destruct (representative_in_population_matrix _ _ Hrep) as [Hg [i [m [Hi [Hr [Hm Hall]]]]]].
    exists i. split; [exact Hg|]. split; [exact Hi|]. split; [exact Hr|].
    exists m. split; [exact Hm | exact Hall]. }
  destruct (Forall2_choose _ HF') as [selected [HS Hmap]]. clear HF'.
  exists selected. split; [|split; [|split]].
  - rewrite Hsel, <- Hmap, map_map. reflexivity.
  - assert (Hk : map (fun ir => (Phase3_Gene (snd ir), CellType (snd ir))) selected
                 = groups df).
    { clear Hmap HF Hsel. set (gs := groups df) in *. clearbody gs.
      induction HS as [|g ir gs sel [[Hg1 Hg2] _] _ IH]; [reflexivity|].
      simpl. rewrite Hg1, Hg2, IH. now destruct g. }
    rewrite Hk. apply groups_NoDup.
  - intros r Hin Hr.
    assert (Hg : In (Phase3_Gene r, CellType r) (groups df)).
    { apply In_groups. exists r. split; [|split; reflexivity].
      apply sample_size_filter_In. split; [exact Hin | exact Hr]. }
    destruct (Forall2_In_left _ HS Hg) as [ir [Hir [[Hg1 Hg2] _]]].
    exists ir. split; [exact Hir | split; assumption].
  - intros i r Hin.
    destruct (Forall2_In_right _ HS Hin) as [g [_ [Hg [Hi [Hr [m [Hm Hall]]]]]]].
    simpl in Hg, Hi, Hr, Hm, Hall.
    split; [exact Hi|]. split; [exact Hr|].
    exists m. split; [now apply Hspec|].
    intros j r' Hj Hr' [Hs1 Hs2].
    destruct (Hmed r' Hr') as [m' Hm'].
    exists m'. split; [now apply Hspec|].
    apply (Hall j r' m' Hj Hr'); [|exact Hm'].
    destruct Hg as [Hg1 Hg2]. split; congruence.
Qed.

End SelectorClaims.

(** The selection theorem at Scenario B with a minimum of one sample and the
    exact mean. *)
Lemma representative_site_selection_witness :
  (exists selected : list (nat * Phase5.pop_row),
      Phase5.feature_selection exact_mean2 (Phase5.sample_size_filter 1 scenario_B)
      = Ok (map (fun ir => ((Phase5.Phase3_Gene (snd ir) ++ "__"
                             ++ Phase5.CellType (snd ir))%string,
                            Phase5.values (snd ir)))
                selected)
      /\ NoDup (map (fun ir => (Phase5.Phase3_Gene (snd ir), Phase5.CellType (snd ir)))
                    selected)
      /\ (forall r, In r scenario_B ->
                    (1 <= Z.of_nat (length (dropna (Phase5.values r))))%Z ->
                    exists ir, In ir selected
                               /\ Phase5.Phase3_Gene (snd ir) = Phase5.Phase3_Gene r
                               /\ Phase5.CellType (snd ir) = Phase5.CellType r)
      /\ (forall i r, In (i, r) selected ->
            nth_error scenario_B i = Some r
            /\ (1 <= Z.of_nat (length (dropna (Phase5.values r))))%Z
            /\ exists m,
                 (Phase5.Median_Raw_ER_Population exact_mean2 r = Some m
                  /\ exists sorted,
                       Permutation sorted (dropna (Phase5.values r))
                       /\ StronglySorted Qle sorted
                       /\ m = if Nat.odd (length sorted)
                              then nth (length sorted / 2) sorted 0%Q
                              else exact_mean2 (nth (length sorted / 2 - 1) sorted 0%Q)
                                               (nth (length sorted / 2) sorted 0%Q))
                 /\ forall j r',
                      nth_error scenario_B j = Some r' ->
                      (1 <= Z.of_nat (length (dropna (Phase5.values r'))))%Z ->
                      Phase5.Phase3_Gene r' = Phase5.Phase3_Gene r
                      /\ Phase5.CellType r' = Phase5.CellType r ->
                      exists m',
                        (Phase5.Median_Raw_ER_Population exact_mean2 r' = Some m'
                         /\ exists sorted,
                              Permutation sorted (dropna (Phase5.values r'))
                              /\ StronglySorted Qle sorted
                              /\ m' = if Nat.odd (length sorted)
                                      then nth (length sorted / 2) sorted 0%Q
                                      else exact_mean2
                                             (nth (length sorted / 2 - 1) sorted 0%Q)
                                             (nth (length sorted / 2) sorted 0%Q))
                        /\ (m' <= m)%Q /\ (j < i -> (m' < m)%Q)))
  /\ Phase5.feature_selection exact_mean2 (Phase5.sample_size_filter 1 scenario_B)
     = Ok [("APP__Bcell", [Some (2 # 10); Some (3 # 10); Some (4 # 10)])].
Proof.
  apply (@representative_site_selection exact_mean2 1 scenario_B). lia.
Defined.

(** C6 (the code departs from the claim): the Phase-4 matrices of three
    individuals hold the four APP sites of Scenario B and one SOD1 site
    whose B-cell ratio is masked in all of them.  With [--min_samples 0] the
    SOD1 row stays in the population matrix, its group has no defined
    median, and the selection raises: the run ends with status 1 and writes
    no row, not even the APP__Bcell row the claim describes.  With a minimum
    of one sample the same files give that row. *)
Theorem unobserved_group_prevents_selection (mean2 : Q -> Q -> Q) :
  Phase5.concat_axis1 (fst (Phase5.collate scenario_B_files))
  = Ok scenario_B_and_unobserved_group
  /\ Phase5.feature_selection mean2
       (Phase5.sample_size_filter 0 scenario_B_and_unobserved_group)
     = Raise (KeyError "[nan] not in index")
  /\ Phase5.run_phase5_collation_and_selection mean2 0 "*_final_editing_matrix_p4.tsv"
       scenario_B_files
     = (Uncaught (KeyError "[nan] not in index"), [])
  /\ exit_code (Phase5.main mean2 0 "*_final_editing_matrix_p4.tsv" scenario_B_files) = 1%Z
  /\ Phase5.run_phase5_collation_and_selection mean2 1 "*_final_editing_matrix_p4.tsv"
       scenario_B_files
     = (Returned (Some [("APP__Bcell", [Some (2 # 10); Some (3 # 10); Some (4 # 10)])]), []).
Proof. repeat split. Qed.

(** Scenario B: the site with median 0.3 becomes [APP__Bcell]; the later
    site with the same median does not replace it. *)
Example scenario_B_selects_highest_median (mean2 : Q -> Q -> Q) :
  Phase5.feature_selection mean2 (Phase5.sample_size_filter 1 scenario_B)
  = Ok [("APP__Bcell", [Some (2 # 10); Some (3 # 10); Some (4 # 10)])].
Proof. reflexivity. Qed.

(** C8 (the code departs from the claim): a population matrix whose only
    group, APP in B cells, has no observed value.  The selector of
    collate_and_select_phase5.py, which has no sample-size filter, raises on
    it and the run ends with status 1 and the FATAL UNCAUGHT line; so does
    collate_and_select_phase5_v2.py with [--min_samples 0].  With a minimum
    of one sample the row is dropped before the grouping and the run writes
    a matrix without that feature. *)
Theorem all_missing_group_raises (mean2 : Q -> Q -> Q) :
  Phase5.run_phase5_collation_and_selection_v1 mean2 "*_final_editing_matrix_p4.tsv"
    [all_missing_file]
    = (Uncaught (KeyError "[nan] not in index"), [])
  /\ exit_code (Phase5.main_v1 mean2 "*_final_editing_matrix_p4.tsv" [all_missing_file]) = 1%Z
  /\ Phase5.run_phase5_collation_and_selection mean2 0 "*_final_editing_matrix_p4.tsv"
       [all_missing_file]
    = (Uncaught (KeyError "[nan] not in index"), [])
  /\ Phase5.run_phase5_collation_and_selection mean2 1 "*_final_editing_matrix_p4.tsv"
       [all_missing_file]
    = (Returned (Some []), []).
Proof. repeat split. Qed.

(** A row without any observed value is never the representative of its
    group, whatever the other rows are. *)
Lemma all_missing_row_never_selected (mean2 : Q -> Q -> Q) (df : list Phase5.pop_row)
  (g : string * string) (r : Phase5.pop_row) :
  Phase5.representative mean2 df g r -> 0 < length (dropna (Phase5.values r)).
Proof.
  intros [i [m [_ [_ [Hm _]]]]]. apply (Phase5Facts.median_defined mean2).
  unfold Phase5.Median_Raw_ER_Population in Hm. congruence.
Qed.

(** ** Fatal conditions and exit codes *)

Lemma collate_nothing_loaded (files : list Phase5.input_file) :
  (forall f, In f files -> exists e, Phase5.loaded f = Raise e) ->
  fst (Phase5.collate files) = [].
Proof.
  induction files as [|f files IH]; intro H; simpl; [reflexivity|].
  destruct (Phase5.collate files) as [data log] eqn:E. simpl in IH.
  destruct (H f (or_introl eq_refl)) as [e He]. rewrite He. simpl.
  apply IH. intros f' Hf'. apply H. now right.
Qed.

(** Whenever no Phase-4 file can be loaded, the collation stage ends with
    status 0. *)
Lemma phase5_nothing_loaded_exit_zero (mean2 : Q -> Q -> Q) (MIN_SAMPLES : Z)
  (pattern : string) (files : list Phase5.input_file) :
  (forall f, In f files -> exists e, Phase5.loaded f = Raise e) ->
  exit_code (Phase5.main mean2 MIN_SAMPLES pattern files) = 0%Z.
Proof.
  intro H. unfold Phase5.main, Phase5.run_phase5_collation_and_selection.
  destruct files as [|f files]; [reflexivity|].
  pose proof (collate_nothing_loaded (f :: files) H) as Hc.
  destruct (Phase5.collate (f :: files)) as [data log]. simpl in Hc. subst data.
  reflexivity.
Qed.

Lemma load_pvalues_nothing_loaded (files : list Phase8.result_file) :
  (forall f, In f files ->
             Phase8.exists_on_disk f = false \/ exists e, Phase8.parsed f = Raise e) ->
  fst (Phase8.load_pvalues files) = [].
Proof.
  induction files as [|f files IH]; intro H; simpl; [reflexivity|].
  destruct (Phase8.load_pvalues files) as [data log] eqn:E. simpl in IH.
  assert (IH' : data = []) by (apply IH; intros f' Hf'; apply H; now right).
  destruct (H f (or_introl eq_refl)) as [He|[e He]].
  - rewrite He. simpl. exact IH'.
  - destruct (Phase8.exists_on_disk f); simpl; [|exact IH'].
    rewrite He. exact IH'.
Qed.

(** Whenever no association result can be loaded, the FDR stage prints its
    FATAL ERROR line last and ends with status 0. *)
Lemma phase8_nothing_loaded_exit_zero (files : list Phase8.result_file) :
  (forall f, In f files ->
             Phase8.exists_on_disk f = false \/ exists e, Phase8.parsed f = Raise e) ->
  exit_code (Phase8.main files) = 0%Z
  /\ exists log, stderr (Phase8.main files) = log ++ [Phase8.fatal_no_data].
Proof.
  intro H. unfold Phase8.main, Phase8.run_fdr_correction.
  pose proof (load_pvalues_nothing_loaded files H) as Hc.
  destruct (Phase8.load_pvalues files) as [data log]. simpl in Hc. subst data.
  simpl. split; [reflexivity | now exists log].
Qed.

(** C5 (the code departs from the claim): when no input file matches the
    pattern, the collation stage prints its FATAL ERROR line and returns, so
    the process ends with status 0, for every configuration; when the only
    association result file is absent, the FDR stage prints a WARNING and
    its FATAL ERROR line and ends with status 0 as well; when the only
    Phase-4 file cannot be read, the collation stage ends with status 0 and
    no FATAL line at all. *)
Theorem fatal_conditions_exit_with_status_zero :
  (forall mean2 MIN_SAMPLES pattern,
      Phase5.main mean2 MIN_SAMPLES pattern []
      = {| exit_code := 0; stderr := [Phase5.no_files_message pattern] |})
  /\ Phase8.main [absent_result_file]
     = {| exit_code := 0;
          stderr := ["WARNING: Input file not found: chr1.txt.gz. Skipping.";
                     "FATAL ERROR: No valid data loaded for correction. Exiting."] |}
  /\ (forall mean2 MIN_SAMPLES pattern,
        Phase5.main mean2 MIN_SAMPLES pattern
          [ {| Phase5.file_path := "IND1_final_editing_matrix_p4.tsv";
               Phase5.individual_id := "IND1";
               Phase5.loaded := Raise (ValueError "No columns to parse from file") |} ]
        = {| exit_code := 0;
             stderr := ["WARNING: Skipping file IND1_final_editing_matrix_p4.tsv due to error: No columns to parse from file";
                        "No data successfully processed. Exiting."] |}).
Proof. repeat split. Qed.

(** ** Global filter status: quantifier output and collation input *)

Module CollationFacts.

Import Phase5.

Lemma key3_eqb_eq (a b : string * string * string) : key3_eqb a b = true <-> a = b.
Proof.
  destruct a as [[a1 a2] a3], b as [[b1 b2] b3]. unfold key3_eqb. simpl.
  rewrite !andb_true_iff, !String.eqb_eq.
  split; [intros [[-> ->] ->]; reflexivity | intro H; inversion H; auto].
Qed.

Lemma keys_eqb_eq (a b : list (string * string * string)) : keys_eqb a b = true <-> a = b.
Proof.
  revert b. induction a as [|x a IH]; intros [|y b]; simpl;
    try (split; [discriminate | discriminate]); [tauto|].
  rewrite andb_true_iff, key3_eqb_eq, IH.
  split; [intros [-> ->]; reflexivity | intro H; inversion H; auto].
Qed.

Lemma existsb_key3 (k : string * string * string) (l : list (string * string * string)) :
  existsb (key3_eqb k) l = true <-> In k l.
Proof.
  rewrite existsb_exists. split.
  - intros [x [Hin He]]. apply key3_eqb_eq in He. now subst.
  - intro H. exists k. split; [exact H | now apply key3_eqb_eq].
Qed.

Lemma In_union_keys (k : string * string * string) (l acc : list (string * string * string)) :
  In k (union_keys acc l) <-> In k acc \/ In k l.
Proof.
  revert acc. induction l as [|x l IH]; intro acc; simpl.
  - tauto.
  - destruct (existsb (key3_eqb x) acc) eqn:E.
    + rewrite IH. apply existsb_key3 in E. intuition (subst; auto).
    + rewrite IH, in_app_iff. simpl. intuition.
Qed.

Lemma In_fold_union (k : string * string * string)
  (all_data : list (string * list (string * string * string * option Q)))
  (acc : list (string * string * string)) :
  In k (fold_left (fun acc d => union_keys acc (frame_index d)) all_data acc) <->
  In k acc \/ exists d, In d all_data /\ In k (frame_index d).
Proof.
  revert acc. induction all_data as [|d ds IH]; intro acc; simpl.
  - split; [auto | intros [H|[d [[] _]]]; exact H].
  - rewrite IH, In_union_keys. split.
    + intros [[H|H]|[d' [Hd' Hk]]]; eauto.
    + intros [H|[d' [[<-|Hd'] Hk]]]; eauto.
Qed.

Lemma In_combine_seq {A : Type} (l : list A) (s i : nat) (x : A) :
  nth_error l i = Some x -> In (s + i, x) (combine (seq s (length l)) l).
Proof.
  revert s i. induction l as [|a l IH]; intros s i Hi; [destruct i; discriminate|].
  simpl. destruct i as [|i]; simpl in Hi.
  - left. injection Hi as <-. f_equal. lia.
  - right. replace (s + S i) with (S s + i) by lia. now apply IH.
Qed.

(** The index of the population matrix is the union of the indexes of the
    individuals' long frames: no key of any individual is lost, none is
    invented. *)
Lemma population_index_union
  (all_data : list (string * list (string * string * string * option Q)))
  (pm : list pop_row) (k : string * string * string) :
  concat_axis1 all_data = Ok pm ->
  ((exists r, In r pm /\ row_key r = k) <->
   exists d, In d all_data /\ In k (frame_index d)).
Proof.
  unfold concat_axis1. destruct all_data as [|first rest]; [discriminate|].
  destruct (forallb _ (first :: rest)) eqn:Hall.
  - intro H. injection H as <-. split.
    + intros [r [Hr Hk]]. apply in_map_iff in Hr. destruct Hr as [[i k'] [<- Hin]].
      apply in_combine_r in Hin. exists first. split; [now left|].
      unfold row_key in Hk. simpl in Hk. destruct k' as [[? ?] ?]. simpl in Hk. now subst.
    + intros [d [Hd Hk]].
      rewrite forallb_forall in Hall. specialize (Hall d Hd).
      apply keys_eqb_eq in Hall. rewrite Hall in Hk.
      destruct (In_nth_error _ _ Hk) as [i Hi].
      eexists. split.
      * apply in_map_iff. exists (i, k). split; [reflexivity|].
        exact (In_combine_seq (frame_index first) 0 i Hi).
      * unfold row_key. simpl. now destruct k as [[? ?] ?].
  - destruct (existsb _ (first :: rest)); [discriminate|].
    intro H. injection H as <-.
    assert (Hidx : forall k',
               In k' (fold_left (fun acc d => union_keys acc (frame_index d))
                                (first :: rest) []) <->
               exists d, In d (first :: rest) /\ In k' (frame_index d)).
    { intro k'. rewrite In_fold_union. split; [intros [H|H]; [destruct H | exact H] | auto]. }
    split.
    + intros [r [Hr Hk]]. apply in_map_iff in Hr. destruct Hr as [k' [<- Hin]].
      apply Hidx in Hin.
      unfold row_key in Hk. simpl in Hk. destruct k' as [[? ?] ?]. simpl in Hk. now subst.
    + intros Hd. eexists. split.
      * apply in_map_iff. exists k. split; [reflexivity|]. now apply Hidx.
      * unfold row_key. simpl. now destruct k as [[? ?] ?].
Qed.

(** The long frame of an individual holds the rows with status PASS, once
    per editing-ratio column, and nothing else. *)
Lemma In_df_long (df : p4_matrix) (k : string * string * string) :
  In k (map fst (df_long df)) <->
  exists r c, In r (p4_rows df) /\ p4_GlobalFilterStatus r = "PASS" /\
              In c (er_cols df) /\
              k = (p4_SiteID r, p4_Phase3_Gene r, str_remove_all "_ER" (snd c)).
Proof.
  unfold df_long, df_filtered. rewrite in_map_iff. split.
  - intros [[k' v] [Hk Hin]]. simpl in Hk. subst k'.
    apply in_flat_map in Hin. destruct Hin as [c [Hc Hin]].
    apply in_map_iff in Hin. destruct Hin as [r [Hr Hin]].
    apply filter_In in Hin. destruct Hin as [Hin Hs]. apply String.eqb_eq in Hs.
    exists r, c. inversion Hr. auto.
  - intros [r [c [Hr [Hs [Hc ->]]]]]. eexists. split; [|apply in_flat_map; exists c; split;
      [exact Hc | apply in_map_iff; exists r; split; [reflexivity|]]].
    + reflexivity.
    + apply filter_In. split; [exact Hr | now apply String.eqb_eq].
Qed.

Lemma In_collate (files : list input_file)
  (d : string * list (string * string * string * option Q)) :
  In d (fst (collate files)) <->
  exists f df, In f files /\ loaded f = Ok df /\ d = (individual_id f, df_long df).
Proof.
  induction files as [|f files IH]; simpl.
  - split; [tauto | intros [f [df [[] _]]]].
  - destruct (collate files) as [data log]. simpl in IH.
    destruct (loaded f) as [df|e] eqn:E; simpl.
    + rewrite IH. split.
      * intros [<-|[f' [df' [Hin [Hl Hd]]]]]; [exists f, df; auto | exists f', df'; auto].
      * intros [f' [df' [[<-|Hin] [Hl Hd]]]].
        -- left. rewrite E in Hl. injection Hl as <-. now subst.
        -- right. eauto.
    + rewrite IH. split.
      * intros [f' [df' [Hin [Hl Hd]]]]. exists f', df'. auto.
      * intros [f' [df' [[<-|Hin] [Hl Hd]]]]; [congruence | eauto].
Qed.

End CollationFacts.

Section GlobalFilterStatus.

Variable fetch : string -> Z -> result (list Phase4.vcf_record).
Variable GTF_JUNCTION_MAP : result (list (string * list Z)).
Variable pileup : string -> Phase4.site -> result (Z * Z).
Variable BAM_FILES : list (string * string).

Let annotate := Phase4.annotate fetch GTF_JUNCTION_MAP.
Let quantify_row := Phase4.quantify_row fetch GTF_JUNCTION_MAP pileup BAM_FILES.
Let matrix_rows := Phase4.matrix_rows fetch GTF_JUNCTION_MAP pileup BAM_FILES.

Lemma In_matrix_rows (thr cov : Z) (sites : list Phase4.site)
  (rows : list Phase4.matrix_row) (row : Phase4.matrix_row) :
  matrix_rows thr cov sites = Ok rows ->
  (In row rows <->
   exists s, In s sites /\ Phase4.GlobalFilterStatus (annotate thr s) = "PASS"
             /\ quantify_row thr cov s = Ok row).
Proof.
  unfold matrix_rows, annotate, quantify_row.
  revert rows. induction sites as [|s sites IH]; intros rows Hrows;
    cbn [Phase4.matrix_rows] in Hrows.
  - injection Hrows as <-. split; [intros [] | intros [s [[] _]]].
  - destruct (String.eqb_spec
                (Phase4.GlobalFilterStatus (Phase4.annotate fetch GTF_JUNCTION_MAP thr s)) "PASS")
      as [Hp|Hp]; cbn [negb] in Hrows.
    + destruct (Phase4.quantify_row fetch GTF_JUNCTION_MAP pileup BAM_FILES thr cov s)
        as [row0|e] eqn:Er; cbn [bind] in Hrows; [|discriminate].
      destruct (Phase4.matrix_rows fetch GTF_JUNCTION_MAP pileup BAM_FILES thr cov sites)
        as [rows0|e]; cbn [bind] in Hrows; [|discriminate].
      injection Hrows as <-. specialize (IH rows0 eq_refl). split.
      * intros [<-|Hin]; [exists s; split; [now left | auto]|].
        apply IH in Hin. destruct Hin as [s' [Hin H]]. exists s'. split; [now right | exact H].
      * intros [s' [[<-|Hin] [Hs Hr]]].
        -- left. congruence.
        -- right. apply IH. eauto.
    + specialize (IH rows Hrows). rewrite IH. split.
      * intros [s' [Hin H]]. exists s'. split; [now right | exact H].
      * intros [s' [[<-|Hin] [Hs Hr]]]; [contradiction | eauto].
Qed.

(** C4, as the code has it: the quantifier gives every site it processes a
    GlobalFilterStatus but writes a row only for the sites whose status is
    PASS, so a written matrix consists of exactly those sites and each of
    its rows carries the status PASS; the collation keeps exactly the rows
    of a Phase-4 matrix whose status is PASS, and the index of the
    population matrix consists of exactly the (Site, Gene, CellType) keys of
    such rows of the loaded files. *)
Theorem output_and_collation_keep_PASS_rows
  (filter_redip_status filter_func_region : option string) (thr cov : Z)
  (phase3_df : list Phase4.site) :
  let processed :=
    Phase4.processed_sites filter_redip_status filter_func_region phase3_df in
  (forall rows,
      Phase4.run_phase4_quantification fetch GTF_JUNCTION_MAP pileup BAM_FILES
        filter_redip_status filter_func_region thr cov phase3_df = Returned rows ->
      forall row,
        In row rows <->
        exists s, In s processed /\ Phase4.GlobalFilterStatus (annotate thr s) = "PASS"
                  /\ quantify_row thr cov s = Ok row)
  /\ (forall s row,
        quantify_row thr cov s = Ok row ->
        Phase4.GlobalFilterStatus (Phase4.row_annotation row)
        = Phase4.GlobalFilterStatus (annotate thr s))
  /\ (forall df r,
        In r (Phase5.df_filtered df) <->
        In r (Phase5.p4_rows df) /\ Phase5.p4_GlobalFilterStatus r = "PASS")
  /\ (forall files pm k,
        Phase5.concat_axis1 (fst (Phase5.collate files)) = Ok pm ->
        ((exists r, In r pm /\ Phase5.row_key r = k) <->
         exists f df r c,
           In f files /\ Phase5.loaded f = Ok df /\
           In r (Phase5.p4_rows df) /\ Phase5.p4_GlobalFilterStatus r = "PASS" /\
           In c (Phase5.er_cols df) /\
           k = (Phase5.p4_SiteID r, Phase5.p4_Phase3_Gene r,
                str_remove_all "_ER" (snd c)))).
Proof.
  intro processed. split; [|split; [|split]].
  - intros rows Hrun row.
    unfold Phase4.run_phase4_quantification in Hrun.
    fold (Phase4.processed_sites filter_redip_status filter_func_region phase3_df) in Hrun.
    fold processed in Hrun.
    destruct processed as [|s0 rest] eqn:Ep.
    + injection Hrun as <-. split; [intros [] | intros [s [[] _]]].
    + destruct (Phase4.matrix_rows fetch GTF_JUNCTION_MAP pileup BAM_FILES thr cov (s0 :: rest))
        as [[|r0 rs]|e] eqn:Em; try discriminate.
      injection Hrun as <-. apply In_matrix_rows. exact Em.
  - intros s row Hq. unfold quantify_row, Phase4.quantify_row in Hq.
    destruct (mapM _ BAM_FILES) as [cells|e]; cbn [bind] in Hq; [|discriminate].
    injection Hq as <-. reflexivity.
  - intros df r. unfold Phase5.df_filtered. rewrite filter_In, String.eqb_eq. tauto.
  - intros files pm k Hc.
    rewrite (CollationFacts.population_index_union _ k Hc). split.
    + intros [d [Hd Hk]]. apply CollationFacts.In_collate in Hd.
      destruct Hd as [f [df [Hf [Hl ->]]]].
      apply CollationFacts.In_df_long in Hk. destruct Hk as [r [c H]].
      exists f, df, r, c. tauto.
    + intros [f [df [r [c [Hf [Hl [Hr [Hs [Hcol Hk]]]]]]]]].
      exists (Phase5.individual_id f, Phase5.df_long df). split.
      * apply CollationFacts.In_collate. eauto.
      * apply CollationFacts.In_df_long. exists r, c. auto.
Qed.

End GlobalFilterStatus.

(** C4, as stated, fails: the germline site [1:2000:A>G] is processed and
    gets the status GermlineSNP, yet the written matrix has no row for it. *)
Lemma non_PASS_site_omitted_from_output :
  ~ (forall s,
        In s (Phase4.processed_sites None None [site_pass; site_germline]) ->
        exists rows row,
          Phase4.run_phase4_quantification example_vcf example_junctions example_pileup
            example_bams None None 4 10 [site_pass; site_germline] = Returned rows
          /\ In row rows
          /\ Phase4.SiteID row = Phase4.site_id s
          /\ Phase4.GlobalFilterStatus (Phase4.row_annotation row)
             = Phase4.GlobalFilterStatus
                 (Phase4.annotate example_vcf example_junctions 4 s)).
Proof.
  intro H. destruct (H site_germline) as [rows [row [Hrun [Hin [Hid _]]]]].
  - right. left. reflexivity.
  - vm_compute in Hrun. injection Hrun as <-.
    destruct Hin as [<-|[]]. vm_compute in Hid. discriminate.
Qed.

Lemma output_and_collation_keep_PASS_rows_witness :
  exists row_pass,
    Phase4.quantify_row example_vcf example_junctions example_pileup example_bams
      4 10 site_pass = Ok row_pass
    /\ Phase4.run_phase4_quantification example_vcf example_junctions example_pileup
         example_bams None None 4 10 [site_pass; site_germline]
       = Returned [row_pass]
    /\ Phase4.GlobalFilterStatus
         (Phase4.annotate example_vcf example_junctions 4 site_germline)
       = "GermlineSNP"
    /\ (forall row,
          In row [row_pass] <->
          exists s, In s (Phase4.processed_sites None None [site_pass; site_germline])
                    /\ Phase4.GlobalFilterStatus
                         (Phase4.annotate example_vcf example_junctions 4 s) = "PASS"
                    /\ Phase4.quantify_row example_vcf example_junctions example_pileup
                         example_bams 4 10 s = Ok row).
Proof.
  eexists. split; [reflexivity|]. split; [reflexivity|]. split; [reflexivity|].
  apply (proj1 (@output_and_collation_keep_PASS_rows example_vcf example_junctions
                  example_pileup example_bams None None 4 10 [site_pass; site_germline])).
  reflexivity.
Defined.

(** ** Significance flags *)

(** C7 (the code departs from the claim): the significance flag is the
    [reject] result of [multipletests] at its fixed level 0.05, which tests
    [p <= (rank / m) * 0.05], not the comparison of the q-value with the
    configured threshold.  A single feature with p-value 0.05 has q-value
    0.05, equal to the default threshold, and is flagged significant by both
    scripts (and is a lead variant of qvalue_filter_phase8.py), although the
    strict filter of process_fastqtl_results_p8.py leaves it out of the
    significant table; with the threshold configured to 0.1, a feature with
    q-value 0.07 is in the significant table and flagged not significant. *)
Theorem borderline_q_value_flagged_significant :
  Phase8.process_fastqtl_results (5 # 100) "fastqtl.txt" (Ok [borderline_row])
  = (Returned
       {| Phase8.full_with_qval :=
            [ {| Phase8.row := borderline_row; Phase8.Q_value := Some (5 # 100);
                 Phase8.Significant := true |} ];
          Phase8.df_final_edQTLs := [] |},
     [])
  /\ Phase8.run_fdr_correction [borderline_file]
  = (Returned
       (Some
          {| Phase8.lead_snps :=
               [ {| Phase8.fdr_feature_id := "APP__Bcell"; Phase8.fdr_variant_id := "rs1";
                    Phase8.fdr_p_empirical := 5 # 100; Phase8.source_file := "chr1.txt.gz";
                    Phase8.q_value := 5 # 100; Phase8.FDR_significant := true |} ];
             Phase8.full_corrected :=
               [ {| Phase8.fdr_feature_id := "APP__Bcell"; Phase8.fdr_variant_id := "rs1";
                    Phase8.fdr_p_empirical := 5 # 100; Phase8.source_file := "chr1.txt.gz";
                    Phase8.q_value := 5 # 100; Phase8.FDR_significant := true |} ] |}),
     [])
  /\ Phase8.process_fastqtl_results (10 # 100) "fastqtl.txt" (Ok [weaker_row])
  = (Returned
       {| Phase8.full_with_qval :=
            [ {| Phase8.row := weaker_row; Phase8.Q_value := Some (7 # 100);
                 Phase8.Significant := false |} ];
          Phase8.df_final_edQTLs :=
            [ {| Phase8.row := weaker_row; Phase8.Q_value := Some (7 # 100);
                 Phase8.Significant := false |} ] |},
     []).
Proof. repeat split. Qed.

(** The strict filter of process_fastqtl_results_p8.py does what the claim
    says of the table it writes: a row is in [df_final_edQTLs] exactly when
    it is a row of the full table with a q-value strictly below the
    configured threshold. *)
Lemma df_final_edQTLs_strictly_below_threshold (FDR_THRESHOLD : Q) (input_file : string)
  (read : result (list Phase8.fastqtl_row)) (out : Phase8.p8_output) (log : list string)
  (r : Phase8.corrected_row) :
  Phase8.process_fastqtl_results FDR_THRESHOLD input_file read = (Returned out, log) ->
  (In r (Phase8.df_final_edQTLs out) <->
   In r (Phase8.full_with_qval out)
   /\ exists q, Phase8.Q_value r = Some q /\ (q < FDR_THRESHOLD)%Q).
Proof.
  unfold Phase8.process_fastqtl_results.
  destruct read as [[|r0 df]|[]]; try discriminate.
  destruct (Phase8.multipletests_nan (5 # 100) (map Phase8.P_beta (r0 :: df)))
    as [[reject q]|]; [|discriminate].
  intro H. injection H as <- _. simpl Phase8.df_final_edQTLs. simpl Phase8.full_with_qval.
  rewrite filter_In. unfold Phase8.below_threshold.
  destruct (Phase8.Q_value r) as [qr|].
  - rewrite Qltb_iff. split.
    + intros [Hin Hlt]. split; [exact Hin|]. exists qr. auto.
    + intros [Hin [q' [Hq Hlt]]]. injection Hq as <-. auto.
  - split; [intros [_ Hf]; discriminate | intros [_ [q' [Hq _]]]; discriminate].
Qed.

(** ** Individuals of the saved phenotype and covariate matrices *)

Module MergeFacts.

Import Phase6Merge.









Lemma In_index_loc {A : Type} (df : frame A) (labels : list string) (x : string) :
  In x (index (loc df labels)) <-> In x labels /\ In x (index df).
Proof.
  unfold index, loc. simpl. rewrite !in_map_iff. split.
  - intros [r [<- Hr]]. apply in_flat_map in Hr. destruct Hr as [l [Hl Hr]].
    apply filter_In in Hr. destruct Hr as [Hr He]. apply String.eqb_eq in He.
    split; [now rewrite He | exists r; auto].
  - intros [Hl [r [<- Hr]]]. exists r. split; [reflexivity|].
    apply in_flat_map. exists (fst r). split; [exact Hl|].
    apply filter_In. split; [exact Hr | apply String.eqb_refl].
Qed.



Lemma map_snd_combine_seq {A : Type} (l : list A) (s : nat) :
  map snd (combine (seq s (length l)) l) = l.
Proof.
  revert s. induction l as [|y l IH]; intro s; simpl; [reflexivity | now rewrite IH].
Qed.

Lemma index_apply_standard {V : Type} (ndtr : Q -> V) (df : frame (option Q)) :
  index (apply_standard ndtr df) = index df.
Proof.
  unfold index at 1, apply_standard. simpl. rewrite map_map. simpl.
  replace (length (rows df)) with (length (index df)) by apply length_map.
  apply map_snd_combine_seq.
Qed.

(** The transformation of a frame succeeds on a frame with rows and columns,
    where it is the column-wise one, and on a frame without columns, where
    it gives the empty Series. *)
Lemma apply_int_Ok {V : Type} (ndtr : Q -> V) (df : frame (option Q))
  (f : frame (option V)) :
  apply_int ndtr df = Ok f <->
  (columns df = [] /\ f = {| columns := []; rows := [] |})
  \/ (columns df <> [] /\ rows df <> [] /\ f = apply_standard ndtr df).
Proof.
  unfold apply_int, apply_empty_result.
  destruct (columns df) as [|c cs] eqn:Ec.
  - split.
    + intro H. left. split; [reflexivity|].
      destruct (rows df); injection H as <-; reflexivity.
    + intros [[_ ->]|[Hc _]]; [|congruence]. destruct (rows df); reflexivity.
  - destruct (rows df) as [|r rs] eqn:Er.
    + split; [discriminate|]. intros [[Hc _]|[_ [Hr _]]]; congruence.
    + split.
      * intro H. injection H as <-. right. repeat split; discriminate.
      * intros [[Hc _]|[_ [_ ->]]]; [discriminate | reflexivity].
Qed.



End MergeFacts.

Section MergeClaims.

Import Phase6Merge MergeFacts.

Variable V : Type.
Variable ndtr : Q -> V.


End MergeClaims.



(** In the example the individual without any covariate, IND_C, is in
    neither saved matrix, and IND_D, who has no phenotype, is in neither. *)
Example individual_without_covariates_dropped :
  forall V (ndtr : Q -> V),
    match Phase6Merge.run_normalization_and_merge ndtr
            (Ok example_phenotype) (Ok example_aei) (Ok example_pcs)
            (Raise (FileNotFoundError "peer_factors.tsv")) with
    | (Returned o, _) =>
        Phase6Merge.phenotype_individuals o = ["IND_A"; "IND_B"]
        /\ Phase6Merge.covariate_individuals o = ["IND_A"; "IND_B"]
    | _ => False
    end.
Proof. intros V ndtr. split; reflexivity. Qed.

(** ** Two-tool consensus of one individual *)

Module ConsensusFacts.

Import Phase3.

Lemma tool_eqb_eq (a b : tool) : tool_eqb a b = true <-> a = b.
Proof. destruct a, b; simpl; split; congruence. Qed.

Lemma reported_by (raw_df : list raw_entry) (site : string) (t : tool) :
  existsb (tool_eqb t)
          (map Tool (filter (fun e => String.eqb (SiteID e) site) raw_df)) = true <->
  exists e, In e raw_df /\ SiteID e = site /\ Tool e = t.
Proof.
  rewrite existsb_exists. split.
  - intros [t' [Hin He]]. apply tool_eqb_eq in He. subst t'.
    apply in_map_iff in Hin. destruct Hin as [e [Ht Hin]].
    apply filter_In in Hin. destruct Hin as [Hin Hs]. apply String.eqb_eq in Hs.
    exists e. auto.
  - intros [e [Hin [Hs Ht]]]. exists t. split; [|now apply tool_eqb_eq].
    apply in_map_iff. exists e. split; [exact Ht|].
    apply filter_In. split; [exact Hin | now apply String.eqb_eq].
Qed.

(** The consensus filter itself is the intended gate: an entry is kept
    exactly when both tools have an entry for its site. *)
Lemma consensus_df_both_tools (raw_df : list raw_entry) (e : raw_entry) :
  In e (consensus_df raw_df) <->
  In e raw_df
  /\ (exists e1, In e1 raw_df /\ SiteID e1 = SiteID e /\ Tool e1 = REDML)
  /\ (exists e2, In e2 raw_df /\ SiteID e2 = SiteID e /\ Tool e2 = REDItools).
Proof.
  unfold consensus_df. rewrite filter_In, Nat.eqb_eq.
  rewrite <- !reported_by. unfold ToolCount.
  destruct (existsb (tool_eqb REDML) _), (existsb (tool_eqb REDItools) _); simpl;
    intuition (try discriminate; try lia).
Qed.

Lemma row_get_absent (r : row) (label : string) :
  (forall lc, In lc r -> fst lc <> label) -> row_get r label = Raise (KeyError label).
Proof.
  induction r as [|[l c] r IH]; intro H; [reflexivity|].
  cbn [row_get]. destruct (String.eqb_spec l label) as [He|Hne].
  - exfalso. apply (H (l, c)); [now left | exact He].
  - apply IH. intros lc Hin. apply H. now right.
Qed.

(** A label that a renaming maps away, and maps nothing onto, is no label
    of the renamed rows. *)
Lemma renamed_label_absent (mapping : list (string * string)) (label : string)
  (lc : string * cell) :
  (forall m, In m mapping -> snd m <> label) ->
  In label (map fst mapping) ->
  fst (match find (fun m : string * string => String.eqb (fst m) (fst lc)) mapping with
       | Some m => (snd m, snd lc)
       | None => lc
       end) <> label.
Proof.
  intros Hnew Hold.
  destruct (find (fun m : string * string => String.eqb (fst m) (fst lc)) mapping) as [m|] eqn:E.
  - apply find_some in E. destruct E as [Hin _]. cbn [fst]. now apply Hnew.
  - intro Heq. apply in_map_iff in Hold. destruct Hold as [m [Hm Hin]].
    pose proof (find_none _ _ E m Hin) as Hf. cbn beta in Hf.
    rewrite Hm, <- Heq, String.eqb_refl in Hf. discriminate.
Qed.

(** After the second renaming no row has a column called [Reference]. *)
Lemma renamed_row_has_no_Reference (df : frame) (r : row) :
  In r (rename [("Reference", "Ref"); ("Frequency", "EditLevel")] df) ->
  row_get r "Reference" = Raise (KeyError "Reference").
Proof.
  intro Hr. unfold rename in Hr. apply in_map_iff in Hr. destruct Hr as [r0 [<- _]].
  apply row_get_absent. intros lc Hin.
  apply in_map_iff in Hin. destruct Hin as [lc0 [<- _]].
  apply renamed_label_absent.
  - intros m [<-|[<-|[]]]; discriminate.
  - left. reflexivity.
Qed.

Lemma explode_subs_nothing (r : row) (subs : list string) :
  row_get r "Reference" = Raise (KeyError "Reference") ->
  explode_subs r subs = Ok [] \/ exists e, explode_subs r subs = Raise e.
Proof.
  intro H. induction subs as [|sub subs IH]; simpl; [now left|].
  destruct (substitution_alt sub) as [alt|]; [|exact IH].
  right. unfold exploded_entry.
  destruct (row_get r "Chr") as [chr|e]; simpl; [|eauto].
  destruct (row_get r "Pos") as [pos|e]; simpl; [|eauto].
  rewrite H. simpl. eauto.
Qed.

Lemma explode_row_nothing (r : row) :
  row_get r "Reference" = Raise (KeyError "Reference") ->
  explode_row r = Ok [] \/ exists e, explode_row r = Raise e.
Proof.
  intro H. unfold explode_row.
  destruct (row_get r "AllSubs") as [[s| | |]|e]; simpl; eauto.
  destruct (String.eqb s "-"); [now left|]. now apply explode_subs_nothing.
Qed.

Lemma mapM_explode_nothing (df : frame) :
  (forall r, In r df -> row_get r "Reference" = Raise (KeyError "Reference")) ->
  (exists sub_data, mapM explode_row df = Ok sub_data /\ concat sub_data = [])
  \/ exists e, mapM explode_row df = Raise e.
Proof.
  induction df as [|r df IH]; intro H; simpl.
  - left. exists []. auto.
  - destruct (explode_row_nothing r (H r (or_introl eq_refl))) as [Hr|[e Hr]];
      rewrite Hr; simpl; [|eauto].
    destruct IH as [[sub_data [Hs Hc]]|[e He]]; [intros; apply H; now right | |].
    + left. rewrite Hs. simpl. exists ([] :: sub_data). auto.
    + right. rewrite He. simpl. eauto.
Qed.

(** A REDItools file never contributes an entry: exploding its substitutions
    reads the column [Reference] that the caller has just renamed. *)
Lemma reditools_file_contributes_nothing (min_edit_level : Q) (f : raw_file) :
  file_tool f = REDItools ->
  process_file min_edit_level f = Ok None
  \/ exists e, process_file min_edit_level f = Raise e.
Proof.
  intro Ht. unfold process_file. rewrite Ht.
  destruct (read_csv f) as [df|e]; simpl; [|eauto].
  unfold explode_reditools_substitutions.
  destruct (mapM_explode_nothing
              (rename [("Reference", "Ref"); ("Frequency", "EditLevel")]
                      (rename [("Region", "Chr"); ("Position", "Pos")] df)))
    as [[sub_data [Hs Hc]]|[e He]].
  - intros r Hr. eapply renamed_row_has_no_Reference. exact Hr.
  - rewrite Hs. simpl. rewrite Hc. simpl. now left.
  - rewrite He. simpl. eauto.
Qed.

Lemma standardize_tool (min_edit_level : Q) (t : tool) (cell_type : string) (df : frame)
  (entries : list raw_entry) :
  standardize min_edit_level t cell_type df = Ok entries ->
  forall e, In e entries -> Tool e = t.
Proof.
  revert entries. induction df as [|r df IH]; intros entries H e He; simpl in H.
  - injection H as <-. destruct He.
  - destruct (c <- row_get r "EditLevel" ;; cell_number c) as [level|]; simpl in H; [|discriminate].
    destruct (row_get r "Ref") as [ref|]; simpl in H; [|discriminate].
    destruct (row_get r "Alt") as [alt|]; simpl in H; [|discriminate].
    destruct (row_get r "Chr") as [chr|]; simpl in H; [|discriminate].
    destruct (row_get r "Pos") as [pos|]; simpl in H; [|discriminate].
    destruct (standardize min_edit_level t cell_type df) as [rest'|]; simpl in H; [|discriminate].
    destruct level as [level|].
    + destruct (Qle_bool min_edit_level level && _) eqn:E.
      * injection H as <-. destruct He as [<-|He]; [reflexivity | now apply (IH rest')].
      * injection H as <-. now apply (IH rest').
    + injection H as <-. now apply (IH rest').
Qed.

Lemma process_file_tool (min_edit_level : Q) (f : raw_file) (entries : list raw_entry) :
  process_file min_edit_level f = Ok (Some entries) ->
  forall e, In e entries -> Tool e = REDML.
Proof.
  intros H e He. destruct (file_tool f) eqn:Ht.
  - unfold process_file in H. rewrite Ht in H.
    destruct (read_csv f) as [df|]; simpl in H; [|discriminate].
    destruct (redml_edit_levels df) as [df'|]; simpl in H; [|discriminate].
    destruct (standardize min_edit_level REDML (file_cell_type f) df') as [es|] eqn:Es;
      simpl in H; [|discriminate].
    injection H as <-. eapply standardize_tool; eassumption.
  - destruct (reditools_file_contributes_nothing min_edit_level f Ht) as [Hn|[x Hn]];
      rewrite Hn in H; discriminate.
Qed.

Lemma load_files_tool (min_edit_level : Q) (all_files : list raw_file) :
  forall e, In e (concat (fst (load_files min_edit_level all_files))) -> Tool e = REDML.
Proof.
  induction all_files as [|f fs IH]; simpl; [tauto|].
  destruct (load_files min_edit_level fs) as [raw_df_list log]. simpl in IH.
  destruct (process_file min_edit_level f) as [[entries|]|] eqn:E; simpl; try exact IH.
  intros e He. apply in_app_or in He. destruct He as [He|He].
  - eapply process_file_tool; eassumption.
  - now apply IH.
Qed.

(** Whatever the raw call files are, the aggregator never writes a
    consensus matrix: every entry it loads comes from RED-ML. *)
Lemma run_individual_processing_never_writes (min_edit_level : Q)
  (all_files : list raw_file) (m : matrix) (log : list string) :
  run_individual_processing min_edit_level all_files <> (Returned (Some m), log).
Proof.
  unfold run_individual_processing, load_and_aggregate_raw_calls.
  destruct all_files as [|f fs]; [discriminate|].
  pose proof (load_files_tool min_edit_level (f :: fs)) as Htool.
  destruct (load_files min_edit_level (f :: fs)) as [raw_df_list log']. simpl fst in Htool.
  destruct raw_df_list as [|d ds]; [discriminate|].
  destruct (consensus_df (concat (d :: ds))) as [|e0 es] eqn:Ec; [discriminate|].
  exfalso.
  assert (Hin : In e0 (consensus_df (concat (d :: ds)))) by (rewrite Ec; now left).
  apply consensus_df_both_tools in Hin. destruct Hin as [_ [_ [e2 [Hin2 [_ Ht2]]]]].
  rewrite (Htool e2 Hin2) in Ht2. discriminate.
Qed.

End ConsensusFacts.

(** C2 (the code departs from the claim): on the raw call files of
    Scenario A the REDItools file is given up with a warning, because
    [explode_reditools_substitutions] reads the column [Reference] after the
    caller renamed it to [Ref]; only RED-ML entries are loaded, no site has
    two tools, and the run ends without output and with status 0.  On the
    table [raw_df] the scenario describes, the consensus filter keeps both
    entries of 1:1000:A>G and drops the single-tool site, but [pivot] then
    raises for the two entries of one (SiteID, CellType). *)
Theorem scenario_A_consensus_site_lost :
  Phase3.process_file (1 # 10) scenario_A_reditools = Raise (KeyError "Reference")
  /\ Phase3.run_individual_processing (1 # 10) [scenario_A_redml; scenario_A_reditools]
     = (Returned None,
        ["Warning: Failed to process file IND1_Bcell_reditools_raw.tsv: 'Reference'";
         "No consensus sites found for this individual. Skipping output."])
  /\ exit_code (Phase3.main (1 # 10) [scenario_A_redml; scenario_A_reditools]) = 0%Z
  /\ Phase3.consensus_df scenario_A_raw_df
     = [ {| Phase3.SiteID := "1:1000:A>G"; Phase3.CellType := "Bcell";
            Phase3.Tool := Phase3.REDML; Phase3.EditLevel := 1 # 2 |};
         {| Phase3.SiteID := "1:1000:A>G"; Phase3.CellType := "Bcell";
            Phase3.Tool := Phase3.REDItools; Phase3.EditLevel := 1 # 2 |} ]
  /\ Phase3.pivot_fillna (Phase3.consensus_df scenario_A_raw_df)
     = Raise (ValueError "Index contains duplicate entries, cannot reshape").
Proof. repeat split. Qed.

(** ** The reject flags of the Benjamini-Hochberg correction *)

Module BHFacts.

Import Phase8.

Section Level.

Variable alpha : Q.
Hypothesis alpha_lt_1 : (alpha < 1)%Q.

Let test (pe : Q * Q) : bool := Qle_bool (fst pe) (snd pe * alpha)%Q.
Let ratio (pe : Q * Q) : Q := (fst pe / snd pe)%Q.
Let clip (q : Q) : Q := if Qltb 1 q then 1%Q else q.
Let flag (kopt : option nat) (ib : nat * bool) : bool :=
  match kopt with
  | Some k => (fst ib <? k) || snd ib
  | None => snd ib
  end.

Lemma test_ratio (pe : Q * Q) : (0 < snd pe)%Q -> (test pe = true <-> (ratio pe <= alpha)%Q).
Proof.
  destruct pe as [p e]. unfold test, ratio. simpl. intro He.
  rewrite Qle_bool_iff. split; intro H.
  - apply Qle_shift_div_r; [exact He|]. now rewrite Qmult_comm.
  - rewrite Qmult_comm. setoid_replace p with ((p / e) * e)%Q.
    + apply Qmult_le_compat_r; [exact H | now apply Qlt_le_weak].
    + field. intro H0. rewrite H0 in He. exact (Qlt_irrefl _ He).
Qed.

Lemma clip_le (q : Q) : (clip q <= alpha)%Q <-> (q <= alpha)%Q.
Proof.
  unfold clip. destruct (Qltb 1 q) eqn:E; [|tauto].
  apply Qltb_iff in E. split; intro H; exfalso.
  - apply (Qlt_irrefl 1). now apply Qle_lt_trans with alpha.
  - apply (Qlt_irrefl 1). apply Qlt_le_trans with q; [exact E|].
    apply Qle_trans with alpha; [exact H | now apply Qlt_le_weak].
Qed.

Lemma Qminimum_le (x y : Q) :
  (Qminimum x y <= alpha)%Q <-> (x <= alpha)%Q \/ (y <= alpha)%Q.
Proof.
  unfold Qminimum. destruct (Qle_bool x y) eqn:E.
  - apply Qle_bool_iff in E. split; [auto | intros [H|H]; [exact H|]].
    now apply Qle_trans with y.
  - assert (Hyx : (y <= x)%Q).
    { apply Qlt_le_weak. apply Qnot_le_lt. intro H. apply Qle_bool_iff in H. congruence. }
    split; [auto | intros [H|H]; [|exact H]]. now apply Qle_trans with x.
Qed.

Lemma cummin_right_nil (raw : list Q) : cummin_right raw = [] -> raw = [].
Proof.
  destruct raw as [|x t]; [reflexivity|]. simpl.
  destruct (cummin_right t); discriminate.
Qed.

(** The running minimum at the head of a suffix is at most [alpha] exactly
    when the step-up test succeeds somewhere in the suffix. *)
Lemma head_cummin (F : list (Q * Q)) :
  Forall (fun pe => (0 < snd pe)%Q) F ->
  match cummin_right (map ratio F) with
  | [] => F = []
  | h :: _ => (h <= alpha)%Q <-> existsb (fun b => b) (map test F) = true
  end.
Proof.
  induction 1 as [|pe F Hpe HF IH]; [reflexivity|]. simpl.
  destruct (cummin_right (map ratio F)) as [|h acc] eqn:E.
  - subst F. simpl. rewrite orb_false_r. symmetry. now apply test_ratio.
  - rewrite Qminimum_le, orb_true_iff, IH, (test_ratio pe Hpe). tauto.
Qed.

Lemma rejectmax_None (i : nat) (R : list bool) :
  rejectmax i R = None <-> existsb (fun b => b) R = false.
Proof.
  revert i. induction R as [|b R IH]; intro i; simpl; [tauto|].
  specialize (IH (S i)). destruct (rejectmax (S i) R) as [k|].
  - split; [discriminate|]. intro H. apply orb_false_iff in H. destruct H as [_ H].
    apply IH in H. discriminate.
  - rewrite (proj1 IH eq_refl), orb_false_r. destruct b; split; congruence.
Qed.

Lemma rejectmax_ge (i k : nat) (R : list bool) : rejectmax i R = Some k -> i <= k.
Proof.
  revert i. induction R as [|b R IH]; intro i; simpl; [discriminate|].
  destruct (rejectmax (S i) R) as [k'|] eqn:E.
  - intro H. injection H as <-. specialize (IH _ E). lia.
  - destruct b; [|discriminate]. intro H. injection H as <-. lia.
Qed.

(** [kopt] is the last rejected position of the whole list, seen from the
    suffix [R] that starts at position [i]. *)
Let last_reject (i : nat) (R : list bool) (kopt : option nat) : Prop :=
  match rejectmax i R with
  | Some k' => kopt = Some k'
  | None => kopt = None \/ exists k, kopt = Some k /\ k < i
  end.

Lemma flags_match_corrected (F : list (Q * Q)) :
  Forall (fun pe => (0 < snd pe)%Q) F ->
  forall i kopt,
    last_reject i (map test F) kopt ->
    Forall2 (fun r c => r = true <-> (c <= alpha)%Q)
            (map (flag kopt) (combine (seq i (length F)) (map test F)))
            (map clip (cummin_right (map ratio F))).
Proof.
  induction 1 as [|pe F Hpe HF IH]; intros i kopt Hk; [constructor|].
  pose proof (head_cummin HF) as Hhead.
  assert (Htail : last_reject (S i) (map test F) kopt).
  { unfold last_reject in *. simpl in Hk.
    destruct (rejectmax (S i) (map test F)) as [k'|]; [exact Hk|].
    destruct (test pe).
    - right. exists i. split; [exact Hk | lia].
    - destruct Hk as [Hk|[k [Hk Hlt]]]; [now left | right; exists k; split; [exact Hk | lia]]. }
  specialize (IH (S i) kopt Htail).
  assert (Hlater : (match kopt with Some k => i <? k | None => false end) = true <->
                   existsb (fun b => b) (map test F) = true).
  { unfold last_reject in Htail.
    destruct (rejectmax (S i) (map test F)) as [k'|] eqn:E.
    - subst kopt. pose proof (rejectmax_ge _ _ E) as Hge.
      split; intros _.
      + destruct (existsb (fun b => b) (map test F)) eqn:Ex; [reflexivity|].
        apply rejectmax_None with (i := S i) in Ex. congruence.
      + apply Nat.ltb_lt. lia.
    - apply rejectmax_None in E. rewrite E.
      destruct Htail as [->|[k [-> Hlt]]]; [tauto|].
      split; [|discriminate]. intro H. apply Nat.ltb_lt in H. lia. }
  assert (Hflag : flag kopt (i, test pe) = true <->
                  existsb (fun b => b) (map test F) = true \/ test pe = true).
  { rewrite <- Hlater. unfold flag. cbn [fst snd].
    destruct kopt as [k|]; [apply orb_true_iff|].
    split; [auto | intros [H|H]; [discriminate | exact H]]. }
  cbn [length seq map combine cummin_right].
  destruct (cummin_right (map ratio F)) as [|h acc] eqn:Ec.
  - subst F. constructor; [|constructor].
    rewrite Hflag, clip_le, <- (test_ratio pe Hpe). cbn [map existsb].
    split; [intros [H|H]; [discriminate | exact H] | auto].
  - constructor; [|exact IH].
    rewrite Hflag, clip_le, Qminimum_le, Hhead, <- (test_ratio pe Hpe). tauto.
Qed.

Lemma ecdf_pos (m i : nat) : 0 < m -> (0 < ecdf m i)%Q.
Proof.
  intro Hm. unfold ecdf. apply Qlt_shift_div_l.
  - change 0%Q with (inject_Z (Z.of_nat 0)). now apply inject_nat_lt.
  - rewrite Qmult_0_l. change 0%Q with (inject_Z (Z.of_nat 0)). apply inject_nat_lt. lia.
Qed.

(** On the sorted p-values, a hypothesis is rejected exactly when its
    corrected p-value is at most [alpha] (not: strictly below it). *)
Lemma fdrcorrection_reject_iff (pvals_sorted : list Q) :
  Forall2 (fun r c => r = true <-> (c <= alpha)%Q)
          (fst (fdrcorrection alpha pvals_sorted))
          (snd (fdrcorrection alpha pvals_sorted)).
Proof.
  unfold fdrcorrection. cbv zeta. simpl fst. simpl snd.
  set (m := length pvals_sorted).
  set (F := combine pvals_sorted (map (ecdf m) (seq 0 m))).
  assert (HF : Forall (fun pe => (0 < snd pe)%Q) F).
  { apply Forall_forall. intros [p e] Hin.
    pose proof (in_combine_l _ _ _ _ Hin) as Hp.
    apply in_combine_r in Hin.
    apply in_map_iff in Hin. destruct Hin as [i [<- _]]. simpl.
    apply ecdf_pos. unfold m. destruct pvals_sorted; [destruct Hp | simpl; lia]. }
  assert (Hlen : length F = m).
  { unfold F. rewrite length_combine, length_map, length_seq. apply Nat.min_id. }
  fold test. fold ratio. fold clip.
  pose proof (@flags_match_corrected F HF 0 (rejectmax 0 (map test F))) as H.
  rewrite Hlen in H.
  assert (Hk : last_reject 0 (map test F) (rejectmax 0 (map test F))).
  { unfold last_reject. destruct (rejectmax 0 (map test F)); auto. }
  specialize (H Hk).
  destruct (rejectmax 0 (map test F)) as [k|] eqn:E.
  - exact H.
  - replace (map (flag None) (combine (seq 0 m) (map test F))) with (map test F) in H;
      [exact H|].
    unfold flag. rewrite <- Hlen, <- (length_map test F).
    generalize (map test F) as R. generalize 0 as s.
    intros s R. revert s. induction R as [|b R IHR]; intro s; simpl; [reflexivity|].
    now rewrite <- IHR.
Qed.

Lemma In_insert_by_p (x y : nat * Q) (l : list (nat * Q)) :
  In y (insert_by_p x l) <-> y = x \/ In y l.
Proof.
  induction l as [|h t IH]; simpl; [intuition|].
  destruct (Qle_bool (snd x) (snd h)); simpl; [intuition|].
  rewrite IH. intuition.
Qed.

Lemma insert_by_p_length (x : nat * Q) (l : list (nat * Q)) :
  length (insert_by_p x l) = S (length l).
Proof.
  induction l as [|h t IH]; simpl; [reflexivity|].
  destruct (Qle_bool (snd x) (snd h)); simpl; [reflexivity | now rewrite IH].
Qed.

Lemma In_argsort (pvals : list Q) (x : nat * Q) :
  In x (argsort pvals) <-> In x (combine (seq 0 (length pvals)) pvals).
Proof.
  unfold argsort. generalize (combine (seq 0 (length pvals)) pvals) as l.
  induction l as [|h t IH]; simpl; [tauto|].
  rewrite In_insert_by_p, IH. intuition.
Qed.

Lemma argsort_length (pvals : list Q) : length (argsort pvals) = length pvals.
Proof.
  unfold argsort.
  assert (H : forall l : list (nat * Q), length (fold_right insert_by_p [] l) = length l).
  { induction l as [|h t IH]; simpl; [reflexivity|]. now rewrite insert_by_p_length, IH. }
  rewrite H, length_combine, length_seq. apply Nat.min_id.
Qed.

(** Every position of the input occurs in the sorting permutation. *)
Lemma argsort_covers (pvals : list Q) (k : nat) :
  k < length pvals -> In k (map fst (argsort pvals)).
Proof.
  intro Hk. destruct (nth_error pvals k) as [p|] eqn:E.
  - apply in_map_iff. exists (k, p). split; [reflexivity|].
    apply In_argsort. exact (CollationFacts.In_combine_seq pvals 0 k E).
  - apply nth_error_None in E. lia.
Qed.

Lemma fdrcorrection_length (pvals_sorted : list Q) :
  length (fst (fdrcorrection alpha pvals_sorted)) = length pvals_sorted.
Proof.
  unfold fdrcorrection. cbv zeta. simpl fst.
  assert (H : length (map (fun pe : Q * Q => Qle_bool (fst pe) (snd pe * alpha))
                 (combine pvals_sorted
                    (map (ecdf (length pvals_sorted)) (seq 0 (length pvals_sorted)))))
              = length pvals_sorted).
  { rewrite length_map, length_combine, length_map, length_seq. apply Nat.min_id. }
  destruct (rejectmax 0 _); [|exact H].
  rewrite length_map, length_combine, length_seq, H. apply Nat.min_id.
Qed.

Lemma unsort_at_related {A B : Type} (P : A -> B -> Prop) (R : list A) (C : list B) :
  Forall2 P R C ->
  forall sortind k, length sortind = length R -> In k sortind ->
    exists r c, unsort_at k sortind R = Some r /\ unsort_at k sortind C = Some c /\ P r c.
Proof.
  induction 1 as [|r c R C Hrc HRC IH]; intros sortind k Hlen Hin.
  - destruct sortind; [destruct Hin | discriminate].
  - destruct sortind as [|i sortind]; [discriminate|]. simpl.
    destruct (i =? k) eqn:E.
    + exists r, c. auto.
    + apply IH; [simpl in Hlen; congruence|].
      destruct Hin as [->|Hin]; [|exact Hin]. rewrite Nat.eqb_refl in E. discriminate.
Qed.

Lemma unsort_related {A B : Type} (P : A -> B -> Prop) (dA : A) (dB : B)
  (sortind : list nat) (R : list A) (C : list B) :
  Forall2 P R C -> length sortind = length R ->
  (forall k, k < length sortind -> In k sortind) ->
  Forall2 P (unsort dA sortind R) (unsort dB sortind C).
Proof.
  intros HRC Hlen Hcov. unfold unsort.
  assert (H : forall l, (forall k, In k l -> k < length sortind) ->
            Forall2 P
              (map (fun k => match unsort_at k sortind R with Some v => v | None => dA end) l)
              (map (fun k => match unsort_at k sortind C with Some v => v | None => dB end) l)).
  { induction l as [|k l IH]; intro Hl; simpl; constructor.
    - destruct (unsort_at_related HRC sortind k Hlen) as [r [c [Hr [Hc Hp]]]].
      + apply Hcov, Hl. now left.
      + now rewrite Hr, Hc.
    - apply IH. intros k' Hk'. apply Hl. now right. }
  apply H. intros k Hk. apply in_seq in Hk. lia.
Qed.

(** In exact arithmetic the flags [multipletests] returns are the corrected
    p-values compared with the level by [<=], position by position. *)
Lemma multipletests_reject_iff (pvals : list Q) (reject : list bool) (qvals : list Q) :
  multipletests alpha pvals = Ok (reject, qvals) ->
  Forall2 (fun r c => r = true <-> (c <= alpha)%Q) reject qvals.
Proof.
  unfold multipletests. destruct pvals as [|p pvals]; [discriminate|].
  set (ps := p :: pvals).
  pose proof (fdrcorrection_reject_iff (map snd (argsort ps))) as HF.
  pose proof (fdrcorrection_length (map snd (argsort ps))) as HL.
  destruct (fdrcorrection alpha (map snd (argsort ps))) as [R C]. simpl in HF, HL.
  intro H. injection H as <- <-.
  apply unsort_related.
  - exact HF.
  - now rewrite HL, !length_map.
  - intros k Hk. apply argsort_covers. now rewrite length_map, argsort_length in Hk.
Qed.

End Level.

Lemma Forall2_combine {A B : Type} (P : A -> B -> Prop) (R : list A) (C : list B) :
  Forall2 P R C -> forall r c, In (c, r) (combine C R) -> P r c.
Proof.
  induction 1 as [|r0 c0 R C H0 HRC IH]; intros r c Hin; [destruct Hin|].
  destruct Hin as [Heq|Hin]; [injection Heq as <- <-; exact H0 | now apply IH].
Qed.

Lemma In_combine_inner {A B C : Type} (X : list A) (Y : list B) (Z : list C)
  (x : A) (y : B) (z : C) :
  In (x, y, z) (combine (combine X Y) Z) -> In (y, z) (combine Y Z).
Proof.
  revert Y Z. induction X as [|x0 X IH]; intros [|y0 Y] [|z0 Z]; simpl; try tauto.
  intros [H|H]; [left; congruence | right; eauto].
Qed.

(** *** Arrays that may hold NaN *)

Lemma cummin_right_length (raw : list Q) : length (cummin_right raw) = length raw.
Proof.
  induction raw as [|x t IH]; [reflexivity|]. cbn [cummin_right].
  destruct (cummin_right t) as [|h acc] eqn:E.
  - apply cummin_right_nil in E. now subst.
  - cbn [length] in *. now rewrite IH.
Qed.

Lemma combine_map_fst {A B C : Type} (f : A -> B) (l : list A) (l' : list C) :
  combine (map f l) l' = map (fun x => (f (fst x), snd x)) (combine l l').
Proof.
  revert l'. induction l as [|a l IH]; intros [|c l']; cbn [map combine]; try reflexivity.
  now rewrite IH.
Qed.

Lemma combine_map_snd {A B C : Type} (f : B -> C) (l : list A) (l' : list B) :
  combine l (map f l') = map (fun x => (fst x, f (snd x))) (combine l l').
Proof.
  revert l'. induction l as [|a l IH]; intros [|c l']; cbn [map combine]; try reflexivity.
  now rewrite IH.
Qed.

Lemma insert_by_p_nan_Some (x : nat * Q) (l : list (nat * Q)) :
  insert_by_p_nan (fst x, Some (snd x)) (map (fun y => (fst y, Some (snd y))) l)
  = map (fun y => (fst y, Some (snd y))) (insert_by_p x l).
Proof.
  induction l as [|h t IH]; [reflexivity|]. cbn [map insert_by_p_nan insert_by_p snd p_le].
  destruct (Qle_bool (snd x) (snd h)); [reflexivity|]. cbn [map]. now rewrite IH.
Qed.

(** Without NaN the two sorts agree. *)
Lemma argsort_nan_Some (pvals : list Q) :
  argsort_nan (map Some pvals) = map (fun y => (fst y, Some (snd y))) (argsort pvals).
Proof.
  unfold argsort_nan, argsort. rewrite length_map, combine_map_snd.
  generalize (combine (seq 0 (length pvals)) pvals) as l.
  induction l as [|x l IH]; [reflexivity|]. cbn [map fold_right fst snd].
  rewrite IH. apply insert_by_p_nan_Some.
Qed.

Lemma cummin_right_nan_Some {A : Type} (f : A -> Q) (l : list A) :
  cummin_right_nan (map (fun x => Some (f x)) l) = map Some (cummin_right (map f l)).
Proof.
  induction l as [|x t IH]; [reflexivity|]. cbn [map cummin_right_nan cummin_right].
  rewrite IH. destruct (cummin_right (map f t)); reflexivity.
Qed.

Lemma fdrcorrection_nan_Some (alpha : Q) (pvals_sorted : list Q) :
  fdrcorrection_nan alpha (map Some pvals_sorted)
  = (fst (fdrcorrection alpha pvals_sorted),
     map Some (snd (fdrcorrection alpha pvals_sorted))).
Proof.
  unfold fdrcorrection_nan, fdrcorrection. cbv zeta. rewrite length_map.
  rewrite combine_map_fst, !map_map. cbn [fst snd option_map].
  rewrite (cummin_right_nan_Some (fun pe : Q * Q => fst pe / snd pe)%Q).
  rewrite !map_map. reflexivity.
Qed.

Lemma unsort_at_In {A : Type} (k : nat) (sortind : list nat) (vals : list A) (v : A) :
  unsort_at k sortind vals = Some v -> In v vals.
Proof.
  revert vals. induction sortind as [|i sortind IH]; intros [|x vals] H;
    cbn [unsort_at] in H; try discriminate.
  destruct (i =? k); [injection H as <-; now left | right; now apply IH].
Qed.

(** On an array without NaN [multipletests] is the correction of its
    values. *)
Lemma multipletests_nan_Some (alpha : Q) (pvals : list Q) :
  multipletests_nan alpha (map Some pvals)
  = match multipletests alpha pvals with
    | Ok (reject, qvals) => Ok (reject, map Some qvals)
    | Raise e => Raise e
    end.
Proof.
  unfold multipletests_nan, multipletests.
  destruct pvals as [|p pvals]; [reflexivity|]. cbn [map].
  change (Some p :: map Some pvals) with (map Some (p :: pvals)).
  set (ps := p :: pvals).
  rewrite argsort_nan_Some, !map_map. cbn [fst snd].
  rewrite <- (map_map snd Some), fdrcorrection_nan_Some.
  pose proof (fdrcorrection_length alpha (map snd (argsort ps))) as HL.
  destruct (fdrcorrection alpha (map snd (argsort ps))) as [R C] eqn:EF.
  cbn [fst snd] in *. f_equal. f_equal.
  assert (HC : length C = length (argsort ps)).
  { pose proof (f_equal snd EF) as HCs. cbn [snd] in HCs. rewrite <- HCs.
    unfold fdrcorrection. cbv zeta. cbn [snd].
    rewrite length_map, cummin_right_length, length_map, length_combine, !length_map,
      length_seq, Nat.min_id. reflexivity. }
  assert (HF : Forall2 (fun c oc => oc = Some c) C (map Some C)).
  { clear. induction C; constructor; auto. }
  pose proof (unsort_related 0%Q None (map fst (argsort ps)) HF) as HU.
  assert (HU' : Forall2 (fun c oc => oc = Some c)
                  (unsort 0%Q (map fst (argsort ps)) C)
                  (unsort None (map fst (argsort ps)) (map Some C))).
  { apply HU.
    - now rewrite length_map, HC.
    - intros k Hk. apply (argsort_covers alpha).
      now rewrite length_map, argsort_length in Hk. }
  assert (Heq : forall (l : list Q) (l' : list (option Q)),
             Forall2 (fun c oc => oc = Some c) l l' -> l' = map Some l).
  { clear. induction 1 as [|c oc l l' Hc _ IH]; [reflexivity|].
    cbn [map]. now rewrite Hc, IH. }
  exact (Heq _ _ HU').
Qed.

Lemma insert_by_p_nan_last (x : nat * option Q) (l l0 : list (nat * option Q)) (i : nat) :
  l = l0 ++ [(i, None)] ->
  exists l1, insert_by_p_nan x l = l1 ++ [(i, None)].
Proof.
  revert l. induction l0 as [|h t IH]; intros l ->; cbn [app insert_by_p_nan].
  - destruct (p_le (snd x) (snd (i, None))) eqn:E.
    + exists [x]. reflexivity.
    + destruct x as [j [a|]]; discriminate.
  - destruct (p_le (snd x) (snd h)).
    + exists (x :: h :: t). reflexivity.
    + destruct (IH _ eq_refl) as [l1 Hl1]. rewrite Hl1. exists (h :: l1). reflexivity.
Qed.

Lemma insert_by_p_nan_end (i : nat) (l : list (nat * option Q)) :
  (forall h, In h l -> snd h <> None) ->
  insert_by_p_nan (i, None) l = l ++ [(i, None)].
Proof.
  induction l as [|h t IH]; intro H; [reflexivity|]. cbn [insert_by_p_nan snd app].
  destruct (snd h) as [a|] eqn:E.
  - cbn [p_le]. rewrite IH; [reflexivity|]. intros h' Hh'. apply H. now right.
  - exfalso. apply (H h); [now left | exact E].
Qed.

(** A sorted array with a NaN ends with a NaN. *)
Lemma argsort_nan_last (pvals : list (option Q)) :
  In None pvals -> exists l1 i, argsort_nan pvals = l1 ++ [(i, None)].
Proof.
  unfold argsort_nan. intro Hin.
  assert (Hc : In None (map snd (combine (seq 0 (length pvals)) pvals))).
  { rewrite MergeFacts.map_snd_combine_seq. exact Hin. }
  revert Hc. generalize (combine (seq 0 (length pvals)) pvals) as l. clear.
  induction l as [|x l IH]; cbn [map fold_right]; [intros []|].
  intro Hin.
  destruct (existsb is_nan (map snd l)) eqn:E.
  - apply existsb_exists in E. destruct E as [o [Ho Hn]]. destruct o; [discriminate|].
    destruct (IH Ho) as [l1 [i Hl]].
    destruct (@insert_by_p_nan_last x _ _ _ Hl) as [l2 Hl2]. eauto.
  - destruct Hin as [Hx|Hin].
    + destruct x as [i o]. cbn [snd] in Hx. subst o. exists (fold_right insert_by_p_nan [] l), i.
      apply insert_by_p_nan_end. intros h Hh Hn.
      assert (Hhl : In h l).
      { clear - Hh. induction l as [|y l IH]; cbn [fold_right] in Hh; [destruct Hh|].
        revert Hh. generalize (fold_right insert_by_p_nan [] l) as s, IH. clear.
        intros s IH. induction s as [|z s IHs]; cbn [insert_by_p_nan].
        - intros [<-|[]]. now left.
        - destruct (p_le (snd y) (snd z)).
          + intros [<-|Hh]; [now left | right; apply IH; exact Hh].
          + intros [<-|Hh]; [right; apply IH; now left|].
            destruct (IHs (fun H => IH (or_intror H)) Hh) as [->|Hl]; [now left | now right]. }
      assert (Hex : existsb is_nan (map snd l) = true).
      { apply existsb_exists. exists None. split; [|reflexivity].
        rewrite <- Hn. now apply in_map. }
      congruence.
    + exfalso. assert (Hex : existsb is_nan (map snd l) = true).
      { apply existsb_exists. exists None. auto. }
      congruence.
Qed.

Lemma cummin_right_nan_last (raw : list (option Q)) :
  forall q, In q (cummin_right_nan (raw ++ [None])) -> q = None.
Proof.
  induction raw as [|x t IH]; cbn [app cummin_right_nan].
  - intros q [<-|[]]. reflexivity.
  - destruct (cummin_right_nan (t ++ [None])) as [|h acc] eqn:E.
    + destruct t; cbn [app cummin_right_nan] in E;
        [discriminate | destruct (cummin_right_nan _); discriminate].
    + assert (Hh : h = None) by (apply IH; now left). subst h.
      intros q [<-|Hq]; [destruct x; reflexivity | now apply IH].
Qed.

Lemma combine_snoc {A B : Type} (l : list A) (l' : list B) (a : A) (b : B) :
  length l = length l' -> combine (l ++ [a]) (l' ++ [b]) = combine l l' ++ [(a, b)].
Proof.
  revert l'. induction l as [|x l IH]; intros [|y l'] H; try discriminate; [reflexivity|].
  cbn [app combine]. rewrite IH; [reflexivity|]. now injection H.
Qed.

(** One NaN among the p-values makes every corrected value NaN. *)
Lemma multipletests_nan_missing (alpha : Q) (pvals : list (option Q))
  (reject : list bool) (qvals : list (option Q)) :
  multipletests_nan alpha pvals = Ok (reject, qvals) -> In None pvals ->
  forall q, In q qvals -> q = None.
Proof.
  unfold multipletests_nan. destruct pvals as [|p0 pvals]; [discriminate|].
  set (ps := p0 :: pvals). intros H Hin.
  destruct (argsort_nan_last ps Hin) as [l1 [i Hs]].
  destruct (fdrcorrection_nan alpha (map snd (argsort_nan ps))) as [R C] eqn:EF.
  injection H as _ <-.
  assert (HC : forall q, In q C -> q = None).
  { pose proof (f_equal snd EF) as HCs. cbn [snd] in HCs. rewrite <- HCs. clear HCs EF.
    rewrite Hs. unfold fdrcorrection_nan. cbv zeta. cbn [snd].
    rewrite map_app. cbn [map snd].
    rewrite length_app, Nat.add_1_r, seq_S, !map_app. cbn [map].
    rewrite combine_snoc by (rewrite !length_map, length_seq; reflexivity).
    rewrite map_app. cbn [map fst option_map].
    intros q Hq. apply in_map_iff in Hq. destruct Hq as [q0 [<- Hq0]].
    apply cummin_right_nan_last in Hq0. now subst. }
  intros q Hq. unfold unsort in Hq. apply in_map_iff in Hq. destruct Hq as [k [Hk _]].
  destruct (unsort_at k _ _) as [v|] eqn:Ev; [|now subst].
  subst v. apply unsort_at_In in Ev. now apply HC.
Qed.

(** What process_fastqtl_results_p8.py writes into the column
    [Significant] when every p-value is a number: in exact arithmetic, the
    test [q <= 0.05], whatever threshold is configured. *)
Lemma Significant_iff_q_value_le_level (FDR_THRESHOLD : Q) (input_file : string)
  (df_raw : list fastqtl_row) (out : p8_output) (log : list string) :
  (forall r, In r df_raw -> P_beta r <> None) ->
  process_fastqtl_results FDR_THRESHOLD input_file (Ok df_raw) = (Returned out, log) ->
  forall r, In r (full_with_qval out) ->
            exists q, Q_value r = Some q /\ (Significant r = true <-> (q <= 5 # 100)%Q).
Proof.
  intro Hobs. unfold process_fastqtl_results.
  destruct df_raw as [|r0 df] eqn:Ed; [discriminate|]. rewrite <- Ed in *.
  assert (Hp : map P_beta df_raw = map Some (dropna (map P_beta df_raw))).
  { clear Ed. induction df_raw as [|x l IH]; [reflexivity|]. cbn [map].
    destruct (P_beta x) as [px|] eqn:Ex.
    - cbn [dropna map]. rewrite <- IH; [reflexivity|]. intros r Hr. apply Hobs. now right.
    - exfalso. apply (Hobs x); [now left | exact Ex]. }
  rewrite Hp, multipletests_nan_Some.
  destruct (multipletests (5 # 100) (dropna (map P_beta df_raw))) as [[reject q]|] eqn:E.
  - assert (Hout : forall o : p8_output,
               (let df_raw0 :=
                  map (fun rqs => {| row := fst (fst rqs); Q_value := snd (fst rqs);
                                     Significant := snd rqs |})
                      (combine (combine df_raw (map Some q)) reject) in
                (Returned {| full_with_qval := df_raw0;
                             df_final_edQTLs :=
                               filter (below_threshold FDR_THRESHOLD) df_raw0 |},
                 @nil string)) = (Returned o, log) ->
               full_with_qval o
               = map (fun rqs => {| row := fst (fst rqs); Q_value := snd (fst rqs);
                                    Significant := snd rqs |})
                     (combine (combine df_raw (map Some q)) reject)).
    { intros o Ho. cbv zeta in Ho. injection Ho as <- _. reflexivity. }
    subst df_raw. intro H. rewrite (Hout _ H). clear Hout H.
    intros r Hin. apply in_map_iff in Hin. destruct Hin as [[[x qv] b] [<- Hin]].
    cbn [Significant Q_value fst snd].
    assert (Hlt : (5 # 100 < 1)%Q) by reflexivity.
    pose proof (multipletests_reject_iff Hlt _ E) as HF.
    apply In_combine_inner in Hin.
    rewrite combine_map_fst in Hin. apply in_map_iff in Hin.
    destruct Hin as [[qv0 b0] [Heq Hin]]. cbn [fst snd] in Heq. injection Heq as <- <-.
    exists qv0. split; [reflexivity|]. exact (Forall2_combine HF _ _ Hin).
  - subst df_raw. discriminate.
Qed.

End BHFacts.

(** ** Site identifiers and the annotation of the consensus matrix *)

Module SiteIDFacts.

Import Phase3Annotation.

Lemma has_char_app (c : ascii) (a b : string) :
  has_char c (a ++ b) = has_char c a || has_char c b.
Proof.
  induction a as [|x a IH]; [reflexivity|].
  cbn [String.append has_char]. rewrite IH. apply orb_assoc.
Qed.

Lemma split_on_absent (sep : ascii) (s : string) :
  has_char sep s = false -> split_on sep s = [s].
Proof.
  induction s as [|a s IH]; [reflexivity|].
  cbn [has_char split_on]. intro H. apply orb_false_iff in H. destruct H as [Ha Hs].
  rewrite Ha, (IH Hs). reflexivity.
Qed.

Lemma split_on_first (sep : ascii) (a b : string) :
  has_char sep a = false -> split_on sep (a ++ String sep b) = a :: split_on sep b.
Proof.
  induction a as [|x a IH]; cbn [String.append has_char split_on].
  - intros _. rewrite Ascii.eqb_refl. reflexivity.
  - intro H. apply orb_false_iff in H. destruct H as [Hx Ha].
    rewrite Hx, (IH Ha). reflexivity.
Qed.

Lemma has_colon_uint (d : Decimal.uint) : has_char ":" (NilEmpty.string_of_uint d) = false.
Proof. induction d; cbn [NilEmpty.string_of_uint has_char]; try rewrite IHd; reflexivity. Qed.

(** [str(z)] holds digits and a sign only. *)
Lemma has_colon_string_of_Z (z : Z) : has_char ":" (string_of_Z z) = false.
Proof.
  unfold string_of_Z. destruct (Z.to_int z) as [d|d]; cbn [NilZero.string_of_int has_char].
  - destruct d; try reflexivity; apply has_colon_uint.
  - destruct d; try reflexivity; cbn [orb Ascii.eqb];
      (apply has_colon_uint || (simpl; apply has_colon_uint)).
Qed.

Lemma to_int_not_nil (z : Z) :
  Z.to_int z <> Decimal.Pos Decimal.Nil /\ Z.to_int z <> Decimal.Neg Decimal.Nil.
Proof.
  destruct z as [|p|p]; simpl; split; try discriminate;
    intro H; injection H; apply DecimalPos.Unsigned.to_uint_nonnil.
Qed.

(** Reading back the decimal literal of an integer gives the integer. *)
Lemma decimal_int_string_of_Z (z : Z) : decimal_int (string_of_Z z) = Some z.
Proof.
  unfold decimal_int, string_of_Z. destruct (to_int_not_nil z) as [Hp Hn].
  rewrite (NilZero.isi _ Hp Hn). simpl. f_equal. apply DecimalZ.of_to.
Qed.

Lemma string_of_Z_inj (a b : Z) : string_of_Z a = string_of_Z b -> a = b.
Proof.
  intro H. pose proof (decimal_int_string_of_Z a) as Ha.
  rewrite H, decimal_int_string_of_Z in Ha. congruence.
Qed.

(** A colon-free chromosome and a decimal position are read back from
    [chr:pos], whatever the other identifier is. *)
Lemma chr_pos_inj (chr chr' : string) (a b : Z) :
  has_char ":" chr = false ->
  (chr ++ ":" ++ string_of_Z a)%string = (chr' ++ ":" ++ string_of_Z b)%string ->
  chr = chr' /\ a = b.
Proof.
  revert chr'. induction chr as [|x chr IH]; intros [|y chr'] Hc H.
  - split; [reflexivity|]. apply string_of_Z_inj. simpl in H. congruence.
  - exfalso. cbn [String.append] in H. injection H as Hy Hs.
    pose proof (has_colon_string_of_Z a) as Hcol. rewrite Hs, has_char_app in Hcol.
    apply orb_false_iff in Hcol. destruct Hcol as [_ Hcol].
    cbn [String.append has_char] in Hcol. rewrite Ascii.eqb_refl in Hcol. discriminate.
  - exfalso. cbn [String.append] in H. injection H as Hx _. subst x.
    cbn [has_char] in Hc. rewrite Ascii.eqb_refl in Hc. discriminate.
  - cbn [String.append] in H. injection H as -> Hs.
    cbn [has_char] in Hc. apply orb_false_iff in Hc. destruct Hc as [_ Hc].
    destruct (IH chr' Hc Hs) as [-> ->]. auto.
Qed.

Lemma split_on_SiteID (chr : string) (pos : Z) (ref alt : string) :
  has_char ":" chr = false ->
  split_on ":" (SiteID chr pos ref alt)
  = chr :: string_of_Z pos :: split_on ":" (ref ++ ">" ++ alt).
Proof.
  intro Hc. unfold SiteID.
  change (chr ++ ":" ++ string_of_Z pos ++ ":" ++ ref ++ ">" ++ alt)%string
    with (chr ++ String ":" (string_of_Z pos ++ String ":" (ref ++ ">" ++ alt)))%string.
  rewrite split_on_first by exact Hc.
  rewrite split_on_first by apply has_colon_string_of_Z.
  reflexivity.
Qed.

Lemma split_on_cons (sep : ascii) (s : string) : exists w ws, split_on sep s = w :: ws.
Proof.
  induction s as [|a s IH]; cbn [split_on]; [eauto|].
  destruct (Ascii.eqb a sep); [eauto|]. destruct IH as [w [ws ->]]. eauto.
Qed.

Lemma known_site_key_SiteID (chr : string) (pos : Z) (ref alt : string) :
  has_char ":" chr = false ->
  known_site_key (SiteID chr pos ref alt) = Some (chr ++ ":" ++ string_of_Z pos)%string.
Proof.
  intro Hc. unfold known_site_key. rewrite split_on_SiteID by exact Hc. reflexivity.
Qed.

Lemma known_site_keys_calls (calls : list (string * Z * string * string)) :
  (forall c, In c calls -> has_char ":" (call_Chr c) = false) ->
  known_site_keys (map call_SiteID calls)
  = Some (map (fun c => (call_Chr c ++ ":" ++ string_of_Z (call_Pos c))%string) calls).
Proof.
  induction calls as [|c calls IH]; intro H; [reflexivity|].
  cbn [map known_site_keys].
  rewrite IH by (intros c' Hc'; apply H; now right).
  destruct c as [[[chr pos] ref] alt]. cbn [call_SiteID].
  rewrite known_site_key_SiteID by (apply (H (chr, pos, ref, alt)); now left).
  reflexivity.
Qed.

Lemma known_site_keys_None (index : list string) (x : string) :
  In x index -> has_char ":" x = false -> known_site_keys index = None.
Proof.
  induction index as [|y index IH]; intros Hin Hx; [destruct Hin|].
  cbn [known_site_keys]. destruct Hin as [->|Hin].
  - unfold known_site_key. rewrite split_on_absent by exact Hx. reflexivity.
  - rewrite (IH Hin Hx). destruct (known_site_key y); reflexivity.
Qed.

Lemma filter_first {A : Type} (p : A -> bool) (l : list A) (x : A) (t : list A) :
  filter p l = x :: t ->
  exists l1 l2, l = l1 ++ x :: l2 /\ (forall y, In y l1 -> p y = false) /\ p x = true.
Proof.
  induction l as [|a l IH]; [discriminate|]. cbn [filter].
  destruct (p a) eqn:Ea.
  - intro H. injection H as -> _. exists [], l. repeat split; [|exact Ea]. intros y [].
  - intro H. destruct (IH H) as [l1 [l2 [-> [Hl1 Hx]]]].
    exists (a :: l1), l2. repeat split; [|exact Hx].
    intros y [<-|Hy]; [exact Ea | now apply Hl1].
Qed.

Lemma filter_none {A : Type} (p : A -> bool) (l : list A) :
  filter p l = [] -> forall y, In y l -> p y = false.
Proof.
  induction l as [|a l IH]; [intros _ y []|]. cbn [filter].
  destruct (p a) eqn:Ea; [discriminate|].
  intros H y [<-|Hy]; [exact Ea | now apply IH].
Qed.

Lemma filter_filter {A : Type} (p q : A -> bool) (l : list A) :
  filter q (filter p l) = filter (fun x => p x && q x) l.
Proof.
  induction l as [|a l IH]; [reflexivity|]. cbn [filter].
  destruct (p a); cbn [filter andb]; rewrite IH; reflexivity.
Qed.

Lemma region_priority_cases (f : gtf_feature) :
  region_priority (gtf_Feature f)
  = if is_feature "CDS" f then 4
    else if is_feature "UTR3" f then 3
    else if is_feature "UTR5" f then 2
    else if is_feature "Exon" f then 1 else 0.
Proof. reflexivity. Qed.

End SiteIDFacts.

Lemma existsb_false {A : Type} (p : A -> bool) (l : list A) :
  existsb p l = false -> forall y, In y l -> p y = false.
Proof.
  induction l as [|a l IH]; [intros _ y []|]. cbn [existsb].
  intro H. apply orb_false_iff in H. destruct H as [Ha Hl].
  intros y [<-|Hy]; [exact Ha | now apply IH].
Qed.

Ltac region_priorities :=
  cbv beta in *;
  rewrite ?SiteIDFacts.region_priority_cases;
  repeat match goal with
         | |- context [Phase3Annotation.is_feature ?l ?f] =>
             let E := fresh "E" in
             destruct (Phase3Annotation.is_feature l f) eqn:E; rewrite ?E in *
         end;
  rewrite ?orb_true_r, ?orb_false_r, ?andb_true_r, ?andb_false_r in *;
  cbn [orb andb] in *; try lia; try congruence.

(** X1: the functional region of a site is decided by the GTF features of
    its chromosome that contain its position.  Without such a feature the
    site is Intergenic; otherwise region and gene are those of the first
    such feature of the highest priority, CDS before UTR3 before UTR5 before
    Exon before any other feature type. *)
Theorem functional_region_first_of_highest_priority
  (gtf_df : list Phase3Annotation.gtf_feature) (chrom : string) (pos : Z) :
  let overlapping := Phase3Annotation.overlapping_features gtf_df chrom pos in
  (forall f, In f overlapping <->
             In f gtf_df /\ Phase3Annotation.gtf_Chr f = chrom
             /\ (Phase3Annotation.gtf_Start f <= pos <= Phase3Annotation.gtf_End f)%Z)
  /\ (overlapping = [] ->
      Phase3Annotation.functional_region gtf_df chrom pos = ("Intergenic", "Intergenic"))
  /\ (overlapping <> [] ->
      exists l1 f l2,
        overlapping = l1 ++ f :: l2
        /\ Phase3Annotation.functional_region gtf_df chrom pos
           = (Phase3Annotation.gtf_Feature f, Phase3Annotation.gtf_Gene f)
        /\ (forall f', In f' l1 ->
              Phase3Annotation.region_priority (Phase3Annotation.gtf_Feature f')
              < Phase3Annotation.region_priority (Phase3Annotation.gtf_Feature f))
        /\ (forall f', In f' l2 ->
              Phase3Annotation.region_priority (Phase3Annotation.gtf_Feature f')
              <= Phase3Annotation.region_priority (Phase3Annotation.gtf_Feature f))).
Proof.
  intro overlapping. split.
  { intro f. unfold overlapping, Phase3Annotation.overlapping_features.
    rewrite !filter_In, andb_true_iff, String.eqb_eq, !Z.leb_le. tauto. }
  unfold Phase3Annotation.functional_region. cbv zeta.
  change (Phase3Annotation.overlapping_features gtf_df chrom pos) with overlapping.
  clearbody overlapping. split; [intros ->; reflexivity|].
  intro Hne. destruct overlapping as [|first rest] eqn:Eo; [congruence|]. clear Hne.
  cbv beta iota.
  set (ov := first :: rest) in *.
  destruct (filter (Phase3Annotation.is_feature "CDS") ov) as [|cds t] eqn:Ecds.
  - pose proof (SiteIDFacts.filter_none _ _ Ecds) as Hcds.
    destruct (filter (fun f => Phase3Annotation.is_feature "UTR5" f
                               || Phase3Annotation.is_feature "UTR3" f) ov)
      as [|u0 ut] eqn:Eutr.
    + pose proof (SiteIDFacts.filter_none _ _ Eutr) as Hutr.
      destruct (filter (Phase3Annotation.is_feature "Exon") ov) as [|exon t] eqn:Eex.
      * pose proof (SiteIDFacts.filter_none _ _ Eex) as Hex.
        exists [], first, rest. split; [reflexivity|]. split; [reflexivity|].
        split; [intros f' []|].
        intros f' Hf'.
        assert (Hin : In f' ov) by (right; exact Hf').
        assert (Hin1 : In first ov) by (left; reflexivity).
        pose proof (Hcds _ Hin). pose proof (Hutr _ Hin). pose proof (Hex _ Hin).
        pose proof (Hcds _ Hin1). pose proof (Hutr _ Hin1). pose proof (Hex _ Hin1).
        region_priorities.
      * destruct (SiteIDFacts.filter_first _ _ Eex) as [l1 [l2 [Hov [Hl1 Hx]]]].
        exists l1, exon, l2. split; [exact Hov|].
        assert (Hine : In exon ov) by (rewrite Hov; apply in_elt).
        pose proof (Hcds _ Hine). pose proof (Hutr _ Hine).
        split; [f_equal; symmetry; apply String.eqb_eq; exact Hx|].
        split; intros f' Hf'.
        -- assert (Hin : In f' ov) by (rewrite Hov; apply in_or_app; now left).
           pose proof (Hcds _ Hin). pose proof (Hutr _ Hin). pose proof (Hl1 _ Hf').
           region_priorities.
        -- assert (Hin : In f' ov) by (rewrite Hov; apply in_or_app; right; now right).
           pose proof (Hcds _ Hin). pose proof (Hutr _ Hin).
           region_priorities.
    + destruct (existsb (Phase3Annotation.is_feature "UTR3") (u0 :: ut)) eqn:E3.
      * rewrite <- Eutr, SiteIDFacts.filter_filter.
        match goal with
        | |- context [filter ?p ov] => destruct (filter p ov) as [|u t] eqn:Eu
        end.
        -- exfalso. apply existsb_exists in E3. destruct E3 as [x [Hx H3]].
           rewrite <- Eutr in Hx. apply filter_In in Hx. destruct Hx as [Hx Hp].
           pose proof (SiteIDFacts.filter_none _ _ Eu _ Hx) as Hn. cbv beta in Hn.
           rewrite Hp, H3 in Hn. discriminate.
        -- destruct (SiteIDFacts.filter_first _ _ Eu) as [l1 [l2 [Hov [Hl1 Hx]]]].
           cbv beta in Hx. apply andb_true_iff in Hx. destruct Hx as [_ Hx].
           exists l1, u, l2. split; [exact Hov|].
           assert (Hinu : In u ov) by (rewrite Hov; apply in_elt).
           pose proof (Hcds _ Hinu).
           split; [f_equal; symmetry; apply String.eqb_eq; exact Hx|].
           split; intros f' Hf'.
           ++ assert (Hin : In f' ov) by (rewrite Hov; apply in_or_app; now left).
              pose proof (Hcds _ Hin). pose proof (Hl1 _ Hf') as Hn. cbv beta in Hn.
              region_priorities.
           ++ assert (Hin : In f' ov) by (rewrite Hov; apply in_or_app; right; now right).
              pose proof (Hcds _ Hin).
              region_priorities.
      * pose proof (existsb_false _ _ E3) as Hno3.
        assert (H3 : forall y, In y ov -> Phase3Annotation.is_feature "UTR3" y = false).
        { intros y Hy. destruct (Phase3Annotation.is_feature "UTR3" y) eqn:Ey; [|reflexivity].
          rewrite <- (Hno3 y); [symmetry; exact Ey|].
          rewrite <- Eutr. apply filter_In. split; [exact Hy|].
          rewrite Ey. apply orb_true_r. }
        rewrite <- Eutr, SiteIDFacts.filter_filter.
        match goal with
        | |- context [filter ?p ov] => destruct (filter p ov) as [|u t] eqn:Eu
        end.
        -- exfalso.
           assert (Hu0 : In u0 (filter (fun f => Phase3Annotation.is_feature "UTR5" f
                                                 || Phase3Annotation.is_feature "UTR3" f) ov))
             by (rewrite Eutr; now left).
           apply filter_In in Hu0. destruct Hu0 as [Hu0 Hp].
           pose proof (SiteIDFacts.filter_none _ _ Eu _ Hu0) as Hn. cbv beta in Hn.
           pose proof (H3 _ Hu0) as H30. rewrite H30 in Hp, Hn.
           rewrite orb_false_r in Hp, Hn. rewrite Hp in Hn. discriminate.
        -- destruct (SiteIDFacts.filter_first _ _ Eu) as [l1 [l2 [Hov [Hl1 Hx]]]].
           cbv beta in Hx. apply andb_true_iff in Hx. destruct Hx as [_ Hx].
           exists l1, u, l2. split; [exact Hov|].
           assert (Hinu : In u ov) by (rewrite Hov; apply in_elt).
           pose proof (Hcds _ Hinu). pose proof (H3 _ Hinu).
           split; [f_equal; symmetry; apply String.eqb_eq; exact Hx|].
           split; intros f' Hf'.
           ++ assert (Hin : In f' ov) by (rewrite Hov; apply in_or_app; now left).
              pose proof (Hcds _ Hin). pose proof (H3 _ Hin).
              pose proof (Hl1 _ Hf') as Hn. cbv beta in Hn.
              region_priorities.
           ++ assert (Hin : In f' ov) by (rewrite Hov; apply in_or_app; right; now right).
              pose proof (Hcds _ Hin). pose proof (H3 _ Hin).
              region_priorities.
  - destruct (SiteIDFacts.filter_first _ _ Ecds) as [l1 [l2 [Hov [Hl1 Hx]]]].
    exists l1, cds, l2. split; [exact Hov|].
    split; [f_equal; symmetry; apply String.eqb_eq; exact Hx|].
    split; intros f' Hf'.
    + pose proof (Hl1 _ Hf'). region_priorities.
    + region_priorities.
Qed.

(** X2: for site IDs built as [Chr:Pos:Ref>Alt] from chromosomes without a
    colon, and a REDIPortal table that loads, every site gets a status and
    no warning is printed: a site is Known exactly when the table has a row
    of its chromosome whose 0-based start plus one is its position, and
    Novel otherwise. *)
Theorem rediportal_status_known_iff_position_listed
  (calls : list (string * Z * string * string)) (rediportal_sites : list (string * Z)) :
  (forall c, In c calls -> Phase3Annotation.has_char ":" (call_Chr c) = false) ->
  exists statuses,
    Phase3Annotation.annotate_rediportal_status (map call_SiteID calls) (Ok rediportal_sites)
    = (combine (map call_SiteID calls) statuses, [])
    /\ Forall2 (fun c status =>
                  (status = "Known"
                   /\ exists b, In b rediportal_sites /\ fst b = call_Chr c
                                /\ (snd b + 1)%Z = call_Pos c)
                  \/ (status = "Novel"
                      /\ forall b, In b rediportal_sites -> fst b = call_Chr c ->
                                   (snd b + 1)%Z <> call_Pos c))
               calls statuses.
Proof.
  intro Hc. unfold Phase3Annotation.annotate_rediportal_status.
  rewrite (SiteIDFacts.known_site_keys_calls calls Hc).
  set (known := map Phase3Annotation.KnownID rediportal_sites).
  set (key := fun c : string * Z * string * string =>
                (call_Chr c ++ ":" ++ string_of_Z (call_Pos c))%string).
  exists (map (fun c => if existsb (String.eqb (key c)) known then "Known" else "Novel") calls).
  split.
  - f_equal. clear Hc. induction calls as [|c calls IH]; [reflexivity|].
    cbn [map combine fst snd]. rewrite IH. reflexivity.
  - induction calls as [|c calls IH]; [constructor|].
    cbn [map]. constructor.
    + assert (Hcc : Phase3Annotation.has_char ":" (call_Chr c) = false)
        by (apply Hc; now left).
      destruct (existsb (String.eqb (key c)) known) eqn:E.
      * left. split; [reflexivity|].
        apply existsb_exists in E. destruct E as [x [Hx He]].
        apply String.eqb_eq in He. subst x.
        apply in_map_iff in Hx. destruct Hx as [b [Hb Hin]].
        exists b. split; [exact Hin|].
        unfold Phase3Annotation.KnownID, key in Hb. symmetry in Hb.
        destruct (SiteIDFacts.chr_pos_inj _ _ _ _ Hcc Hb) as [H1 H2]. auto.
      * right. split; [reflexivity|]. intros b Hb Hchr Hpos.
        pose proof (existsb_false _ _ E (Phase3Annotation.KnownID b)) as Hn.
        rewrite String.eqb_neq in Hn. apply Hn.
        -- apply in_map. exact Hb.
        -- unfold key, Phase3Annotation.KnownID. rewrite Hchr, Hpos. reflexivity.
    + apply IH. intros c' Hc'. apply Hc. now right.
Qed.

Lemma rediportal_status_known_iff_position_listed_witness :
  exists statuses,
    Phase3Annotation.annotate_rediportal_status (map call_SiteID example_calls)
      (Ok [("1", 149%Z)])
    = (combine (map call_SiteID example_calls) statuses, [])
    /\ Forall2 (fun c status =>
                  (status = "Known"
                   /\ exists b, In b [("1", 149%Z)] /\ fst b = call_Chr c
                                /\ (snd b + 1)%Z = call_Pos c)
                  \/ (status = "Novel"
                      /\ forall b, In b [("1", 149%Z)] -> fst b = call_Chr c ->
                                   (snd b + 1)%Z <> call_Pos c))
               example_calls statuses.
Proof.
  apply (@rediportal_status_known_iff_position_listed example_calls [("1", 149%Z)]).
  intros c [<-|[<-|[]]]; reflexivity.
Defined.

(** X3: the REDIPortal lookup is all or nothing: when the table cannot be
    loaded, or when a single site ID of the matrix holds no colon, every
    site of the matrix stays Novel and exactly one warning is printed. *)
Theorem rediportal_failure_leaves_every_site_novel
  (index : list string) (rediportal_bed : result (list (string * Z))) (x : string) :
  (exists e, rediportal_bed = Raise e)
  \/ (In x index /\ Phase3Annotation.has_char ":" x = false) ->
  exists warning,
    Phase3Annotation.annotate_rediportal_status index rediportal_bed
    = (map (fun x => (x, "Novel")) index, [warning]).
Proof.
  intros [[e ->]|[Hin Hx]]; unfold Phase3Annotation.annotate_rediportal_status.
  - eexists. reflexivity.
  - destruct rediportal_bed as [rows|e]; [|eexists; reflexivity].
    rewrite (SiteIDFacts.known_site_keys_None index x Hin Hx). eexists. reflexivity.
Qed.

Lemma rediportal_failure_leaves_every_site_novel_witness :
  exists warning,
    Phase3Annotation.annotate_rediportal_status ["1:150:A>G"; "scaffold7"]
      (Ok [("1", 149%Z)])
    = (map (fun x => (x, "Novel")) ["1:150:A>G"; "scaffold7"], [warning]).
Proof.
  apply (@rediportal_failure_leaves_every_site_novel
           ["1:150:A>G"; "scaffold7"] (Ok [("1", 149%Z)]) "scaffold7").
  right. split; [right; left; reflexivity | reflexivity].
Defined.

(** X4: the site IDs the loader builds are read back by the annotation: for
    at least one call, on chromosomes without a colon, the functional
    annotation of the matrix indexed by the calls' site IDs succeeds and
    gives every site the region and gene of its own chromosome and position. *)
Theorem functional_annotation_reads_back_site_ids
  (int : string -> option Z) (calls : list (string * Z * string * string))
  (gtf_df : list Phase3Annotation.gtf_feature) :
  (forall z, int (string_of_Z z) = Some z) ->
  calls <> [] ->
  (forall c, In c calls -> Phase3Annotation.has_char ":" (call_Chr c) = false) ->
  Phase3Annotation.annotate_functional_region int (map call_SiteID calls) gtf_df
  = Some (map (fun c => (call_SiteID c,
                         Phase3Annotation.functional_region gtf_df (call_Chr c) (call_Pos c)))
              calls).
Proof.
  intros Hint Hne Hc.
  assert (Hloop : Phase3Annotation.site_annotations int (map call_SiteID calls) gtf_df
                  = Some (map (fun c => (call_SiteID c,
                                         Phase3Annotation.functional_region gtf_df
                                           (call_Chr c) (call_Pos c)))
                              calls)).
  { clear Hne. induction calls as [|c calls IH]; [reflexivity|].
    cbn [map Phase3Annotation.site_annotations].
    rewrite IH by (intros c' Hc'; apply Hc; now right).
    assert (Hcc : Phase3Annotation.has_char ":" (call_Chr c) = false)
      by (apply Hc; now left).
    destruct c as [[[chr pos] ref] alt]. cbn [call_SiteID call_Chr call_Pos fst snd] in *.
    unfold Phase3Annotation.site_position.
    rewrite SiteIDFacts.split_on_SiteID by exact Hcc.
    rewrite Hint. reflexivity. }
  unfold Phase3Annotation.annotate_functional_region.
  destruct calls as [|c calls]; [congruence|]. exact Hloop.
Qed.

Lemma functional_annotation_reads_back_site_ids_witness :
  Phase3Annotation.annotate_functional_region decimal_int (map call_SiteID example_calls)
    example_gtf
  = Some (map (fun c => (call_SiteID c,
                         Phase3Annotation.functional_region example_gtf
                           (call_Chr c) (call_Pos c)))
              example_calls).
Proof.
  apply (@functional_annotation_reads_back_site_ids decimal_int example_calls example_gtf).
  - exact SiteIDFacts.decimal_int_string_of_Z.
  - discriminate.
  - intros c [<-|[<-|[]]]; reflexivity.
Defined.

(** X5: the functional annotation converts the positions of all sites
    before it annotates any: it fails exactly when the matrix has no site or
    some site ID has no second colon-separated field or one that is no
    integer, and otherwise returns one entry per site, in the order of the
    matrix. *)
Theorem functional_annotation_all_or_nothing
  (int : string -> option Z) (index : list string)
  (gtf_df : list Phase3Annotation.gtf_feature) :
  (Phase3Annotation.annotate_functional_region int index gtf_df = None <->
   index = [] \/ exists x, In x index /\ Phase3Annotation.site_position int x = None)
  /\ (forall out,
        Phase3Annotation.annotate_functional_region int index gtf_df = Some out ->
        map fst out = index).
Proof.
  assert (Hloop :
            (Phase3Annotation.site_annotations int index gtf_df = None <->
             exists x, In x index /\ Phase3Annotation.site_position int x = None)
            /\ (forall out,
                  Phase3Annotation.site_annotations int index gtf_df = Some out ->
                  map fst out = index)).
  { induction index as [|x index [IH1 IH2]]; cbn [Phase3Annotation.site_annotations].
    - split; [split; [discriminate | intros [x [[] _]]]|].
      intros out H. injection H as <-. reflexivity.
    - destruct (Phase3Annotation.site_position int x) as [[chrom pos]|] eqn:Ex.
      + destruct (Phase3Annotation.site_annotations int index gtf_df) as [rest|].
        * split.
          -- split; [discriminate|]. intros [y [[<-|Hy] Hn]]; [congruence|].
             assert (Hf : Some rest = None) by (apply IH1; eauto). discriminate.
          -- intros out H. injection H as <-. cbn [map fst]. f_equal. now apply IH2.
        * split; [|discriminate]. split; [|reflexivity]. intros _.
          destruct (proj1 IH1 eq_refl) as [y [Hy Hn]]. exists y. split; [now right | exact Hn].
      + split; [|discriminate]. split; [|reflexivity]. intros _.
        exists x. split; [now left | exact Ex]. }
  destruct Hloop as [H1 H2]. unfold Phase3Annotation.annotate_functional_region.
  destruct index as [|x index].
  - split; [split; [now left | reflexivity] | discriminate].
  - split; [|exact H2]. rewrite H1. split; [now right|].
    intros [Hnil|Hex]; [discriminate | exact Hex].
Qed.

(** ** Per-gene normalisation across cell types *)

(** X6: the per-gene normaliser ends with status 1 and a single FATAL ERROR
    line exactly when the input matrix cannot be loaded or none of its genes
    has the configured number of quantified samples; in every other case it
    returns a matrix and prints nothing to stderr. *)
Theorem phase6_normalization_fatal_iff_no_gene_passes
  (V : Type) (norm_ppf : Q -> V) (min_quantifiable_samples : Z) (input_matrix : string)
  (read : result (Phase6Run.gene_matrix Q)) :
  let run := Phase6Run.run_phase6_normalization norm_ppf min_quantifiable_samples
               input_matrix read in
  let fatal :=
    (exists e, read = Raise e)
    \/ (exists df, read = Ok df
                   /\ forall row, In row (Phase6Run.genes df) ->
                                  (Phase6Run.Quantified_Samples_Count row
                                   < min_quantifiable_samples)%Z) in
  (fatal /\ fst run = SysExit 1
   /\ exists msg, snd run = [msg] /\ str_prefix "FATAL ERROR" msg = true)
  \/ (~ fatal /\ exists out, run = (Returned out, [])).
Proof.
  cbv zeta. unfold Phase6Run.run_phase6_normalization.
  destruct read as [df|e].
  - destruct (filter _ (Phase6Run.genes df)) as [|row rows] eqn:Ef.
    + left. split; [|split; [reflexivity | eexists; split; reflexivity]].
      right. exists df. split; [reflexivity|]. intros row Hrow.
      pose proof (SiteIDFacts.filter_none _ _ Ef row Hrow) as Hn. cbv beta in Hn.
      apply Z.leb_gt in Hn. exact Hn.
    + right. split; [|eexists; reflexivity].
      intros [[e He]|[df' [Hdf Hall]]]; [discriminate|].
      injection Hdf as <-.
      assert (Hin : In row (filter (fun row0 =>
                       (min_quantifiable_samples <=? Phase6Run.Quantified_Samples_Count row0)%Z)
                     (Phase6Run.genes df))) by (rewrite Ef; now left).
      apply filter_In in Hin. destruct Hin as [Hin Hle]. apply Z.leb_le in Hle.
      specialize (Hall row Hin). lia.
  - left. split; [left; eauto|]. split; [reflexivity|].
    eexists. split; reflexivity.
Qed.

(** X7: with a minimum of at least two quantified samples and a gene that
    has them, the per-gene normaliser returns the genes that have the
    minimum, in their input order and no others; every returned row has one
    cell per trait cell of its input row and is missing at exactly the
    positions where the input row is missing. *)
Theorem phase6_normalization_keeps_genes_and_missing_cells
  (V : Type) (norm_ppf : Q -> V) (min_quantifiable_samples : Z) (input_matrix : string)
  (df : Phase6Run.gene_matrix Q) :
  (2 <= min_quantifiable_samples)%Z ->
  (exists row, In row (Phase6Run.genes df)
               /\ (min_quantifiable_samples <= Phase6Run.Quantified_Samples_Count row)%Z) ->
  exists out,
    Phase6Run.run_phase6_normalization norm_ppf min_quantifiable_samples input_matrix (Ok df)
    = (Returned out, [])
    /\ Forall2 (fun row orow =>
                  fst orow = fst row
                  /\ length (snd orow) = length (snd row)
                  /\ forall i, nth_error (snd orow) i = Some None
                               <-> nth_error (snd row) i = Some None)
               (filter (fun row => (min_quantifiable_samples
                                    <=? Phase6Run.Quantified_Samples_Count row)%Z)
                       (Phase6Run.genes df))
               (Phase6Run.genes out).
Proof.
  intros Hmin [row0 [Hin0 Hc0]]. unfold Phase6Run.run_phase6_normalization.
  set (keep := fun row : string * list (option Q) =>
                 (min_quantifiable_samples <=? Phase6Run.Quantified_Samples_Count row)%Z).
  assert (Hk0 : In row0 (filter keep (Phase6Run.genes df)))
    by (apply filter_In; split; [exact Hin0 | apply Z.leb_le; exact Hc0]).
  assert (Hall : forall row, In row (filter keep (Phase6Run.genes df)) ->
                             2 <= length (dropna (snd row))).
  { intros row Hrow. apply filter_In in Hrow. destruct Hrow as [_ Hle].
    apply Z.leb_le in Hle. unfold Phase6Run.Quantified_Samples_Count in Hle. lia. }
  destruct (filter keep (Phase6Run.genes df)) as [|r rs] eqn:Ef; [destruct Hk0|].
  eexists. split; [reflexivity|]. cbn [Phase6Run.genes].
  clear Ef Hk0. revert Hall. generalize (r :: rs). intros l Hall.
  induction l as [|row l IH]; [constructor|].
  cbn [map]. constructor.
  - cbn [fst snd].
    pose proof (inverse_normal_transformation_missing norm_ppf (snd row)) as Hm.
    cbv zeta in Hm. destruct Hm as [Hlen [Hnone [Hsome _]]].
    split; [reflexivity|]. split; [exact Hlen|].
    intro i. split; [|apply Hnone].
    intro Ho. destruct (nth_error (snd row) i) as [[x|]|] eqn:Ei.
    + destruct (Hsome (Hall row (or_introl eq_refl)) i x Ei) as [v Hv].
      pose proof (eq_trans (eq_sym Ho) Hv) as Hx. discriminate Hx.
    + reflexivity.
    + apply nth_error_None in Ei.
      assert (Hlt : i < length (RankNormalizer.inverse_normal_transformation norm_ppf (snd row))).
      { apply nth_error_Some. intro Hx. pose proof (eq_trans (eq_sym Ho) Hx) as Hy.
        discriminate Hy. }
      lia.
  - apply IH. intros row' Hrow'. apply Hall. now right.
Qed.

Lemma phase6_normalization_keeps_genes_and_missing_cells_witness :
  exists out,
    Phase6Run.run_phase6_normalization (fun q : Q => q) 2 "gene_matrix_p5.tsv"
      (Ok example_gene_matrix)
    = (Returned out, [])
    /\ Forall2 (fun row orow =>
                  fst orow = fst row
                  /\ length (snd orow) = length (snd row)
                  /\ forall i, nth_error (snd orow) i = Some None
                               <-> nth_error (snd row) i = Some None)
               (filter (fun row => (2 <=? Phase6Run.Quantified_Samples_Count row)%Z)
                       (Phase6Run.genes example_gene_matrix))
               (Phase6Run.genes out).
Proof.
  apply (@phase6_normalization_keeps_genes_and_missing_cells
           Q (fun q : Q => q) 2 "gene_matrix_p5.tsv" example_gene_matrix).
  - lia.
  - exists ("APP", [Some (1 # 10); Some (3 # 10); None]).
    split; [left; reflexivity | vm_compute; discriminate].
Defined.

(** ** The Phase-4 quantifier: global filters, coverage mask and outcomes *)

Module QuantifierFacts.

Import Phase4.

Lemma fold_min_abs (pos : Z) (t : list Z) (acc : Z) :
  let d := fold_left (fun m j' => Z.min m (Z.abs (j' - pos))) t acc in
  (d = acc \/ exists j, In j t /\ d = Z.abs (j - pos))
  /\ (d <= acc)%Z
  /\ forall j, In j t -> (d <= Z.abs (j - pos))%Z.
Proof.
  cbv zeta. revert acc. induction t as [|j t IH]; intro acc; cbn [fold_left].
  - split; [now left|]. split; [lia | intros j []].
  - destruct (IH (Z.min acc (Z.abs (j - pos)))) as [Hd [Hle Hall]].
    split; [|split].
    + destruct Hd as [Hd|[j' [Hj' Hd]]].
      * destruct (Z.min_spec acc (Z.abs (j - pos))) as [[_ Hm]|[_ Hm]].
        -- left. rewrite Hd. exact Hm.
        -- right. exists j. split; [now left|]. rewrite Hd. exact Hm.
      * right. exists j'. split; [now right | exact Hd].
    + lia.
    + intros j' [<-|Hj']; [lia | now apply Hall].
Qed.

(** The distance to the nearest junction of a non-empty junction list. *)
Lemma min_abs_dist_nearest (pos : Z) (junctions : list Z) :
  junctions <> [] ->
  (exists j, In j junctions /\ min_abs_dist pos junctions = Z.abs (j - pos))
  /\ forall j, In j junctions -> (min_abs_dist pos junctions <= Z.abs (j - pos))%Z.
Proof.
  destruct junctions as [|j0 t]; [congruence|]. intros _. unfold min_abs_dist.
  destruct (fold_min_abs pos t (Z.abs (j0 - pos))) as [Hd [Hle Hall]]. cbv zeta in *.
  split.
  - destruct Hd as [Hd|[j [Hj Hd]]].
    + exists j0. split; [now left | exact Hd].
    + exists j. split; [now right | exact Hd].
  - intros j [<-|Hj]; [exact Hle | now apply Hall].
Qed.








End QuantifierFacts.

Section QuantifierProperties.

Variable fetch : string -> Z -> result (list Phase4.vcf_record).
Variable GTF_JUNCTION_MAP : result (list (string * list Z)).
Variable pileup : string -> Phase4.site -> result (Z * Z).
Variable BAM_FILES : list (string * string).

(** X8: the global status of a processed site is GermlineSNP, PASS or the
    splice-junction label of the configured threshold, and nothing else.  It
    is GermlineSNP exactly when the VCF query finds a germline genotype; a
    VCF query that fails therefore never filters the site, and a GTF that
    cannot be loaded switches the splice-junction filter off. *)
Theorem global_filter_status_values (thr : Z) (s : Phase4.site) :
  let status := Phase4.GlobalFilterStatus (Phase4.annotate fetch GTF_JUNCTION_MAP thr s) in
  let sj_label := ("SJ_Filtered_<" ++ string_of_Z thr ++ "bp")%string in
  (status = "GermlineSNP" \/ status = "PASS" \/ status = sj_label)
  /\ (status = "GermlineSNP" <-> fst (Phase4.check_germline_status fetch s) = true)
  /\ ((exists e, fetch (Phase4.Chr s) (Phase4.Pos s) = Raise e) ->
      status = "PASS" \/ status = sj_label)
  /\ ((exists e, GTF_JUNCTION_MAP = Raise e) ->
      status = "GermlineSNP" \/ status = "PASS").
Proof.
  cbv zeta. unfold Phase4.annotate.
  assert (Hsj : forall g,
             Phase4.parse_gtf_and_get_annotation GTF_JUNCTION_MAP thr s = g ->
             (if str_prefix "SJ_Filtered" (Phase4.annot_GlobalFilterStatus g)
              then Phase4.annot_GlobalFilterStatus g else "PASS")
             = "PASS"
             \/ (if str_prefix "SJ_Filtered" (Phase4.annot_GlobalFilterStatus g)
                 then Phase4.annot_GlobalFilterStatus g else "PASS")
                = ("SJ_Filtered_<" ++ string_of_Z thr ++ "bp")%string).
  { intros g <-. unfold Phase4.parse_gtf_and_get_annotation.
    destruct GTF_JUNCTION_MAP as [m|e]; [|left; reflexivity].
    destruct (Phase4.lookup_junctions _ m) as [js|]; [|left; reflexivity].
    destruct (_ <=? thr)%Z; [right | left]; reflexivity. }
  assert (Hne : forall g,
             (if str_prefix "SJ_Filtered" (Phase4.annot_GlobalFilterStatus g)
              then Phase4.annot_GlobalFilterStatus g else "PASS") <> "GermlineSNP").
  { intro g. destruct (str_prefix "SJ_Filtered" (Phase4.annot_GlobalFilterStatus g)) eqn:E;
      [|discriminate].
    intro H. rewrite H in E. discriminate. }
  unfold Phase4.check_germline_status.
  destruct (fetch (Phase4.Chr s) (Phase4.Pos s)) as [recs|e] eqn:Ef; cbn [bind].
  - destruct (Phase4.scan_records (Phase4.Ref s) (Phase4.Alt s) recs) as [[|]|e];
      cbn [Phase4.GlobalFilterStatus fst].
    + split; [now left|]. split; [tauto|]. split; [intros [e He]; discriminate|]. now left.
    + pose proof (Hsj _ eq_refl) as H. pose proof (Hne (Phase4.parse_gtf_and_get_annotation
                                                         GTF_JUNCTION_MAP thr s)) as Hn.
      split; [tauto|]. split; [split; [contradiction | discriminate]|].
      split; [intros _; exact H|].
      intros [e He]. right. unfold Phase4.parse_gtf_and_get_annotation. rewrite He. reflexivity.
    + pose proof (Hsj _ eq_refl) as H. pose proof (Hne (Phase4.parse_gtf_and_get_annotation
                                                         GTF_JUNCTION_MAP thr s)) as Hn.
      split; [tauto|]. split; [split; [contradiction | discriminate]|].
      split; [intros _; exact H|].
      intros [e' He]. right. unfold Phase4.parse_gtf_and_get_annotation. rewrite He. reflexivity.
  - cbn [Phase4.GlobalFilterStatus fst].
    pose proof (Hsj _ eq_refl) as H. pose proof (Hne (Phase4.parse_gtf_and_get_annotation
                                                       GTF_JUNCTION_MAP thr s)) as Hn.
    split; [tauto|]. split; [split; [contradiction | discriminate]|].
    split; [intros _; exact H|].
    intros [e' He]. right. unfold Phase4.parse_gtf_and_get_annotation. rewrite He. reflexivity.
Qed.


End QuantifierProperties.

(** X10: the splice-junction filter.  For a site on a chromosome with
    annotated junctions, the reported distance is the distance to the
    nearest junction; the site is labelled splice-junction filtered exactly
    when some junction lies within the threshold (the threshold itself
    included), and PASS exactly when every junction is farther away. *)
Theorem splice_filter_iff_junction_within_threshold
  (m : list (string * list Z)) (thr : Z) (s : Phase4.site) (junctions : list Z) :
  Phase4.lookup_junctions (str_remove_all "chr" (Phase4.Chr s)) m = Some junctions ->
  junctions <> [] ->
  let annot := Phase4.parse_gtf_and_get_annotation (Ok m) thr s in
  (exists j, In j junctions
             /\ Phase4.annot_MinDistToSplice annot = Z.abs (j - Phase4.Pos s))
  /\ (forall j, In j junctions ->
                (Phase4.annot_MinDistToSplice annot <= Z.abs (j - Phase4.Pos s))%Z)
  /\ (Phase4.annot_GlobalFilterStatus annot
      = ("SJ_Filtered_<" ++ string_of_Z thr ++ "bp")%string
      <-> exists j, In j junctions /\ (Z.abs (j - Phase4.Pos s) <= thr)%Z)
  /\ (Phase4.annot_GlobalFilterStatus annot = "PASS"
      <-> forall j, In j junctions -> (thr < Z.abs (j - Phase4.Pos s))%Z).
Proof.
  intros Hl Hne. cbv zeta. unfold Phase4.parse_gtf_and_get_annotation. rewrite Hl.
  destruct (QuantifierFacts.min_abs_dist_nearest (Phase4.Pos s) Hne) as [[j0 [Hj0 Hd]] Hall].
  destruct (Z.leb_spec (Phase4.min_abs_dist (Phase4.Pos s) junctions) thr) as [Hle|Hgt];
    cbn [Phase4.annot_MinDistToSplice Phase4.annot_GlobalFilterStatus].
  - split; [exists j0; auto|]. split; [exact Hall|]. split.
    + split; [|reflexivity]. intros _. exists j0. split; [exact Hj0 | lia].
    + split; [discriminate|]. intro H. specialize (H j0 Hj0). lia.
  - split; [exists j0; auto|]. split; [exact Hall|]. split.
    + split; [discriminate|]. intros [j [Hj Hjle]]. specialize (Hall j Hj). lia.
    + split; [|reflexivity]. intros _ j Hj. specialize (Hall j Hj). lia.
Qed.

Lemma splice_filter_iff_junction_within_threshold_witness :
  let annot := Phase4.parse_gtf_and_get_annotation (Ok [("1", [995; 6000]%Z)]) 4 site_pass in
  (exists j, In j [995; 6000]%Z
             /\ Phase4.annot_MinDistToSplice annot = Z.abs (j - Phase4.Pos site_pass))
  /\ (forall j, In j [995; 6000]%Z ->
                (Phase4.annot_MinDistToSplice annot <= Z.abs (j - Phase4.Pos site_pass))%Z)
  /\ (Phase4.annot_GlobalFilterStatus annot
      = ("SJ_Filtered_<" ++ string_of_Z 4 ++ "bp")%string
      <-> exists j, In j [995; 6000]%Z /\ (Z.abs (j - Phase4.Pos site_pass) <= 4)%Z)
  /\ (Phase4.annot_GlobalFilterStatus annot = "PASS"
      <-> forall j, In j [995; 6000]%Z -> (4 < Z.abs (j - Phase4.Pos site_pass))%Z).
Proof.
  apply (@splice_filter_iff_junction_within_threshold
           [("1", [995; 6000]%Z)] 4 site_pass [995; 6000]%Z).
  - reflexivity.
  - discriminate.
Defined.

(** X11: the coverage mask.  With a minimum coverage of at least one read
    and a pileup that reports [total] reads of which [variant] carry the
    edited base, the quantification does not fail and the read counts are
    passed on as they are; the site is quantified (status PASS, a defined
    editing ratio) exactly when [total >= min_coverage] and masked (status
    LowCoverage, ratio NA) otherwise; a defined ratio is [variant / total]
    and lies between 0 and 1. *)
Theorem coverage_mask_and_editing_ratio
  (pileup : string -> Phase4.site -> result (Z * Z)) (min_coverage : Z)
  (bam_path : string) (s : Phase4.site) (total variant : Z) :
  pileup bam_path s = Ok (total, variant) ->
  (1 <= min_coverage)%Z ->
  (0 <= variant <= total)%Z ->
  exists m status,
    Phase4.quantify_site_per_bam pileup min_coverage bam_path s = Ok (m, status)
    /\ Phase4.TotalReads m = total /\ Phase4.VariantReads m = variant
    /\ (status = "PASS" <-> (min_coverage <= total)%Z)
    /\ (status = "LowCoverage" <-> (total < min_coverage)%Z)
    /\ (Phase4.EditingRatio m = None <-> (total < min_coverage)%Z)
    /\ (forall q, Phase4.EditingRatio m = Some q ->
                  (q * inject_Z total == inject_Z variant)%Q /\ (0 <= q <= 1)%Q).
Proof.
  intros Hp Hmin Hv. unfold Phase4.quantify_site_per_bam. rewrite Hp.
  destruct (Z.ltb_spec total min_coverage) as [Hlt|Hge].
  - eexists. eexists. split; [reflexivity|].
    cbn [Phase4.TotalReads Phase4.VariantReads Phase4.EditingRatio].
    repeat split; try tauto; try discriminate; try (intros; lia).
  - destruct (Z.eqb_spec total 0) as [H0|Hne]; [lia|].
    eexists. eexists. split; [reflexivity|].
    cbn [Phase4.TotalReads Phase4.VariantReads Phase4.EditingRatio].
    split; [reflexivity|]. split; [reflexivity|].
    split; [tauto|]. split; [split; [discriminate | lia]|].
    split; [split; [discriminate | lia]|].
    intros q Hq. injection Hq as <-.
    assert (Ht : (0 < inject_Z total)%Q)
      by (change 0%Q with (inject_Z 0); rewrite <- Zlt_Qlt; lia).
    split; [|split].
    + field. intro H0. rewrite H0 in Ht. apply (Qlt_irrefl 0). exact Ht.
    + apply Qle_shift_div_l; [exact Ht|]. rewrite Qmult_0_l.
      change 0%Q with (inject_Z 0). rewrite <- Zle_Qle. lia.
    + apply Qle_shift_div_r; [exact Ht|]. rewrite Qmult_1_l. rewrite <- Zle_Qle. lia.
Qed.

Lemma coverage_mask_and_editing_ratio_witness :
  exists m status,
    Phase4.quantify_site_per_bam example_pileup 10 "scRNA_file_Bcell.bam" site_pass
    = Ok (m, status)
    /\ Phase4.TotalReads m = 20%Z /\ Phase4.VariantReads m = 5%Z
    /\ (status = "PASS" <-> (10 <= 20)%Z)
    /\ (status = "LowCoverage" <-> (20 < 10)%Z)
    /\ (Phase4.EditingRatio m = None <-> (20 < 10)%Z)
    /\ (forall q, Phase4.EditingRatio m = Some q ->
                  (q * inject_Z 20 == inject_Z 5)%Q /\ (0 <= q <= 1)%Q).
Proof.
  apply (@coverage_mask_and_editing_ratio example_pileup 10 "scRNA_file_Bcell.bam"
           site_pass 20 5).
  - reflexivity.
  - lia.
  - lia.
Defined.

(** ** The Phase-3 aggregator: loading, consensus and pivot *)

Module AggregatorFacts.

Import Phase3.

Lemma filter_all {A : Type} (p : A -> bool) (l : list A) :
  (forall x, In x l -> p x = true) -> filter p l = l.
Proof.
  induction l as [|a l IH]; intro H; [reflexivity|]. cbn [filter].
  rewrite (H a (or_introl eq_refl)). f_equal. apply IH. intros x Hx. apply H. now right.
Qed.

Lemma str_append_assoc (a b c : string) : ((a ++ b) ++ c = a ++ (b ++ c))%string.
Proof. induction a as [|x a IH]; [reflexivity|]. cbn [String.append]. now rewrite IH. Qed.

Lemma same_cell_eqb (e e' : raw_entry) :
  String.eqb (SiteID e) (SiteID e') && String.eqb (CellType e) (CellType e') = true
  <-> SiteID e = SiteID e' /\ CellType e = CellType e'.
Proof. rewrite andb_true_iff, !String.eqb_eq. tauto. Qed.

(** Two different entries for one (SiteID, CellType) are found. *)
Lemma has_duplicate_entries_found (df : list raw_entry) (e e' : raw_entry) :
  In e df -> In e' df -> e <> e' ->
  SiteID e = SiteID e' -> CellType e = CellType e' ->
  has_duplicate_entries df = true.
Proof.
  induction df as [|a df IH]; intros He He' Hne Hs Hc; [destruct He|].
  cbn [has_duplicate_entries]. apply orb_true_iff.
  destruct He as [Hea|He], He' as [Hea'|He'].
  - congruence.
  - subst a. left. apply existsb_exists. exists e'.
    split; [exact He' | now apply same_cell_eqb].
  - subst a. left. apply existsb_exists. exists e. split; [exact He|].
    apply same_cell_eqb. split; congruence.
  - right. now apply IH.
Qed.

(** Without duplicates, the entry of a (SiteID, CellType) is unique. *)
Lemma entry_unique (df : list raw_entry) (e e' : raw_entry) :
  has_duplicate_entries df = false ->
  In e df -> In e' df ->
  SiteID e = SiteID e' -> CellType e = CellType e' -> e = e'.
Proof.
  induction df as [|a df IH]; intros Hd He He' Hs Hc; [destruct He|].
  cbn [has_duplicate_entries] in Hd. apply orb_false_iff in Hd. destruct Hd as [Ha Hd].
  destruct He as [Hea|He], He' as [Hea'|He'].
  - congruence.
  - subst a. pose proof (existsb_false _ _ Ha e' He') as Hn. cbv beta in Hn.
    rewrite (proj2 (same_cell_eqb e e') (conj Hs Hc)) in Hn. discriminate.
  - subst a. pose proof (existsb_false _ _ Ha e He) as Hn. cbv beta in Hn.
    rewrite (proj2 (same_cell_eqb e' e) (conj (eq_sym Hs) (eq_sym Hc))) in Hn. discriminate.
  - now apply IH.
Qed.

Lemma consensus_df_In (raw_df : list raw_entry) (e : raw_entry) :
  In e (consensus_df raw_df) <->
  In e raw_df
  /\ (exists e1, In e1 raw_df /\ SiteID e1 = SiteID e /\ Tool e1 = REDML)
  /\ (exists e2, In e2 raw_df /\ SiteID e2 = SiteID e /\ Tool e2 = REDItools).
Proof.
  unfold consensus_df. rewrite filter_In, Nat.eqb_eq.
  rewrite <- !ConsensusFacts.reported_by. unfold ToolCount.
  destruct (existsb (tool_eqb REDML) _), (existsb (tool_eqb REDItools) _); simpl;
    intuition (try discriminate; try lia).
Qed.

(** The invariants of the entries [standardize] puts out. *)
Lemma standardize_entries (min_edit_level : Q) (t : tool) (cell_type : string) (df : frame)
  (entries : list raw_entry) :
  standardize min_edit_level t cell_type df = Ok entries ->
  forall e, In e entries ->
    (min_edit_level <= EditLevel e)%Q /\ CellType e = cell_type /\ Tool e = t
    /\ exists prefix, SiteID e = (prefix ++ ":A>G")%string
                      \/ SiteID e = (prefix ++ ":T>C")%string.
Proof.
  revert entries. induction df as [|r df IH]; intros entries H e He;
    cbn [standardize] in H.
  - injection H as <-. destruct He.
  - destruct (c <- row_get r "EditLevel" ;; cell_number c) as [level|]; cbn [bind] in H;
      [|discriminate].
    destruct (row_get r "Ref") as [ref|]; cbn [bind] in H; [|discriminate].
    destruct (row_get r "Alt") as [alt|]; cbn [bind] in H; [|discriminate].
    destruct (row_get r "Chr") as [chr|]; cbn [bind] in H; [|discriminate].
    destruct (row_get r "Pos") as [pos|]; cbn [bind] in H; [|discriminate].
    destruct (standardize min_edit_level t cell_type df) as [rest'|]; cbn [bind] in H;
      [|discriminate].
    destruct level as [level|]; [|injection H as <-; now apply (IH rest')].
    destruct (Qle_bool min_edit_level level) eqn:El; cbn [andb] in H;
      [|injection H as <-; now apply (IH rest')].
    destruct ((cell_is ref "A" && cell_is alt "G") || (cell_is ref "T" && cell_is alt "C"))
      eqn:Ec; [|injection H as <-; now apply (IH rest')].
    injection H as <-. destruct He as [<-|He]; [|now apply (IH rest')].
    cbn [EditLevel CellType Tool SiteID].
    split; [apply Qle_bool_iff; exact El|]. split; [reflexivity|]. split; [reflexivity|].
    exists (cell_str chr ++ ":" ++ cell_str pos)%string.
    apply orb_true_iff in Ec. destruct Ec as [Ec|Ec]; apply andb_true_iff in Ec;
      destruct Ec as [Hr Ha];
      destruct ref as [sr| | |]; try discriminate;
      destruct alt as [sa| | |]; try discriminate;
      cbn [cell_is] in Hr, Ha; apply String.eqb_eq in Hr, Ha; subst sr sa;
      cbn [cell_str]; [left | right];
      rewrite !str_append_assoc; reflexivity.
Qed.

End AggregatorFacts.

(** X12: the consensus filter keeps an entry exactly when RED-ML and
    REDItools both have an entry for its site, in any cell type; filtering
    a second time changes nothing. *)
Theorem consensus_keeps_sites_reported_by_both_tools (raw_df : list Phase3.raw_entry) :
  (forall e,
      In e (Phase3.consensus_df raw_df) <->
      In e raw_df
      /\ (exists e1, In e1 raw_df /\ Phase3.SiteID e1 = Phase3.SiteID e
                     /\ Phase3.Tool e1 = Phase3.REDML)
      /\ (exists e2, In e2 raw_df /\ Phase3.SiteID e2 = Phase3.SiteID e
                     /\ Phase3.Tool e2 = Phase3.REDItools))
  /\ Phase3.consensus_df (Phase3.consensus_df raw_df) = Phase3.consensus_df raw_df.
Proof.
  split; [intro e; apply AggregatorFacts.consensus_df_In|].
  unfold Phase3.consensus_df at 1. apply AggregatorFacts.filter_all.
  intros x Hx. apply Nat.eqb_eq.
  pose proof (proj1 (AggregatorFacts.consensus_df_In raw_df x) Hx)
    as [Hin [[e1 [H1 [Hs1 Ht1]]] [e2 [H2 [Hs2 Ht2]]]]].
  assert (Hc1 : In e1 (Phase3.consensus_df raw_df)).
  { apply AggregatorFacts.consensus_df_In. split; [exact H1|].
    split; [exists e1; auto | exists e2; split; [exact H2 | split; congruence]]. }
  assert (Hc2 : In e2 (Phase3.consensus_df raw_df)).
  { apply AggregatorFacts.consensus_df_In. split; [exact H2|].
    split; [exists e1; split; [exact H1 | split; congruence] | exists e2; auto]. }
  unfold Phase3.ToolCount.
  rewrite (proj2 (ConsensusFacts.reported_by (Phase3.consensus_df raw_df)
                    (Phase3.SiteID x) Phase3.REDML))
    by (exists e1; auto).
  rewrite (proj2 (ConsensusFacts.reported_by (Phase3.consensus_df raw_df)
                    (Phase3.SiteID x) Phase3.REDItools))
    by (exists e2; auto).
  reflexivity.
Qed.

(** X13: a site that both tools report in the same cell type has two
    entries for one (SiteID, CellType) after the consensus filter, and the
    pivot into the Site x CellType matrix raises on them. *)
Theorem consensus_within_one_cell_type_is_not_pivoted
  (raw_df : list Phase3.raw_entry) (e1 e2 : Phase3.raw_entry) :
  In e1 raw_df -> In e2 raw_df ->
  Phase3.SiteID e1 = Phase3.SiteID e2 -> Phase3.CellType e1 = Phase3.CellType e2 ->
  Phase3.Tool e1 = Phase3.REDML -> Phase3.Tool e2 = Phase3.REDItools ->
  Phase3.pivot_fillna (Phase3.consensus_df raw_df)
  = Raise (ValueError "Index contains duplicate entries, cannot reshape").
Proof.
  intros H1 H2 Hs Hc Ht1 Ht2. unfold Phase3.pivot_fillna.
  rewrite (@AggregatorFacts.has_duplicate_entries_found (Phase3.consensus_df raw_df) e1 e2);
    [reflexivity| | | |exact Hs|exact Hc].
  - apply AggregatorFacts.consensus_df_In. split; [exact H1|].
    split; [exists e1; auto | exists e2; auto].
  - apply AggregatorFacts.consensus_df_In. split; [exact H2|].
    split; [exists e1; auto | exists e2; auto].
  - intro Heq. rewrite Heq in Ht1. congruence.
Qed.

Lemma consensus_within_one_cell_type_is_not_pivoted_witness :
  Phase3.pivot_fillna (Phase3.consensus_df scenario_A_raw_df)
  = Raise (ValueError "Index contains duplicate entries, cannot reshape").
Proof.
  apply (@consensus_within_one_cell_type_is_not_pivoted scenario_A_raw_df
           {| Phase3.SiteID := "1:1000:A>G"; Phase3.CellType := "Bcell";
              Phase3.Tool := Phase3.REDML; Phase3.EditLevel := 1 # 2 |}
           {| Phase3.SiteID := "1:1000:A>G"; Phase3.CellType := "Bcell";
              Phase3.Tool := Phase3.REDItools; Phase3.EditLevel := 1 # 2 |}).
  - left. reflexivity.
  - right. left. reflexivity.
  - reflexivity.
  - reflexivity.
  - reflexivity.
  - reflexivity.
Defined.

(** X14: whatever the raw call files are, a REDItools file is skipped
    without a row or given up with an exception, every entry the aggregator
    loads comes from RED-ML, and a run neither writes a consensus matrix nor
    exits by itself: it ends without output or with an uncaught exception. *)
Theorem aggregator_loads_only_REDML_and_never_writes
  (min_edit_level : Q) (all_files : list Phase3.raw_file) :
  (forall f, In f all_files -> Phase3.file_tool f = Phase3.REDItools ->
             Phase3.process_file min_edit_level f = Ok None
             \/ exists e, Phase3.process_file min_edit_level f = Raise e)
  /\ (forall e, In e (concat (fst (Phase3.load_files min_edit_level all_files))) ->
                Phase3.Tool e = Phase3.REDML)
  /\ (fst (Phase3.run_individual_processing min_edit_level all_files) = Returned None
      \/ exists e, fst (Phase3.run_individual_processing min_edit_level all_files)
                   = Uncaught e).
Proof.
  split; [intros f _ Hf; now apply ConsensusFacts.reditools_file_contributes_nothing|].
  split; [apply ConsensusFacts.load_files_tool|].
  unfold Phase3.run_individual_processing, Phase3.load_and_aggregate_raw_calls.
  destruct all_files as [|f fs]; [right; eexists; reflexivity|].
  pose proof (ConsensusFacts.load_files_tool min_edit_level (f :: fs)) as Htool.
  destruct (Phase3.load_files min_edit_level (f :: fs)) as [raw_df_list log'].
  cbn [fst] in Htool.
  destruct raw_df_list as [|d ds]; [right; eexists; reflexivity|].
  destruct (Phase3.consensus_df (concat (d :: ds))) as [|e0 es] eqn:Ec; [now left|].
  exfalso.
  assert (Hin : In e0 (Phase3.consensus_df (concat (d :: ds)))) by (rewrite Ec; now left).
  apply AggregatorFacts.consensus_df_In in Hin. destruct Hin as [_ [_ [e2 [Hin2 [_ Ht2]]]]].
  rewrite (Htool e2 Hin2) in Ht2. discriminate.
Qed.

Lemma process_file_entries (min_edit_level : Q) (f : Phase3.raw_file)
  (entries : list Phase3.raw_entry) :
  Phase3.process_file min_edit_level f = Ok (Some entries) ->
  forall e, In e entries ->
    (min_edit_level <= Phase3.EditLevel e)%Q
    /\ Phase3.CellType e = Phase3.file_cell_type f /\ Phase3.Tool e = Phase3.file_tool f
    /\ exists prefix, Phase3.SiteID e = (prefix ++ ":A>G")%string
                      \/ Phase3.SiteID e = (prefix ++ ":T>C")%string.
Proof.
  unfold Phase3.process_file. intro H.
  destruct (Phase3.read_csv f) as [df|]; cbn [bind] in H; [|discriminate].
  destruct (Phase3.file_tool f).
  - destruct (Phase3.redml_edit_levels df) as [df'|]; cbn [bind] in H; [|discriminate].
    destruct (Phase3.standardize min_edit_level Phase3.REDML (Phase3.file_cell_type f) df')
      as [es|] eqn:Es; cbn [bind] in H; [|discriminate].
    injection H as <-. exact (AggregatorFacts.standardize_entries _ _ _ _ Es).
  - destruct (Phase3.explode_reditools_substitutions _) as [[|r df']|]; cbn [bind] in H;
      try discriminate.
    destruct (Phase3.standardize min_edit_level Phase3.REDItools
                (Phase3.file_cell_type f) (r :: df')) as [es|] eqn:Es;
      cbn [bind] in H; [|discriminate].
    injection H as <-. exact (AggregatorFacts.standardize_entries _ _ _ _ Es).
Qed.

(** X15: every entry the loader hands to the consensus filter has an
    editing level of at least the configured minimum, a site ID that ends
    with the canonical base change [A>G] or [T>C], and the cell type and
    tool of one of the raw call files. *)
Theorem loaded_entries_pass_level_and_base_change_filters
  (min_edit_level : Q) (all_files : list Phase3.raw_file)
  (raw_df : list Phase3.raw_entry) (log : list string) :
  Phase3.load_and_aggregate_raw_calls min_edit_level all_files = (Ok raw_df, log) ->
  forall e, In e raw_df ->
    (min_edit_level <= Phase3.EditLevel e)%Q
    /\ (exists f, In f all_files /\ Phase3.CellType e = Phase3.file_cell_type f
                  /\ Phase3.Tool e = Phase3.file_tool f)
    /\ exists prefix, Phase3.SiteID e = (prefix ++ ":A>G")%string
                      \/ Phase3.SiteID e = (prefix ++ ":T>C")%string.
Proof.
  intro H.
  assert (Hload : forall e,
             In e (concat (fst (Phase3.load_files min_edit_level all_files))) ->
             (min_edit_level <= Phase3.EditLevel e)%Q
             /\ (exists f, In f all_files /\ Phase3.CellType e = Phase3.file_cell_type f
                           /\ Phase3.Tool e = Phase3.file_tool f)
             /\ exists prefix, Phase3.SiteID e = (prefix ++ ":A>G")%string
                               \/ Phase3.SiteID e = (prefix ++ ":T>C")%string).
  { clear H. induction all_files as [|f fs IH]; cbn [Phase3.load_files]; [intros e []|].
    destruct (Phase3.load_files min_edit_level fs) as [raw_df_list log0]. cbn [fst] in IH.
    assert (IH' : forall e, In e (concat raw_df_list) ->
               (min_edit_level <= Phase3.EditLevel e)%Q
               /\ (exists f0, In f0 (f :: fs)
                              /\ Phase3.CellType e = Phase3.file_cell_type f0
                              /\ Phase3.Tool e = Phase3.file_tool f0)
               /\ exists prefix, Phase3.SiteID e = (prefix ++ ":A>G")%string
                                 \/ Phase3.SiteID e = (prefix ++ ":T>C")%string).
    { intros e He. destruct (IH e He) as [Hl [[f0 [Hf0 Hct]] Hs]].
      split; [exact Hl|]. split; [exists f0; split; [now right | exact Hct] | exact Hs]. }
    destruct (Phase3.process_file min_edit_level f) as [[entries|]|] eqn:E; cbn [fst];
      try exact IH'.
    intros e He. cbn [concat] in He. apply in_app_or in He. destruct He as [He|He].
    - destruct (process_file_entries _ _ E e He) as [Hl [Hc [Ht Hs]]].
      split; [exact Hl|]. split; [exists f; split; [now left | auto] | exact Hs].
    - now apply IH'. }
  unfold Phase3.load_and_aggregate_raw_calls in H.
  destruct all_files as [|f fs]; [discriminate|].
  destruct (Phase3.load_files min_edit_level (f :: fs)) as [raw_df_list log0].
  cbn [fst] in Hload.
  destruct raw_df_list as [|d ds]; [discriminate|].
  injection H as <- _. exact Hload.
Qed.

Lemma loaded_entries_pass_level_and_base_change_filters_witness :
  let e := {| Phase3.SiteID := "1:2000:A>G"; Phase3.CellType := "Bcell";
              Phase3.Tool := Phase3.REDML; Phase3.EditLevel := 5 # 10 |} in
  ((1 # 10) <= Phase3.EditLevel e)%Q
  /\ (exists f, In f [scenario_A_redml; scenario_A_reditools]
                /\ Phase3.CellType e = Phase3.file_cell_type f
                /\ Phase3.Tool e = Phase3.file_tool f)
  /\ exists prefix, Phase3.SiteID e = (prefix ++ ":A>G")%string
                    \/ Phase3.SiteID e = (prefix ++ ":T>C")%string.
Proof.
  eapply (@loaded_entries_pass_level_and_base_change_filters (1 # 10)
            [scenario_A_redml; scenario_A_reditools]).
  - reflexivity.
  - right. left. reflexivity.
Defined.

(** X16: when the pivot succeeds, the matrix has every site and every cell
    type of the table once; the cell of an entry's site and cell type holds
    the entry's editing level, and a cell holds either the level of such an
    entry or 0 when the table has no entry for it. *)
Theorem pivot_cells_are_entry_levels_or_zero
  (df : list Phase3.raw_entry) (m : Phase3.matrix) :
  Phase3.pivot_fillna df = Ok m ->
  NoDup (map fst (Phase3.sites m)) /\ NoDup (Phase3.cell_types m)
  /\ (forall e, In e df ->
        exists cells j,
          In (Phase3.SiteID e, cells) (Phase3.sites m)
          /\ nth_error (Phase3.cell_types m) j = Some (Phase3.CellType e)
          /\ nth_error cells j = Some (Phase3.EditLevel e))
  /\ (forall s cells j ct v,
        In (s, cells) (Phase3.sites m) ->
        nth_error (Phase3.cell_types m) j = Some ct ->
        nth_error cells j = Some v ->
        (exists e, In e df /\ Phase3.SiteID e = s /\ Phase3.CellType e = ct
                   /\ Phase3.EditLevel e = v)
        \/ (v = 0%Q
            /\ forall e, In e df -> ~ (Phase3.SiteID e = s /\ Phase3.CellType e = ct))).
Proof.
  unfold Phase3.pivot_fillna.
  destruct (Phase3.has_duplicate_entries df) eqn:Hd; [discriminate|].
  intro H. injection H as <-. cbn [Phase3.sites Phase3.cell_types].
  split; [|split; [|split]].
  - rewrite map_map. cbn [fst]. rewrite map_id.
    apply (sorted_keys_NoDup String.compare string_compare_eq
             String.compare_antisym string_compare_trans).
  - apply (sorted_keys_NoDup String.compare string_compare_eq
             String.compare_antisym string_compare_trans).
  - intros e He.
    assert (Hct : In (Phase3.CellType e)
                     (sorted_keys String.compare (map Phase3.CellType df)))
      by (apply (In_sorted_keys String.compare string_compare_eq); now apply in_map).
    destruct (In_nth_error _ _ Hct) as [j Hj].
    exists (map (Phase3.matrix_cell df (Phase3.SiteID e))
                (sorted_keys String.compare (map Phase3.CellType df))), j.
    split; [|split; [exact Hj|]].
    + apply in_map_iff. exists (Phase3.SiteID e). split; [reflexivity|].
      apply (In_sorted_keys String.compare string_compare_eq). now apply in_map.
    + rewrite (map_nth_error _ _ _ Hj). f_equal. unfold Phase3.matrix_cell.
      destruct (find _ df) as [e'|] eqn:Ef.
      * apply find_some in Ef. destruct Ef as [He' Hk].
        apply AggregatorFacts.same_cell_eqb in Hk. destruct Hk as [Hk1 Hk2].
        rewrite (AggregatorFacts.entry_unique df _ _ Hd He' He Hk1 Hk2). reflexivity.
      * exfalso. pose proof (find_none _ _ Ef e He) as Hn. cbv beta in Hn.
        rewrite !String.eqb_refl in Hn. discriminate.
  - intros s cells j ct v Hin Hj Hv.
    apply in_map_iff in Hin. destruct Hin as [s' [Hs' _]]. injection Hs' as -> <-.
    rewrite (map_nth_error _ _ _ Hj) in Hv. injection Hv as <-.
    unfold Phase3.matrix_cell. destruct (find _ df) as [e'|] eqn:Ef.
    + left. apply find_some in Ef. destruct Ef as [He' Hk].
      apply andb_true_iff in Hk. destruct Hk as [Hk1 Hk2].
      apply String.eqb_eq in Hk1, Hk2. exists e'. auto.
    + right. split; [reflexivity|]. intros e He [Hk1 Hk2].
      pose proof (find_none _ _ Ef e He) as Hn. cbv beta in Hn.
      rewrite Hk1, Hk2, !String.eqb_refl in Hn. discriminate.
Qed.

Lemma pivot_cells_are_entry_levels_or_zero_witness :
  let m := {| Phase3.cell_types := ["Bcell"; "Tcell"];
              Phase3.sites := [("1:1000:A>G", [1 # 2; 1 # 4])] |} in
  NoDup (map fst (Phase3.sites m)) /\ NoDup (Phase3.cell_types m)
  /\ (forall e, In e split_consensus_df ->
        exists cells j,
          In (Phase3.SiteID e, cells) (Phase3.sites m)
          /\ nth_error (Phase3.cell_types m) j = Some (Phase3.CellType e)
          /\ nth_error cells j = Some (Phase3.EditLevel e))
  /\ (forall s cells j ct v,
        In (s, cells) (Phase3.sites m) ->
        nth_error (Phase3.cell_types m) j = Some ct ->
        nth_error cells j = Some v ->
        (exists e, In e split_consensus_df /\ Phase3.SiteID e = s /\ Phase3.CellType e = ct
                   /\ Phase3.EditLevel e = v)
        \/ (v = 0%Q
            /\ forall e, In e split_consensus_df ->
                         ~ (Phase3.SiteID e = s /\ Phase3.CellType e = ct))).
Proof.
  apply (@pivot_cells_are_entry_levels_or_zero split_consensus_df). reflexivity.
Defined.

Lemma explode_subs_entries (r : Phase3.row) (chr pos reference frequency : Phase3.cell)
  (subs : list string) :
  Phase3.row_get r "Chr" = Ok chr -> Phase3.row_get r "Pos" = Ok pos ->
  Phase3.row_get r "Reference" = Ok reference ->
  Phase3.row_get r "Frequency" = Ok frequency ->
  Phase3.explode_subs r subs
  = Ok (map (fun alt => [("Chr", chr); ("Pos", pos); ("Reference", reference);
                         ("Alt", Phase3.CStr alt); ("EditLevel", frequency)])
            (flat_map (fun sub => match Phase3.substitution_alt sub with
                                  | Some alt => [alt]
                                  | None => []
                                  end) subs)).
Proof.
  intros Hc Hp Hr Hf. induction subs as [|sub subs IH]; [reflexivity|].
  cbn [Phase3.explode_subs flat_map].
  destruct (Phase3.substitution_alt sub) as [alt|]; [|exact IH].
  unfold Phase3.exploded_entry. rewrite Hc, Hp, Hr, Hf, IH. reflexivity.
Qed.

(** X17: on a REDItools row that still has its columns [Reference] and
    [Frequency], the explosion of the [AllSubs] cell gives one row per
    blank-separated substitution of the form [X>Y], in order, each with the
    row's chromosome, position and reference, the substituted base as
    [Alt] and the row's frequency as [EditLevel]; the cell [-] gives none. *)
Theorem explode_row_one_entry_per_substitution
  (r : Phase3.row) (allsubs : string) (chr pos reference frequency : Phase3.cell) :
  Phase3.row_get r "AllSubs" = Ok (Phase3.CStr allsubs) ->
  Phase3.row_get r "Chr" = Ok chr -> Phase3.row_get r "Pos" = Ok pos ->
  Phase3.row_get r "Reference" = Ok reference ->
  Phase3.row_get r "Frequency" = Ok frequency ->
  Phase3.explode_row r
  = Ok (if String.eqb allsubs "-" then []
        else map (fun alt => [("Chr", chr); ("Pos", pos); ("Reference", reference);
                              ("Alt", Phase3.CStr alt); ("EditLevel", frequency)])
                 (valid_substitutions allsubs)).
Proof.
  intros Ha Hc Hp Hr Hf. unfold Phase3.explode_row. rewrite Ha. cbn [bind].
  destruct (String.eqb allsubs "-"); [reflexivity|].
  apply explode_subs_entries; assumption.
Qed.

Lemma explode_row_one_entry_per_substitution_witness :
  Phase3.explode_row example_reditools_row
  = Ok (if String.eqb "AG A>G A>C" "-" then []
        else map (fun alt => [("Chr", Phase3.CStr "1"); ("Pos", Phase3.CInt 1000);
                              ("Reference", Phase3.CStr "A");
                              ("Alt", Phase3.CStr alt); ("EditLevel", Phase3.CNum (1 # 2))])
                 (valid_substitutions "AG A>G A>C")).
Proof.
  apply (@explode_row_one_entry_per_substitution example_reditools_row "AG A>G A>C");
    reflexivity.
Defined.

(** ** The collation stage: provenance of the written values *)

Module ProvenanceFacts.

Import Phase5.

Lemma mapM_In {A B : Type} (f : A -> result B) (l : list A) (bs : list B) :
  mapM f l = Ok bs -> forall b, In b bs -> exists a, In a l /\ f a = Ok b.
Proof.
  revert bs. induction l as [|a l IH]; intros bs H b Hb; cbn [mapM] in H.
  - injection H as <-. destruct Hb.
  - destruct (f a) as [b0|] eqn:Ea; cbn [bind] in H; [|discriminate].
    destruct (mapM f l) as [bs0|]; cbn [bind] in H; [|discriminate].
    injection H as <-. destruct Hb as [<-|Hb].
    + exists a. split; [now left | exact Ea].
    + destruct (IH bs0 eq_refl b Hb) as [a' [Ha' Hf]]. exists a'. split; [now right | exact Hf].
Qed.

Lemma select_group_In (mean2 : Q -> Q -> Q) (df : list pop_row) (g : string * string)
  (r : pop_row) :
  select_group mean2 df g = Ok r -> In r df.
Proof.
  unfold select_group. destruct (idxmax (group_medians mean2 df g)) as [[i m]|]; [|discriminate].
  destruct (nth_error df i) as [r'|] eqn:E; [|discriminate].
  intro H. injection H as <-. eapply nth_error_In; exact E.
Qed.

Lemma feature_selection_In (mean2 : Q -> Q -> Q) (df : list pop_row)
  (m : list (string * list (option Q))) :
  feature_selection mean2 df = Ok m ->
  forall x, In x m -> exists r, In r df /\ x = feature_row r.
Proof.
  unfold feature_selection. intro H.
  destruct (mapM (select_group mean2 df) (groups df)) as [reps|] eqn:E; cbn [bind] in H;
    [|discriminate].
  injection H as <-. intros x Hx. apply in_map_iff in Hx. destruct Hx as [r [<- Hr]].
  destruct (mapM_In _ _ E r Hr) as [g [_ Hg]].
  exists r. split; [eapply select_group_In; exact Hg | reflexivity].
Qed.

Lemma lookup_key_In (k : string * string * string)
  (l : list (string * string * string * option Q)) (v : Q) :
  lookup_key k l = Some v -> In (k, Some v) l.
Proof.
  induction l as [|[k' v'] l IH]; [discriminate|]. cbn [lookup_key].
  destruct (key3_eqb k k') eqn:E.
  - intros ->. apply CollationFacts.key3_eqb_eq in E. subst k'. now left.
  - intro H. right. now apply IH.
Qed.

Lemma positional_In {K V : Type} (l : list (K * option V)) (i : nat) (k : K) (v : V) :
  nth_error (map fst l) i = Some k -> nth i (map snd l) None = Some v -> In (k, Some v) l.
Proof.
  revert i. induction l as [|[k' v'] l IH]; intros [|i]; cbn [map nth_error nth fst snd];
    try discriminate.
  - intros Hk Hv. injection Hk as <-. subst v'. now left.
  - intros Hk Hv. right. eapply IH; eassumption.
Qed.

Lemma In_combine_seq_nth {A : Type} (l : list A) (s i : nat) (x : A) :
  In (i, x) (combine (seq s (length l)) l) -> nth_error l (i - s) = Some x /\ s <= i.
Proof.
  revert s. induction l as [|a l IH]; intros s H; [destruct H|].
  cbn [length seq combine] in H. destruct H as [H|H].
  - injection H as <- <-. rewrite Nat.sub_diag. split; [reflexivity | lia].
  - destruct (IH (S s) H) as [Hn Hle].
    replace (i - s) with (S (i - S s)) by lia. split; [exact Hn | lia].
Qed.

(** The rows of the population matrix have one value per individual frame,
    and an observed value is a value of that frame at the row's key. *)
Lemma concat_axis1_values
  (all_data : list (string * list (string * string * string * option Q)))
  (pm : list pop_row) (r : pop_row) :
  concat_axis1 all_data = Ok pm -> In r pm ->
  length (values r) = length all_data
  /\ forall j d v, nth_error all_data j = Some d ->
                   nth_error (values r) j = Some (Some v) ->
                   In (row_key r, Some v) (snd d).
Proof.
  unfold concat_axis1. destruct all_data as [|first rest] eqn:Ead; [discriminate|].
  rewrite <- Ead. clear Ead.
  destruct (forallb _ all_data) eqn:Hall.
  - intros H Hr. injection H as <-.
    apply in_map_iff in Hr. destruct Hr as [[i k] [<- Hin]]. cbn [values fst snd].
    split; [apply length_map|].
    intros j d v Hd Hv. rewrite (map_nth_error _ _ _ Hd) in Hv. injection Hv as Hv.
    rewrite forallb_forall in Hall. pose proof (Hall d (nth_error_In _ _ Hd)) as He.
    apply CollationFacts.keys_eqb_eq in He.
    destruct (In_combine_seq_nth _ _ _ _ Hin) as [Hk _]. rewrite Nat.sub_0_r in Hk.
    rewrite <- He in Hk. unfold frame_index in Hk.
    unfold row_key. cbn [SiteID Phase3_Gene CellType].
    replace (fst (fst k), snd (fst k), snd k) with k by (destruct k as [[? ?] ?]; reflexivity).
    eapply positional_In; eassumption.
  - destruct (existsb _ all_data); [discriminate|].
    intros H Hr. injection H as <-.
    apply in_map_iff in Hr. destruct Hr as [k [<- Hin]]. cbn [values].
    split; [apply length_map|].
    intros j d v Hd Hv. rewrite (map_nth_error _ _ _ Hd) in Hv. injection Hv as Hv.
    unfold row_key. cbn [SiteID Phase3_Gene CellType].
    replace (fst (fst k), snd (fst k), snd k) with k by (destruct k as [[? ?] ?]; reflexivity).
    now apply lookup_key_In.
Qed.

Lemma In_df_long_value (df : p4_matrix) (k : string * string * string) (ov : option Q) :
  In (k, ov) (df_long df) ->
  exists r c, In r (p4_rows df) /\ p4_GlobalFilterStatus r = "PASS"
              /\ In c (er_cols df)
              /\ k = (p4_SiteID r, p4_Phase3_Gene r, str_remove_all "_ER" (snd c))
              /\ ov = nth (fst c) (p4_values r) None.
Proof.
  unfold df_long, df_filtered. intro Hin.
  apply in_flat_map in Hin. destruct Hin as [c [Hc Hin]].
  apply in_map_iff in Hin. destruct Hin as [r [Hr Hin]].
  apply filter_In in Hin. destruct Hin as [Hin Hs]. apply String.eqb_eq in Hs.
  exists r, c. inversion Hr. auto.
Qed.

Lemma collate_length (files : list input_file) :
  length (fst (collate files)) = length (filter readable files).
Proof.
  induction files as [|f files IH]; [reflexivity|]. cbn [collate filter]. unfold readable.
  destruct (collate files) as [data log]. cbn [fst] in IH.
  destruct (loaded f); cbn [fst length]; [f_equal|]; exact IH.
Qed.

Lemma collate_readable (files : list input_file) :
  fst (collate files) = fst (collate (filter readable files))
  /\ snd (collate files) = flat_map skip_warning files.
Proof.
  induction files as [|f files [IH1 IH2]]; [split; reflexivity|].
  cbn [collate filter flat_map].
  destruct (collate files) as [data log]. cbn [fst snd] in IH1, IH2.
  destruct (loaded f) as [df|e] eqn:E.
  - assert (Hr : readable f = true) by (unfold readable; now rewrite E).
    assert (Hs : skip_warning f = []) by (unfold skip_warning; now rewrite E).
    rewrite Hr, Hs. cbn [collate app]. rewrite E.
    destruct (collate (filter readable files)) as [data' log']. cbn [fst snd] in *.
    split; [now f_equal | exact IH2].
  - assert (Hr : readable f = false) by (unfold readable; now rewrite E).
    rewrite Hr. unfold skip_warning at 1. rewrite E. cbn [fst snd app].
    split; [exact IH1 | now f_equal].
Qed.

End ProvenanceFacts.

(** X18: a Phase-4 file that cannot be read is skipped: the collation stage
    ends as it does on the readable files alone, and when at least one file
    is readable its stderr holds exactly one WARNING line per unreadable
    file, in file order. *)
Theorem unreadable_files_are_skipped (mean2 : Q -> Q -> Q)
  (MIN_SAMPLES : Z) (input_pattern : string) (input_files : list Phase5.input_file) :
  fst (Phase5.run_phase5_collation_and_selection mean2 MIN_SAMPLES input_pattern input_files)
  = fst (Phase5.run_phase5_collation_and_selection mean2 MIN_SAMPLES input_pattern
           (filter readable input_files))
  /\ ((exists f, In f input_files /\ readable f = true) ->
      snd (Phase5.run_phase5_collation_and_selection mean2 MIN_SAMPLES input_pattern input_files)
      = flat_map skip_warning input_files).
Proof.
  unfold Phase5.run_phase5_collation_and_selection.
  destruct input_files as [|f fs] eqn:Ef; [split; [reflexivity | intros [f [[] _]]]|].
  rewrite <- Ef. assert (Hne : input_files <> []) by (rewrite Ef; discriminate).
  clear Ef f fs.
  destruct (ProvenanceFacts.collate_readable input_files) as [H1 H2].
  pose proof (ProvenanceFacts.collate_length input_files) as Hlen.
  destruct (Phase5.collate input_files) as [all_data log]. cbn [fst snd] in H1, H2, Hlen.
  destruct (filter readable input_files) as [|g gs] eqn:Eg.
  - cbn [length] in Hlen. destruct all_data; [|discriminate]. split; [reflexivity|].
    intros [f [Hin Hr]].
    assert (Hf : In f (filter readable input_files)) by (apply filter_In; auto).
    rewrite Eg in Hf. destruct Hf.
  - destruct (Phase5.collate (g :: gs)) as [all_data' log']. cbn [fst] in H1. subst all_data'.
    destruct all_data as [|d ds]; [discriminate|]. split.
    + destruct (pm <- Phase5.concat_axis1 (d :: ds) ;;
                Phase5.feature_selection mean2 (Phase5.sample_size_filter MIN_SAMPLES pm));
        reflexivity.
    + intros _. rewrite <- H2.
      destruct (pm <- Phase5.concat_axis1 (d :: ds) ;;
                Phase5.feature_selection mean2 (Phase5.sample_size_filter MIN_SAMPLES pm));
        reflexivity.
Qed.

(** X19: with a minimum of zero samples or less the sample-size filter
    keeps every row, and the second version of the collation stage behaves
    on every input as the first version, which has no such filter. *)
Theorem no_minimum_behaves_as_first_version (mean2 : Q -> Q -> Q)
  (MIN_SAMPLES : Z) (input_pattern : string) (input_files : list Phase5.input_file) :
  (MIN_SAMPLES <= 0)%Z ->
  Phase5.run_phase5_collation_and_selection mean2 MIN_SAMPLES input_pattern input_files
  = Phase5.run_phase5_collation_and_selection_v1 mean2 input_pattern input_files.
Proof.
  intro Hmin.
  assert (Hid : forall pm, Phase5.sample_size_filter MIN_SAMPLES pm = pm).
  { intro pm. apply AggregatorFacts.filter_all. intros r _. apply Z.leb_le.
    unfold Phase5.sample_count. lia. }
  unfold Phase5.run_phase5_collation_and_selection,
    Phase5.run_phase5_collation_and_selection_v1.
  destruct input_files as [|f fs]; [reflexivity|].
  destruct (Phase5.collate (f :: fs)) as [all_data log].
  destruct all_data as [|d ds]; [reflexivity|].
  destruct (Phase5.concat_axis1 (d :: ds)) as [pm|e]; cbn [bind]; [|reflexivity].
  rewrite Hid. reflexivity.
Qed.

Lemma no_minimum_behaves_as_first_version_witness :
  Phase5.run_phase5_collation_and_selection exact_mean2 0 "*_final_editing_matrix_p4.tsv"
    [all_missing_file; quantified_file]
  = Phase5.run_phase5_collation_and_selection_v1 exact_mean2 "*_final_editing_matrix_p4.tsv"
      [all_missing_file; quantified_file].
Proof.
  apply (@no_minimum_behaves_as_first_version exact_mean2 0 "*_final_editing_matrix_p4.tsv"
           [all_missing_file; quantified_file]).
  lia.
Defined.

(** X20: no value of the written feature matrix is invented.  Every row of
    it has one cell per readable Phase-4 file, and every observed cell is
    the editing ratio that one of the readable files holds, in a column
    ending with [_ER], for a site with GlobalFilterStatus PASS whose gene
    and cell type spell the row's feature ID. *)
Theorem feature_matrix_values_come_from_PASS_sites (mean2 : Q -> Q -> Q)
  (MIN_SAMPLES : Z) (input_pattern : string) (input_files : list Phase5.input_file)
  (m : list (string * list (option Q))) (log : list string) :
  Phase5.run_phase5_collation_and_selection mean2 MIN_SAMPLES input_pattern input_files
  = (Returned (Some m), log) ->
  forall feature_id cells, In (feature_id, cells) m ->
    length cells = length (filter readable input_files)
    /\ forall j v, nth_error cells j = Some (Some v) ->
         exists f df r c,
           In f input_files /\ Phase5.loaded f = Ok df
           /\ In r (Phase5.p4_rows df) /\ Phase5.p4_GlobalFilterStatus r = "PASS"
           /\ In c (Phase5.er_cols df)
           /\ feature_id = (Phase5.p4_Phase3_Gene r ++ "__"
                            ++ str_remove_all "_ER" (snd c))%string
           /\ nth (fst c) (Phase5.p4_values r) None = Some v.
Proof.
  unfold Phase5.run_phase5_collation_and_selection. intro H.
  destruct input_files as [|f0 fs] eqn:Ef; [discriminate|].
  rewrite <- Ef in *. clear Ef f0 fs.
  pose proof (ProvenanceFacts.collate_length input_files) as Hlen.
  pose proof (CollationFacts.In_collate input_files) as Hcol.
  destruct (Phase5.collate input_files) as [all_data log0]. cbn [fst] in Hlen, Hcol.
  destruct all_data as [|d ds] eqn:Ead; [discriminate|]. rewrite <- Ead in *. clear Ead d ds.
  destruct (Phase5.concat_axis1 all_data) as [pm|e] eqn:Ec; cbn [bind] in H; [|discriminate].
  destruct (Phase5.feature_selection mean2 (Phase5.sample_size_filter MIN_SAMPLES pm))
    as [m0|e] eqn:Es; [|discriminate].
  injection H as <- _.
  intros feature_id cells Hin.
  destruct (ProvenanceFacts.feature_selection_In _ _ Es _ Hin) as [r [Hr Hx]].
  unfold Phase5.feature_row in Hx. injection Hx as -> ->.
  apply Phase5Facts.sample_size_filter_In in Hr. destruct Hr as [Hr _].
  destruct (@ProvenanceFacts.concat_axis1_values all_data pm r Ec Hr) as [Hl Hv].
  split; [rewrite Hl; exact Hlen|].
  intros j v Hj.
  destruct (nth_error all_data j) as [d|] eqn:Ed.
  - specialize (Hv j d v Ed Hj).
    destruct (proj1 (Hcol d) (nth_error_In _ _ Ed)) as [f [df [Hf [Hload ->]]]].
    cbn [snd] in Hv.
    destruct (ProvenanceFacts.In_df_long_value _ _ _ Hv) as [r4 [c [H4 [Hs [Hc [Hk Hval]]]]]].
    exists f, df, r4, c. unfold Phase5.row_key in Hk. injection Hk as _ Hg Hct.
    unfold Phase5.FeatureID. rewrite Hg, Hct. auto 10.
  - exfalso. apply nth_error_None in Ed.
    assert (Hlt : j < length (Phase5.values r)) by (apply nth_error_Some; congruence).
    lia.
Qed.

Lemma feature_matrix_values_come_from_PASS_sites_witness :
  let feature_id := "APP__Bcell" in
  let cells := [None; Some (1 # 4)] in
  length cells = length (filter readable [all_missing_file; quantified_file; unreadable_file])
  /\ forall j v, nth_error cells j = Some (Some v) ->
       exists f df r c,
         In f [all_missing_file; quantified_file; unreadable_file]
         /\ Phase5.loaded f = Ok df
         /\ In r (Phase5.p4_rows df) /\ Phase5.p4_GlobalFilterStatus r = "PASS"
         /\ In c (Phase5.er_cols df)
         /\ feature_id = (Phase5.p4_Phase3_Gene r ++ "__"
                          ++ str_remove_all "_ER" (snd c))%string
         /\ nth (fst c) (Phase5.p4_values r) None = Some v.
Proof.
  eapply (@feature_matrix_values_come_from_PASS_sites exact_mean2 1 "*_final_editing_matrix_p4.tsv"
            [all_missing_file; quantified_file; unreadable_file]).
  - reflexivity.
  - left. reflexivity.
Defined.

(** ** The saved matrices of the Phase-6 merge *)

Module PhenotypeFacts.

Import Phase6Merge RankNormalizer.

Lemma inverse_normal_transform_length {V : Type} (ndtr : Q -> V) (data : series) :
  length (inverse_normal_transform ndtr data) = length data.
Proof.
  unfold inverse_normal_transform, rankdata.
  destruct (existsb is_nan data); rewrite !length_map; reflexivity.
Qed.

(** A column with a missing value is transformed into a column without any
    value; a column without missing value into one without missing value. *)
Lemma inverse_normal_transform_all_or_nothing {V : Type} (ndtr : Q -> V) (data : series) :
  (In None data /\ forall o, In o (inverse_normal_transform ndtr data) -> o = None)
  \/ (~ In None data /\ forall o, In o (inverse_normal_transform ndtr data) -> o <> None).
Proof.
  unfold inverse_normal_transform, rankdata. destruct (existsb is_nan data) eqn:E.
  - left. split.
    + apply existsb_exists in E. destruct E as [[x|] [Hx Hn]]; [discriminate | exact Hx].
    + intros o Ho. rewrite !map_map in Ho. apply in_map_iff in Ho.
      destruct Ho as [x [<- _]]. reflexivity.
  - right. pose proof (existsb_false _ _ E) as Hall. split.
    + intro Hn. specialize (Hall None Hn). discriminate.
    + intros o Ho. rewrite !map_map in Ho. apply in_map_iff in Ho.
      destruct Ho as [[x|] [<- Hx]]; [discriminate|].
      specialize (Hall None Hx). discriminate.
Qed.

Lemma map_nth_seq {A : Type} (d : A) (T : list A) (s : nat) :
  map (fun i => nth (i - s) T d) (seq s (length T)) = T.
Proof.
  revert s. induction T as [|a T IH]; intro s; [reflexivity|].
  cbn [length seq map]. rewrite Nat.sub_diag. cbn [nth]. f_equal.
  rewrite <- (IH (S s)) at 2. apply map_ext_in. intros i Hi. apply in_seq in Hi.
  replace (i - s) with (S (i - S s)) by lia. reflexivity.
Qed.

Lemma nth_map_lt {A B : Type} (g : A -> B) (l : list A) (j : nat) (d : B) (d' : A) :
  j < length l -> nth j (map g l) d = g (nth j l d').
Proof.
  revert j. induction l as [|a l IH]; intros j Hj; [cbn [length] in Hj; lia|].
  destruct j as [|j]; [reflexivity|]. cbn [map nth]. apply IH. cbn [length] in Hj. lia.
Qed.

Lemma map_fst_combine_seq {A : Type} (l : list A) (s : nat) :
  map fst (combine (seq s (length l)) l) = seq s (length l).
Proof.
  revert s. induction l as [|y l IH]; intro s; [reflexivity|].
  cbn [length seq combine map fst]. now rewrite IH.
Qed.

Lemma column_length {A : Type} (j : nat) (df : frame (option A)) :
  length (column j df) = length (rows df).
Proof. unfold column. apply length_map. Qed.

(** The column of a feature after the column-wise transformation is the
    transformed column. *)
Lemma column_apply_standard {V : Type} (ndtr : Q -> V) (df : frame (option Q)) (j : nat) :
  j < length (columns df) ->
  column j (apply_standard ndtr df) = inverse_normal_transform ndtr (column j df).
Proof.
  intro Hj. unfold column at 1, apply_standard. cbn [rows]. rewrite map_map. cbn [snd].
  set (T := inverse_normal_transform ndtr (column j df)).
  assert (HT : length T = length (rows df))
    by (unfold T; rewrite inverse_normal_transform_length; apply column_length).
  transitivity (map (fun ir : nat * string => nth (fst ir - 0) T None)
                    (combine (seq 0 (length (rows df))) (index df))).
  - apply map_ext. intros [i x]. cbn [fst]. rewrite Nat.sub_0_r.
    rewrite (nth_map_lt (fun c : list (option V) => nth i c None) _ None [])
      by (rewrite length_map, length_seq; exact Hj).
    rewrite (nth_map_lt (fun j0 => inverse_normal_transform ndtr (column j0 df)) _ [] 0)
      by (rewrite length_seq; exact Hj).
    rewrite seq_nth by exact Hj. reflexivity.
  - rewrite <- (map_map fst (fun i => nth (i - 0) T None)).
    replace (length (rows df)) with (length (index df)) by apply length_map.
    rewrite map_fst_combine_seq.
    replace (length (index df)) with (length T) by (rewrite HT; symmetry; apply length_map).
    apply map_nth_seq.
Qed.

End PhenotypeFacts.

(** X21: in the covariate matrix the merge saves no cell is missing: a
    covariate that a table does not give for an individual is saved as a
    number (0), never as NA. *)
Theorem saved_covariates_have_no_missing_cell
  (V : Type) (ndtr : Q -> V)
  (input_features input_aei_covariates input_genotype_pcs input_peer_factors
     : result (Phase6Merge.frame (option Q)))
  (o : Phase6Merge.saved V) (log : list string) :
  Phase6Merge.run_normalization_and_merge ndtr input_features input_aei_covariates
    input_genotype_pcs input_peer_factors = (Returned o, log) ->
  forall row, In row (Phase6Merge.rows (Phase6Merge.output_covariates o)) ->
              forall c, In c (snd row) -> c <> None.
Proof.
  unfold Phase6Merge.run_normalization_and_merge.
  destruct input_features as [df_phenotype|]; [|discriminate].
  destruct input_aei_covariates as [df_aei|]; [|discriminate].
  destruct (Phase6Merge.concat_axis1 _) as [merged|]; [|discriminate].
  destruct (Phase6Merge.apply_int ndtr _) as [f|]; [|discriminate].
  intro H. injection H as <- _. cbn [Phase6Merge.output_covariates].
  intros row Hrow c Hc.
  unfold Phase6Merge.select_columns in Hrow. cbn [Phase6Merge.rows] in Hrow.
  apply in_map_iff in Hrow. destruct Hrow as [r [<- Hr]]. cbn [snd] in Hc.
  apply in_map_iff in Hc. destruct Hc as [[j c'] [<- Hjc]]. cbn [snd].
  apply filter_In in Hjc. destruct Hjc as [Hjc _]. apply in_combine_r in Hjc.
  unfold Phase6Merge.fillna0 in Hr. cbn [Phase6Merge.rows] in Hr.
  apply in_map_iff in Hr. destruct Hr as [r0 [<- _]]. cbn [snd] in Hjc.
  apply in_map_iff in Hjc. destruct Hjc as [c0 [<- _]].
  destruct c0; discriminate.
Qed.

Lemma saved_covariates_have_no_missing_cell_witness :
  exists o,
    Phase6Merge.run_normalization_and_merge (fun x => x / 4 + (1 # 2))%Q
      (Ok example_phenotype) (Ok example_aei) (Ok example_pcs)
      (Raise (FileNotFoundError "peer_factors.tsv")) = (Returned o, [])
    /\ forall row, In row (Phase6Merge.rows (Phase6Merge.output_covariates o)) ->
                   forall c, In c (snd row) -> c <> None.
Proof.
  eexists. split; [reflexivity|].
  eapply (@saved_covariates_have_no_missing_cell Q (fun x => x / 4 + (1 # 2))%Q
            (Ok example_phenotype) (Ok example_aei) (Ok example_pcs)
            (Raise (FileNotFoundError "peer_factors.tsv"))).
  reflexivity.
Defined.

(** X22: the saved phenotype matrix has one row per feature column of the
    input, in column order, and each row has one cell per retained
    individual.  A feature with a missing value for one of the retained
    individuals is saved without any value; every other feature is saved
    without missing value. *)
Theorem saved_phenotype_rows_are_complete_or_empty
  (V : Type) (ndtr : Q -> V)
  (df_phenotype : Phase6Merge.frame (option Q))
  (input_aei_covariates input_genotype_pcs input_peer_factors
     : result (Phase6Merge.frame (option Q)))
  (o : Phase6Merge.saved V) (log : list string) :
  Phase6Merge.run_normalization_and_merge ndtr (Ok df_phenotype) input_aei_covariates
    input_genotype_pcs input_peer_factors = (Returned o, log) ->
  map fst (Phase6Merge.rows (Phase6Merge.output_phenotype o))
  = Phase6Merge.columns df_phenotype
  /\ forall j row,
       nth_error (Phase6Merge.rows (Phase6Merge.output_phenotype o)) j = Some row ->
       let missing_for_a_retained_individual :=
         exists r, In r (Phase6Merge.rows df_phenotype)
                   /\ In (fst r) (Phase6Merge.phenotype_individuals o)
                   /\ nth j (snd r) None = None in
       length (snd row) = length (Phase6Merge.phenotype_individuals o)
       /\ ((missing_for_a_retained_individual /\ forall c, In c (snd row) -> c = None)
           \/ (~ missing_for_a_retained_individual
               /\ forall c, In c (snd row) -> c <> None)).
Proof.
  unfold Phase6Merge.run_normalization_and_merge.
  destruct input_aei_covariates as [df_aei|]; [|discriminate].
  destruct (Phase6Merge.concat_axis1 _) as [merged|]; [|discriminate].
  set (individuals := Phase6Merge.intersection (Phase6Merge.index df_phenotype)
                        (Phase6Merge.index merged)).
  set (df := Phase6Merge.loc df_phenotype individuals).
  destruct (Phase6Merge.apply_int ndtr df) as [f|] eqn:Ea; [|discriminate].
  intro H. injection H as <- _.
  unfold Phase6Merge.phenotype_individuals. cbn [Phase6Merge.output_phenotype].
  apply MergeFacts.apply_int_Ok in Ea. destruct Ea as [[Hc ->]|[_ [_ ->]]].
  { change (Phase6Merge.columns df) with (Phase6Merge.columns df_phenotype) in Hc.
    rewrite Hc. split; [reflexivity|]. intros [|j] row Hrow; discriminate Hrow. }
  assert (Hind : Phase6Merge.columns
                   (Phase6Merge.transpose (Phase6Merge.apply_standard ndtr df))
                 = Phase6Merge.index df).
  { unfold Phase6Merge.transpose. cbn [Phase6Merge.columns].
    apply MergeFacts.index_apply_standard. }
  rewrite Hind. clear Hind.
  unfold Phase6Merge.transpose. cbn [Phase6Merge.rows].
  change (Phase6Merge.columns (Phase6Merge.apply_standard ndtr df))
    with (Phase6Merge.columns df_phenotype).
  split.
  - rewrite map_map. cbn [fst]. apply MergeFacts.map_snd_combine_seq.
  - intros j row Hrow. cbv zeta.
    assert (Hj : j < length (Phase6Merge.columns df_phenotype)).
    { assert (Hlt : j < length (map (fun jc : nat * string =>
                                      (snd jc, Phase6Merge.column (fst jc)
                                                 (Phase6Merge.apply_standard ndtr df)))
                                   (combine (seq 0 (length (Phase6Merge.columns df_phenotype)))
                                            (Phase6Merge.columns df_phenotype))))
        by (apply nth_error_Some; rewrite Hrow; discriminate).
      rewrite length_map, length_combine, length_seq, Nat.min_id in Hlt. exact Hlt. }
    assert (Hr : snd row = RankNormalizer.inverse_normal_transform ndtr
                             (Phase6Merge.column j df)).
    { rewrite nth_error_map in Hrow.
      destruct (nth_error (combine (seq 0 (length (Phase6Merge.columns df_phenotype)))
                                   (Phase6Merge.columns df_phenotype)) j)
        as [[j' x]|] eqn:Ej; [|discriminate].
      cbn [option_map fst snd] in Hrow. injection Hrow as <-. cbn [snd].
      assert (Hfst : nth_error (map fst (combine
                                  (seq 0 (length (Phase6Merge.columns df_phenotype)))
                                  (Phase6Merge.columns df_phenotype))) j = Some j')
        by (rewrite (map_nth_error _ _ _ Ej); reflexivity).
      rewrite PhenotypeFacts.map_fst_combine_seq in Hfst.
      rewrite nth_error_nth' with (d := 0) in Hfst by (rewrite length_seq; exact Hj).
      rewrite seq_nth in Hfst by exact Hj. injection Hfst as <-.
      apply PhenotypeFacts.column_apply_standard. exact Hj. }
    rewrite Hr. split.
    + rewrite PhenotypeFacts.inverse_normal_transform_length, PhenotypeFacts.column_length.
      unfold Phase6Merge.index. symmetry. apply length_map.
    + assert (Hmiss : In None (Phase6Merge.column j df) <->
                      exists r, In r (Phase6Merge.rows df_phenotype)
                                /\ In (fst r) (Phase6Merge.index df)
                                /\ nth j (snd r) None = None).
      { unfold Phase6Merge.column. rewrite in_map_iff. split.
        - intros [r [Hn Hin]]. exists r.
          assert (Hidx : In (fst r) (Phase6Merge.index df))
            by (unfold Phase6Merge.index; now apply in_map).
          split; [|split; [exact Hidx | exact Hn]].
          unfold df, Phase6Merge.loc in Hin. cbn [Phase6Merge.rows] in Hin.
          apply in_flat_map in Hin. destruct Hin as [x [_ Hin]].
          apply filter_In in Hin. tauto.
        - intros [r [Hin [Hidx Hn]]]. exists r. split; [exact Hn|].
          apply MergeFacts.In_index_loc in Hidx. destruct Hidx as [Hl _].
          unfold df, Phase6Merge.loc. cbn [Phase6Merge.rows].
          apply in_flat_map. exists (fst r). split; [exact Hl|].
          apply filter_In. split; [exact Hin | apply String.eqb_refl]. }
      destruct (PhenotypeFacts.inverse_normal_transform_all_or_nothing ndtr
                  (Phase6Merge.column j df)) as [[Hn Hall]|[Hn Hall]].
      * left. split; [apply Hmiss; exact Hn | exact Hall].
      * right. split; [intro Hm; apply Hn, Hmiss; exact Hm | exact Hall].
Qed.

Lemma saved_phenotype_rows_are_complete_or_empty_witness :
  exists o,
    Phase6Merge.run_normalization_and_merge (fun x => x / 4 + (1 # 2))%Q
      (Ok example_phenotype) (Ok example_aei) (Ok example_pcs)
      (Raise (FileNotFoundError "peer_factors.tsv")) = (Returned o, [])
    /\ map fst (Phase6Merge.rows (Phase6Merge.output_phenotype o))
       = Phase6Merge.columns example_phenotype
    /\ forall j row,
         nth_error (Phase6Merge.rows (Phase6Merge.output_phenotype o)) j = Some row ->
         let missing_for_a_retained_individual :=
           exists r, In r (Phase6Merge.rows example_phenotype)
                     /\ In (fst r) (Phase6Merge.phenotype_individuals o)
                     /\ nth j (snd r) None = None in
         length (snd row) = length (Phase6Merge.phenotype_individuals o)
         /\ ((missing_for_a_retained_individual /\ forall c, In c (snd row) -> c = None)
             \/ (~ missing_for_a_retained_individual
                 /\ forall c, In c (snd row) -> c <> None)).
Proof.
  eexists. split; [reflexivity|].
  eapply (@saved_phenotype_rows_are_complete_or_empty Q (fun x => x / 4 + (1 # 2))%Q
            example_phenotype (Ok example_aei) (Ok example_pcs)
            (Raise (FileNotFoundError "peer_factors.tsv"))).
  reflexivity.
Defined.

(** ** The FDR stage: corrected table and lead variants *)

Module LeadSnpFacts.

Import Phase8.

Lemma unsort_length {A : Type} (d : A) (sortind : list nat) (vals : list A) :
  length (unsort d sortind vals) = length sortind.
Proof. unfold unsort. rewrite length_map. apply length_seq. Qed.

(** [multipletests] returns one flag and one corrected value per test. *)
Lemma multipletests_length (alpha : Q) (pvals : list Q) (reject : list bool) (qvals : list Q) :
  multipletests alpha pvals = Ok (reject, qvals) ->
  length reject = length pvals /\ length qvals = length pvals.
Proof.
  unfold multipletests. destruct pvals as [|p pvals]; [discriminate|].
  destruct (fdrcorrection alpha (map snd (argsort (p :: pvals)))) as [R C].
  intro H. injection H as <- <-.
  rewrite !unsort_length, !length_map, BHFacts.argsort_length. auto.
Qed.

Lemma insert_by_p_nan_length (x : nat * option Q) (l : list (nat * option Q)) :
  length (insert_by_p_nan x l) = S (length l).
Proof.
  induction l as [|h t IH]; [reflexivity|]. cbn [insert_by_p_nan].
  destruct (p_le (snd x) (snd h)); cbn [length]; [reflexivity | now rewrite IH].
Qed.

Lemma argsort_nan_length (pvals : list (option Q)) :
  length (argsort_nan pvals) = length pvals.
Proof.
  unfold argsort_nan.
  assert (H : forall l, length (fold_right insert_by_p_nan [] l) = length l).
  { induction l as [|h t IH]; [reflexivity|]. cbn [fold_right].
    now rewrite insert_by_p_nan_length, IH. }
  rewrite H, length_combine, length_seq. apply Nat.min_id.
Qed.

Lemma multipletests_nan_length (alpha : Q) (pvals : list (option Q))
  (reject : list bool) (qvals : list (option Q)) :
  multipletests_nan alpha pvals = Ok (reject, qvals) ->
  length reject = length pvals /\ length qvals = length pvals.
Proof.
  unfold multipletests_nan. destruct pvals as [|p pvals]; [discriminate|].
  destruct (fdrcorrection_nan alpha (map snd (argsort_nan (p :: pvals)))) as [R C].
  intro H. injection H as <- <-.
  rewrite !unsort_length, !length_map, argsort_nan_length. auto.
Qed.

Lemma filter_nothing {A : Type} (p : A -> bool) (l : list A) :
  (forall x, In x l -> p x = false) -> filter p l = [].
Proof.
  induction l as [|a l IH]; intro H; [reflexivity|]. cbn [filter].
  rewrite (H a (or_introl eq_refl)). apply IH. intros x Hx. apply H. now right.
Qed.

Lemma map_snd_combine {A B : Type} (l : list A) (l' : list B) :
  length l' <= length l -> map snd (combine l l') = l'.
Proof.
  revert l. induction l' as [|b l' IH]; intros [|a l] H; cbn [length] in H;
    try reflexivity; [lia|].
  cbn [combine map snd]. rewrite IH by lia. reflexivity.
Qed.

Lemma map_fst_combine {A B : Type} (l : list A) (l' : list B) :
  length l <= length l' -> map fst (combine l l') = l.
Proof.
  revert l'. induction l as [|a l IH]; intros [|b l'] H; cbn [length] in H;
    try reflexivity; [lia|].
  cbn [combine map fst]. f_equal. apply IH. lia.
Qed.

Lemma In_insert_by_q (x y : fdr_row) (l : list fdr_row) :
  In y (insert_by_q x l) <-> y = x \/ In y l.
Proof.
  induction l as [|h t IH]; cbn [insert_by_q]; [cbn [In]; intuition|].
  destruct (Qle_bool (q_value x) (q_value h)); cbn [In]; [intuition|].
  rewrite IH. intuition.
Qed.

Lemma insert_by_q_perm (x : fdr_row) (l : list fdr_row) :
  Permutation (insert_by_q x l) (x :: l).
Proof.
  induction l as [|h t IH]; cbn [insert_by_q]; [apply Permutation_refl|].
  destruct (Qle_bool (q_value x) (q_value h)); [apply Permutation_refl|].
  apply perm_trans with (h :: x :: t); [now apply perm_skip | apply perm_swap].
Qed.

Lemma sort_by_q_perm (l : list fdr_row) : Permutation (fold_right insert_by_q [] l) l.
Proof.
  induction l as [|x l IH]; [apply perm_nil|]. cbn [fold_right].
  apply perm_trans with (x :: fold_right insert_by_q [] l);
    [apply insert_by_q_perm | now apply perm_skip].
Qed.

Lemma insert_by_q_sorted (x : fdr_row) (l : list fdr_row) :
  StronglySorted (fun a b => (q_value a <= q_value b)%Q) l ->
  StronglySorted (fun a b => (q_value a <= q_value b)%Q) (insert_by_q x l).
Proof.
  induction l as [|h t IH]; intro Hs; cbn [insert_by_q].
  - constructor; constructor.
  - inversion Hs as [|h' t' Ht Hh]; subst.
    destruct (Qle_bool (q_value x) (q_value h)) eqn:E.
    + apply Qle_bool_iff in E. constructor; [exact Hs|].
      constructor; [exact E|].
      eapply Forall_impl; [|exact Hh]. intros a Ha. cbv beta in *.
      eapply Qle_trans; eassumption.
    + assert (Hlt : (q_value h <= q_value x)%Q).
      { apply Qlt_le_weak. apply Qnot_le_lt. intro Hle.
        apply Qle_bool_iff in Hle. congruence. }
      constructor; [now apply IH|].
      apply Forall_forall. intros a Ha. apply In_insert_by_q in Ha.
      destruct Ha as [->|Ha]; [exact Hlt|].
      rewrite Forall_forall in Hh. now apply Hh.
Qed.

Lemma sort_by_q_sorted (l : list fdr_row) :
  StronglySorted (fun a b => (q_value a <= q_value b)%Q) (fold_right insert_by_q [] l).
Proof.
  induction l as [|x l IH]; [constructor|]. cbn [fold_right]. now apply insert_by_q_sorted.
Qed.

(** [idxmin] returns a row of the group with the least p-value; it fails
    only on an empty group. *)
Lemma idxmin_Some (l : list fdr_row) (r : fdr_row) :
  idxmin l = Some r ->
  In r l /\ forall r', In r' l -> (fdr_p_empirical r <= fdr_p_empirical r')%Q.
Proof.
  revert r. induction l as [|h t IH]; intros r H; [discriminate|].
  cbn [idxmin] in H. destruct (idxmin t) as [r0|] eqn:E.
  - destruct (IH r0 eq_refl) as [Hin Hmin].
    destruct (Qltb (fdr_p_empirical r0) (fdr_p_empirical h)) eqn:El; injection H as <-.
    + apply Qltb_iff in El. split; [now right|].
      intros r' [<-|Hr']; [now apply Qlt_le_weak | now apply Hmin].
    + apply Qltb_false_iff in El. split; [now left|].
      intros r' [<-|Hr']; [apply Qle_refl|].
      eapply Qle_trans; [exact El | now apply Hmin].
  - injection H as <-. destruct t as [|h' t']; [|cbn [idxmin] in E;
      destruct (idxmin t'); [destruct (Qltb _ _)|]; discriminate].
    split; [now left|]. intros r' [<-|[]]. apply Qle_refl.
Qed.

Lemma idxmin_nonempty (l : list fdr_row) : l <> [] -> exists r, idxmin l = Some r.
Proof.
  destruct l as [|h t]; [congruence|]. intros _. cbn [idxmin].
  destruct (idxmin t) as [r0|]; [destruct (Qltb _ _)|]; eauto.
Qed.

Lemma select_group_lead (S : list fdr_row) (g : string) :
  In g (map fdr_feature_id S) ->
  exists r, idxmin (filter (fun r => String.eqb (fdr_feature_id r) g) S) = Some r
            /\ In r S /\ fdr_feature_id r = g
            /\ forall r', In r' S -> fdr_feature_id r' = g ->
                          (fdr_p_empirical r <= fdr_p_empirical r')%Q.
Proof.
  intro Hg. apply in_map_iff in Hg. destruct Hg as [r0 [Hf Hin]].
  destruct (@idxmin_nonempty (filter (fun r => String.eqb (fdr_feature_id r) g) S))
    as [r Hr].
  { intro He. assert (H0 : In r0 (filter (fun r => String.eqb (fdr_feature_id r) g) S))
      by (apply filter_In; split; [exact Hin | now apply String.eqb_eq]).
    rewrite He in H0. destruct H0. }
  exists r. split; [exact Hr|].
  destruct (idxmin_Some _ Hr) as [Hrin Hmin].
  apply filter_In in Hrin. destruct Hrin as [HrS Hrg]. apply String.eqb_eq in Hrg.
  split; [exact HrS|]. split; [exact Hrg|].
  intros r' Hr' Hg'. apply Hmin. apply filter_In. split; [exact Hr' | now apply String.eqb_eq].
Qed.

Lemma lead_features (S : list fdr_row) (groups : list string) :
  (forall g, In g groups -> In g (map fdr_feature_id S)) ->
  map fdr_feature_id
      (flat_map (fun g =>
                   match idxmin (filter (fun r => String.eqb (fdr_feature_id r) g) S) with
                   | Some r => [r]
                   | None => []
                   end) groups)
  = groups.
Proof.
  induction groups as [|g groups IH]; intro H; [reflexivity|].
  cbn [flat_map]. rewrite map_app, IH by (intros g' Hg'; apply H; now right).
  destruct (select_group_lead S g (H g (or_introl eq_refl))) as [r [Hs [_ [Hg _]]]].
  rewrite Hs. cbn [map app]. now rewrite Hg.
Qed.

Lemma In_lead (S : list fdr_row) (groups : list string) (r : fdr_row) :
  (forall g, In g groups -> In g (map fdr_feature_id S)) ->
  In r (flat_map (fun g =>
                    match idxmin (filter (fun r => String.eqb (fdr_feature_id r) g) S) with
                    | Some r => [r]
                    | None => []
                    end) groups) ->
  In r S /\ In (fdr_feature_id r) groups
  /\ forall r', In r' S -> fdr_feature_id r' = fdr_feature_id r ->
                (fdr_p_empirical r <= fdr_p_empirical r')%Q.
Proof.
  intros H Hr. apply in_flat_map in Hr. destruct Hr as [g [Hg Hr]].
  destruct (select_group_lead S g (H g Hg)) as [r0 [Hs [HS [Hf Hmin]]]].
  rewrite Hs in Hr. destruct Hr as [<-|[]].
  split; [exact HS|]. split; [now rewrite Hf|].
  intros r' Hr' Hf'. apply Hmin; congruence.
Qed.

End LeadSnpFacts.

(** X23: the tables process_fastqtl_results_p8.py writes for a non-empty
    FastQTL result.  The full table keeps every input row, in input order,
    and adds a q-value and a flag to each; neither depends on the
    configured threshold.  The table of final edQTLs holds exactly the rows
    of the full table that have a q-value strictly below the configured
    threshold, in the same order.  The p-values are corrected as they are
    read: a single row without a p-value (NaN) leaves every row without a
    q-value and the table of final edQTLs empty. *)
Theorem fastqtl_tables_keep_rows_and_filter_below_threshold
  (FDR_THRESHOLD : Q) (input_file : string) (df_raw : list Phase8.fastqtl_row)
  (out : Phase8.p8_output) (log : list string) :
  Phase8.process_fastqtl_results FDR_THRESHOLD input_file (Ok df_raw) = (Returned out, log) ->
  map Phase8.row (Phase8.full_with_qval out) = df_raw
  /\ (forall threshold out' log',
        Phase8.process_fastqtl_results threshold input_file (Ok df_raw)
        = (Returned out', log') ->
        Phase8.full_with_qval out' = Phase8.full_with_qval out)
  /\ Phase8.df_final_edQTLs out
     = filter (fun r => match Phase8.Q_value r with
                        | Some q => Qltb q FDR_THRESHOLD
                        | None => false
                        end)
              (Phase8.full_with_qval out)
  /\ ((exists r, In r df_raw /\ Phase8.P_beta r = None) ->
      (forall r, In r (Phase8.full_with_qval out) -> Phase8.Q_value r = None)
      /\ Phase8.df_final_edQTLs out = []).
Proof.
  assert (Hrun : forall threshold,
             df_raw <> [] ->
             Phase8.process_fastqtl_results threshold input_file (Ok df_raw)
             = match Phase8.multipletests_nan (5 # 100) (map Phase8.P_beta df_raw) with
               | Raise e => (Uncaught e, [])
               | Ok (reject, q_values) =>
                   (Returned
                      {| Phase8.full_with_qval :=
                           map (fun rqs => {| Phase8.row := fst (fst rqs);
                                              Phase8.Q_value := snd (fst rqs);
                                              Phase8.Significant := snd rqs |})
                               (combine (combine df_raw q_values) reject);
                         Phase8.df_final_edQTLs :=
                           filter (Phase8.below_threshold threshold)
                             (map (fun rqs => {| Phase8.row := fst (fst rqs);
                                                 Phase8.Q_value := snd (fst rqs);
                                                 Phase8.Significant := snd rqs |})
                                  (combine (combine df_raw q_values) reject)) |},
                    [])
               end).
  { intros threshold Hne. unfold Phase8.process_fastqtl_results.
    destruct df_raw as [|r0 df]; [congruence|].
    destruct (Phase8.multipletests_nan (5 # 100) (map Phase8.P_beta (r0 :: df)))
      as [[reject q]|]; reflexivity. }
  intro H.
  assert (Hne : df_raw <> []) by (intros ->; discriminate H).
  rewrite (Hrun FDR_THRESHOLD Hne) in H.
  destruct (Phase8.multipletests_nan (5 # 100) (map Phase8.P_beta df_raw))
    as [[reject q]|] eqn:E; [|discriminate H].
  destruct (LeadSnpFacts.multipletests_nan_length _ _ E) as [Hr Hq].
  rewrite length_map in Hr, Hq.
  set (full := map (fun rqs => {| Phase8.row := fst (fst rqs);
                                  Phase8.Q_value := snd (fst rqs);
                                  Phase8.Significant := snd rqs |})
                   (combine (combine df_raw q) reject)).
  injection H as <- _. cbn [Phase8.full_with_qval Phase8.df_final_edQTLs].
  split; [|split; [|split]].
  - unfold full. rewrite map_map. cbn [Phase8.row].
    rewrite <- (map_map fst fst).
    rewrite LeadSnpFacts.map_fst_combine
      by (rewrite length_combine, Hq, Nat.min_id, Hr; apply Nat.le_refl).
    apply LeadSnpFacts.map_fst_combine. rewrite Hq. apply Nat.le_refl.
  - intros threshold out' log' H'. rewrite (Hrun threshold Hne) in H'.
    injection H' as <- _. reflexivity.
  - reflexivity.
  - intros [r [Hin Hp]].
    assert (Hnan : forall c, In c full -> Phase8.Q_value c = None).
    { intros c Hc. unfold full in Hc. apply in_map_iff in Hc.
      destruct Hc as [[[x qv] b] [<- Hc]]. cbn [Phase8.Q_value fst snd].
      apply (BHFacts.multipletests_nan_missing _ _ E).
      - rewrite <- Hp. now apply in_map.
      - apply in_combine_l in Hc. apply in_combine_r in Hc. exact Hc. }
    split; [exact Hnan|].
    apply LeadSnpFacts.filter_nothing. intros c Hc. unfold Phase8.below_threshold.
    now rewrite (Hnan c Hc).
Qed.

Lemma fastqtl_tables_keep_rows_and_filter_below_threshold_witness :
  exists out,
    Phase8.process_fastqtl_results (1 # 10) "fastqtl.txt"
      (Ok [borderline_row; unresolved_row; weaker_row])
    = (Returned out, [])
    /\ map Phase8.row (Phase8.full_with_qval out)
       = [borderline_row; unresolved_row; weaker_row]
    /\ (forall threshold out' log',
          Phase8.process_fastqtl_results threshold "fastqtl.txt"
            (Ok [borderline_row; unresolved_row; weaker_row])
          = (Returned out', log') ->
          Phase8.full_with_qval out' = Phase8.full_with_qval out)
    /\ Phase8.df_final_edQTLs out
       = filter (fun r => match Phase8.Q_value r with
                          | Some q => Qltb q (1 # 10)
                          | None => false
                          end)
                (Phase8.full_with_qval out)
    /\ ((exists r, In r [borderline_row; unresolved_row; weaker_row]
                   /\ Phase8.P_beta r = None) ->
        (forall r, In r (Phase8.full_with_qval out) -> Phase8.Q_value r = None)
        /\ Phase8.df_final_edQTLs out = []).
Proof.
  eexists. split; [reflexivity|].
  eapply (@fastqtl_tables_keep_rows_and_filter_below_threshold (1 # 10) "fastqtl.txt"
            [borderline_row; unresolved_row; weaker_row]).
  reflexivity.
Defined.

(** In the example the feature without a p-value leaves the two others
    without a q-value; without that row both get a q-value and, at the
    threshold 0.1, are final edQTLs. *)
Example missing_p_value_blanks_every_q_value :
  Phase8.process_fastqtl_results (1 # 10) "fastqtl.txt"
    (Ok [borderline_row; unresolved_row; weaker_row])
  = (Returned
       {| Phase8.full_with_qval :=
            [ {| Phase8.row := borderline_row; Phase8.Q_value := None;
                 Phase8.Significant := false |};
              {| Phase8.row := unresolved_row; Phase8.Q_value := None;
                 Phase8.Significant := false |};
              {| Phase8.row := weaker_row; Phase8.Q_value := None;
                 Phase8.Significant := false |} ];
          Phase8.df_final_edQTLs := [] |},
     [])
  /\ match fst (Phase8.process_fastqtl_results (1 # 10) "fastqtl.txt"
                  (Ok [borderline_row; weaker_row])) with
     | Returned out =>
         map Phase8.row (Phase8.df_final_edQTLs out) = [borderline_row; weaker_row]
     | _ => False
     end.
Proof. split; reflexivity. Qed.

(** X24: the lead-variant table of the FDR stage.  Every row of it is a
    significant row of the full corrected table with the least empirical
    p-value among the significant rows of its feature; every feature with a
    significant row has a lead row, and only one; the table is in ascending
    order of q-value. *)
Theorem lead_variant_table_has_one_best_row_per_significant_feature
  (input_files : list Phase8.result_file) (out : Phase8.fdr_output) (log : list string) :
  Phase8.run_fdr_correction input_files = (Returned (Some out), log) ->
  (forall r, In r (Phase8.lead_snps out) ->
     In r (Phase8.full_corrected out) /\ Phase8.FDR_significant r = true
     /\ forall r', In r' (Phase8.full_corrected out) -> Phase8.FDR_significant r' = true ->
                   Phase8.fdr_feature_id r' = Phase8.fdr_feature_id r ->
                   (Phase8.fdr_p_empirical r <= Phase8.fdr_p_empirical r')%Q)
  /\ (forall r', In r' (Phase8.full_corrected out) -> Phase8.FDR_significant r' = true ->
        exists r, In r (Phase8.lead_snps out)
                  /\ Phase8.fdr_feature_id r = Phase8.fdr_feature_id r')
  /\ NoDup (map Phase8.fdr_feature_id (Phase8.lead_snps out))
  /\ StronglySorted (fun a b => (Phase8.q_value a <= Phase8.q_value b)%Q)
                    (Phase8.lead_snps out).
Proof.
  unfold Phase8.run_fdr_correction.
  destruct (Phase8.load_pvalues input_files) as [all_pvalues log0].
  destruct all_pvalues as [|d ds]; [discriminate|].
  destruct (Phase8.multipletests (5 # 100) _) as [[reject qvals]|]; [|discriminate].
  intro H. injection H as <- _.
  cbn [Phase8.lead_snps Phase8.full_corrected].
  match goal with
  | |- context [filter Phase8.FDR_significant ?D] => set (Dfull := D)
  end.
  set (S := filter Phase8.FDR_significant Dfull).
  set (groups := sorted_keys String.compare (map Phase8.fdr_feature_id S)).
  assert (Hgroups : forall g, In g groups -> In g (map Phase8.fdr_feature_id S))
    by (intros g Hg; unfold groups in Hg;
        rewrite (In_sorted_keys String.compare string_compare_eq) in Hg; exact Hg).
  assert (HS : forall r, In r S <-> In r Dfull /\ Phase8.FDR_significant r = true)
    by (intro r; unfold S; apply filter_In).
  split; [|split; [|split]].
  - intros r Hr.
    apply (Permutation_in _ (LeadSnpFacts.sort_by_q_perm _)) in Hr.
    destruct (LeadSnpFacts.In_lead S groups r Hgroups Hr) as [HrS [_ Hmin]].
    apply HS in HrS. destruct HrS as [HrD Hsig].
    split; [exact HrD|]. split; [exact Hsig|].
    intros r' Hr' Hsig' Hf. apply Hmin; [apply HS; auto | exact Hf].
  - intros r' Hr' Hsig'.
    assert (Hg : In (Phase8.fdr_feature_id r') groups).
    { unfold groups. rewrite (In_sorted_keys String.compare string_compare_eq).
      apply in_map. apply HS. auto. }
    destruct (LeadSnpFacts.select_group_lead S _ (Hgroups _ Hg)) as [r [Hsel [_ [Hf _]]]].
    exists r. split; [|exact Hf].
    apply (Permutation_in _ (Permutation_sym (LeadSnpFacts.sort_by_q_perm _))).
    apply in_flat_map. exists (Phase8.fdr_feature_id r'). split; [exact Hg|].
    rewrite Hsel. now left.
  - apply (Permutation_NoDup
             (Permutation_map Phase8.fdr_feature_id
                (Permutation_sym (LeadSnpFacts.sort_by_q_perm _)))).
    rewrite (LeadSnpFacts.lead_features S groups Hgroups).
    apply (sorted_keys_NoDup String.compare string_compare_eq
             String.compare_antisym string_compare_trans).
  - apply LeadSnpFacts.sort_by_q_sorted.
Qed.

Lemma lead_variant_table_has_one_best_row_per_significant_feature_witness :
  exists out log,
    Phase8.run_fdr_correction example_result_files = (Returned (Some out), log)
    /\ (forall r, In r (Phase8.lead_snps out) ->
          In r (Phase8.full_corrected out) /\ Phase8.FDR_significant r = true
          /\ forall r', In r' (Phase8.full_corrected out) ->
                        Phase8.FDR_significant r' = true ->
                        Phase8.fdr_feature_id r' = Phase8.fdr_feature_id r ->
                        (Phase8.fdr_p_empirical r <= Phase8.fdr_p_empirical r')%Q)
    /\ (forall r', In r' (Phase8.full_corrected out) -> Phase8.FDR_significant r' = true ->
          exists r, In r (Phase8.lead_snps out)
                    /\ Phase8.fdr_feature_id r = Phase8.fdr_feature_id r')
    /\ NoDup (map Phase8.fdr_feature_id (Phase8.lead_snps out))
    /\ StronglySorted (fun a b => (Phase8.q_value a <= Phase8.q_value b)%Q)
                      (Phase8.lead_snps out).
Proof.
  eexists. eexists. split; [reflexivity|].
  eapply (@lead_variant_table_has_one_best_row_per_significant_feature example_result_files).
  reflexivity.
Defined.

(** X25: the full corrected table of the FDR stage.  When the readable
    result files hold at least one empirical p-value, the stage returns and
    its full table holds exactly the loaded rows that have a p-value, in
    file and row order, each with the q-value and the flag that
    [multipletests] returns at its position.  When files are read but none
    of their rows has a p-value, the correction divides by the number of
    tests: the stage ends with an uncaught ZeroDivisionError and exit
    status 1. *)
Theorem fdr_stage_full_table_and_empty_input
  (input_files : list Phase8.result_file) :
  let loaded :=
    Phase8.dropna_p_empirical (concat (fst (Phase8.load_pvalues input_files))) in
  (loaded <> [] ->
   exists out reject qvals,
     fst (Phase8.run_fdr_correction input_files) = Returned (Some out)
     /\ map fdr_input_columns (Phase8.full_corrected out) = map loaded_input_columns loaded
     /\ Phase8.multipletests (5 # 100) (map snd loaded) = Ok (reject, qvals)
     /\ map Phase8.q_value (Phase8.full_corrected out) = qvals
     /\ map Phase8.FDR_significant (Phase8.full_corrected out) = reject)
  /\ (fst (Phase8.load_pvalues input_files) <> [] -> loaded = [] ->
      fst (Phase8.run_fdr_correction input_files)
      = Uncaught (ZeroDivisionError "float division by zero")
      /\ exit_code (Phase8.main input_files) = 1%Z).
Proof.
  cbv zeta. unfold Phase8.main, Phase8.run_fdr_correction.
  destruct (Phase8.load_pvalues input_files) as [all_pvalues log0]. cbn [fst].
  split.
  - intro Hne. destruct all_pvalues as [|d ds] eqn:Ea; [cbn in Hne; congruence|].
    rewrite <- Ea in *. clear Ea d ds.
    set (loaded := Phase8.dropna_p_empirical (concat all_pvalues)) in *.
    destruct (Phase8.multipletests (5 # 100) (map snd loaded)) as [[reject qvals]|e] eqn:E.
    + destruct (LeadSnpFacts.multipletests_length _ _ E) as [Hr Hq].
      rewrite length_map in Hr, Hq.
      eexists. exists reject, qvals. split; [reflexivity|].
      cbn [Phase8.full_corrected].
      assert (Hfst : map (fun x : Phase8.pvalue_row * string * Q * Q * bool => fst (fst x))
                         (combine (combine loaded qvals) reject) = loaded).
      { rewrite <- (map_map fst fst).
        rewrite LeadSnpFacts.map_fst_combine
          by (rewrite length_combine, Hq, Nat.min_id, Hr; apply Nat.le_refl).
        apply LeadSnpFacts.map_fst_combine. rewrite Hq. apply Nat.le_refl. }
      split; [|split; [reflexivity|split]].
      * rewrite map_map.
        transitivity (map (fun x : Phase8.pvalue_row * string * Q * Q * bool =>
                             loaded_input_columns (fst (fst x)))
                          (combine (combine loaded qvals) reject)).
        -- apply map_ext. intros [[[[r src] p] q] rej]. reflexivity.
        -- rewrite <- (map_map (fun x : Phase8.pvalue_row * string * Q * Q * bool =>
                                  fst (fst x)) loaded_input_columns).
           now rewrite Hfst.
      * rewrite map_map.
        transitivity (map (fun x : Phase8.pvalue_row * string * Q * Q * bool => snd (fst x))
                          (combine (combine loaded qvals) reject)).
        -- apply map_ext. intros [[[[r src] p] q] rej]. reflexivity.
        -- rewrite <- (map_map fst snd).
           rewrite LeadSnpFacts.map_fst_combine
             by (rewrite length_combine, Hq, Nat.min_id, Hr; apply Nat.le_refl).
           apply LeadSnpFacts.map_snd_combine. rewrite Hq. apply Nat.le_refl.
      * rewrite map_map.
        transitivity (map (fun x : Phase8.pvalue_row * string * Q * Q * bool => snd x)
                          (combine (combine loaded qvals) reject)).
        -- apply map_ext. intros [[[[r src] p] q] rej]. reflexivity.
        -- apply LeadSnpFacts.map_snd_combine.
           rewrite length_combine, Hq, Nat.min_id, Hr. apply Nat.le_refl.
    + exfalso. unfold Phase8.multipletests in E.
      destruct (map snd loaded) as [|p ps] eqn:Ep.
      * destruct loaded; [congruence | discriminate].
      * destruct (Phase8.fdrcorrection (5 # 100) (map snd (Phase8.argsort (p :: ps))));
          discriminate.
  - intros Hne Hl. destruct all_pvalues as [|d ds] eqn:Ea; [congruence|].
    rewrite <- Ea in *. rewrite Hl. split; reflexivity.
Qed.

(** ** Column names across the stages *)

Module ColumnNameFacts.

Lemma length_append (a b : string) :
  String.length (a ++ b) = String.length a + String.length b.
Proof. induction a as [|x a IH]; [reflexivity|]. cbn [String.append String.length]. now rewrite IH. Qed.

Lemma str_drop_append (a b : string) : str_drop (String.length a) (a ++ b) = b.
Proof. induction a as [|x a IH]; [destruct b; reflexivity|]. exact IH. Qed.

(** [(ct + suffix).endswith(suffix')] compares the two suffixes when they
    have the same length. *)
Lemma str_endswith_append (suffix' suffix ct : string) :
  String.length suffix' = String.length suffix ->
  str_endswith suffix' (ct ++ suffix) = String.eqb suffix suffix'.
Proof.
  intro Hl. unfold str_endswith. rewrite length_append, Hl.
  replace (String.length suffix <=? String.length ct + String.length suffix) with true
    by (symmetry; apply Nat.leb_le; lia).
  replace (String.length ct + String.length suffix - String.length suffix)
    with (String.length ct) by lia.
  rewrite str_drop_append. reflexivity.
Qed.

Lemma str_drop_self (s : string) : str_drop (String.length s) s = "".
Proof. induction s as [|x s IH]; [reflexivity | exact IH]. Qed.

Lemma append_empty (s : string) : (s ++ "")%string = s.
Proof. induction s as [|x s IH]; [reflexivity|]. cbn [String.append]. now rewrite IH. Qed.

Lemma str_prefix_first (old : string) (c a : ascii) (s : string) :
  Ascii.eqb a c = false -> str_prefix (String c old) (String a s) = false.
Proof. intro H. cbn [str_prefix]. rewrite Ascii.eqb_sym, H. reflexivity. Qed.

Lemma str_remove_all_aux_empty (fuel : nat) (old : string) :
  str_remove_all_aux fuel old "" = "".
Proof. destruct fuel; reflexivity. Qed.

Lemma str_replace_aux_empty (fuel : nat) (old new : string) :
  Phase6Run.str_replace_aux fuel old new "" = "".
Proof. destruct fuel; reflexivity. Qed.

Lemma str_prefix_refl (s : string) : str_prefix s s = true.
Proof. induction s as [|a s IH]; [reflexivity|]. cbn [str_prefix]. now rewrite Ascii.eqb_refl. Qed.

(** Removing the suffix that starts with a character the name does not hold. *)
Lemma str_remove_all_aux_suffix (c : ascii) (old ct : string) (fuel : nat) :
  Phase3Annotation.has_char c ct = false -> String.length ct < fuel ->
  str_remove_all_aux fuel (String c old) (ct ++ String c old) = ct.
Proof.
  revert fuel. induction ct as [|a ct IH]; intros fuel Hc Hf.
  - destruct fuel as [|fuel]; [cbn [String.length] in Hf; lia|].
    cbn [String.append str_remove_all_aux]. rewrite str_prefix_refl.
    rewrite str_drop_self. apply str_remove_all_aux_empty.
  - destruct fuel as [|fuel]; [cbn [String.length] in Hf; lia|].
    cbn [Phase3Annotation.has_char] in Hc. apply orb_false_iff in Hc. destruct Hc as [Ha Hc].
    cbn [String.append str_remove_all_aux]. rewrite (@str_prefix_first old c a _ Ha).
    f_equal. apply IH; [exact Hc | cbn [String.length] in Hf; lia].
Qed.

Lemma str_replace_aux_suffix (c : ascii) (old new ct : string) (fuel : nat) :
  Phase3Annotation.has_char c ct = false -> String.length ct < fuel ->
  Phase6Run.str_replace_aux fuel (String c old) new (ct ++ String c old)
  = (ct ++ new)%string.
Proof.
  revert fuel. induction ct as [|a ct IH]; intros fuel Hc Hf.
  - destruct fuel as [|fuel]; [cbn [String.length] in Hf; lia|].
    cbn [String.append Phase6Run.str_replace_aux]. rewrite str_prefix_refl.
    rewrite str_drop_self, str_replace_aux_empty. apply append_empty.
  - destruct fuel as [|fuel]; [cbn [String.length] in Hf; lia|].
    cbn [Phase3Annotation.has_char] in Hc. apply orb_false_iff in Hc. destruct Hc as [Ha Hc].
    cbn [String.append Phase6Run.str_replace_aux]. rewrite (@str_prefix_first old c a _ Ha).
    f_equal. apply IH; [exact Hc | cbn [String.length] in Hf; lia].
Qed.

End ColumnNameFacts.

(** X26: the editing-ratio column that the quantifier writes for a cell
    type, [<cell type>_ER] with a cell type free of underscores (it is the
    last underscore-separated part of a BAM file name), is collated under
    that very cell type: for every PASS row of the matrix the long frame of
    the individual holds the value of that column under the key
    (SiteID, Phase3_Gene, cell type). *)
Theorem editing_ratio_column_is_collated_under_its_cell_type
  (df : Phase5.p4_matrix) (cell_type : string) (j : nat) (r : Phase5.p4_row) :
  Phase3Annotation.has_char "_" cell_type = false ->
  nth_error (Phase5.p4_columns df) j = Some (cell_type ++ "_ER")%string ->
  In r (Phase5.p4_rows df) -> Phase5.p4_GlobalFilterStatus r = "PASS" ->
  In (Phase5.p4_SiteID r, Phase5.p4_Phase3_Gene r, cell_type,
      nth j (Phase5.p4_values r) None)
     (Phase5.df_long df).
Proof.
  intros Hc Hj Hr Hs. unfold Phase5.df_long.
  apply in_flat_map. exists (j, (cell_type ++ "_ER")%string). split.
  - unfold Phase5.er_cols. apply filter_In. split.
    + exact (CollationFacts.In_combine_seq (Phase5.p4_columns df) 0 j Hj).
    + cbn [snd]. rewrite ColumnNameFacts.str_endswith_append by reflexivity. reflexivity.
  - apply in_map_iff. exists r. split.
    + cbn [fst snd]. unfold str_remove_all.
      rewrite (ColumnNameFacts.str_remove_all_aux_suffix "_" "ER" cell_type); [reflexivity| |].
      * exact Hc.
      * rewrite ColumnNameFacts.length_append. cbn [String.length]. lia.
    + unfold Phase5.df_filtered. apply filter_In. split; [exact Hr | now apply String.eqb_eq].
Qed.

Lemma editing_ratio_column_is_collated_under_its_cell_type_witness :
  In ("21:100:A>G", "APP", "Bcell", Some (1 # 4))
     (Phase5.df_long {| Phase5.p4_columns := ["Bcell_ER"; "Bcell_TR"];
                        Phase5.p4_rows :=
                          [ {| Phase5.p4_SiteID := "21:100:A>G";
                               Phase5.p4_GlobalFilterStatus := "PASS";
                               Phase5.p4_Phase3_Gene := "APP";
                               Phase5.p4_values := [Some (1 # 4); Some 20%Q] |} ] |}).
Proof.
  apply (@editing_ratio_column_is_collated_under_its_cell_type
           {| Phase5.p4_columns := ["Bcell_ER"; "Bcell_TR"];
              Phase5.p4_rows :=
                [ {| Phase5.p4_SiteID := "21:100:A>G";
                     Phase5.p4_GlobalFilterStatus := "PASS";
                     Phase5.p4_Phase3_Gene := "APP";
                     Phase5.p4_values := [Some (1 # 4); Some 20%Q] |} ] |}
           "Bcell" 0
           {| Phase5.p4_SiteID := "21:100:A>G";
              Phase5.p4_GlobalFilterStatus := "PASS";
              Phase5.p4_Phase3_Gene := "APP";
              Phase5.p4_values := [Some (1 # 4); Some 20%Q] |}).
  - reflexivity.
  - reflexivity.
  - left. reflexivity.
  - reflexivity.
Defined.

(** X27: the per-gene normaliser renames the trait columns
    [<cell type>_AvgER], for cell types free of underscores, to
    [<cell type>_INT], in the same order. *)
Theorem normalized_trait_columns_are_renamed_INT
  (V : Type) (norm_ppf : Q -> V) (min_quantifiable_samples : Z) (input_matrix : string)
  (df : Phase6Run.gene_matrix Q) (cell_types : list string)
  (out : Phase6Run.gene_matrix V) (log : list string) :
  Phase6Run.run_phase6_normalization norm_ppf min_quantifiable_samples input_matrix (Ok df)
  = (Returned out, log) ->
  Phase6Run.trait_cols df = map (fun ct => (ct ++ "_AvgER")%string) cell_types ->
  (forall ct, In ct cell_types -> Phase3Annotation.has_char "_" ct = false) ->
  Phase6Run.trait_cols out = map (fun ct => (ct ++ "_INT")%string) cell_types.
Proof.
  unfold Phase6Run.run_phase6_normalization. intros H Hcols Hct.
  destruct (filter _ (Phase6Run.genes df)) as [|row rows]; [discriminate|].
  injection H as <- _. cbn [Phase6Run.trait_cols]. rewrite Hcols, map_map.
  apply map_ext_in. intros ct Hin. unfold Phase6Run.rename_INT.
  rewrite ColumnNameFacts.str_endswith_append by reflexivity.
  rewrite String.eqb_refl. unfold Phase6Run.str_replace.
  apply ColumnNameFacts.str_replace_aux_suffix; [now apply Hct|].
  rewrite ColumnNameFacts.length_append. cbn [String.length]. lia.
Qed.

Lemma normalized_trait_columns_are_renamed_INT_witness :
  exists out,
    Phase6Run.run_phase6_normalization (fun q : Q => q) 2 "gene_matrix_p5.tsv"
      (Ok example_gene_matrix) = (Returned out, [])
    /\ Phase6Run.trait_cols out
       = map (fun ct => (ct ++ "_INT")%string) ["Bcell"; "Tcell"; "NK"].
Proof.
  eexists. split; [reflexivity|].
  eapply (@normalized_trait_columns_are_renamed_INT Q (fun q : Q => q) 2
            "gene_matrix_p5.tsv" example_gene_matrix ["Bcell"; "Tcell"; "NK"]).
  - reflexivity.
  - reflexivity.
  - intros ct [<-|[<-|[<-|[]]]]; reflexivity.
Defined.

(** X28: the editing level of a RED-ML call.  When the table has the two
    read-count columns as numbers, the loader keeps exactly the rows whose
    total and variant read counts are present and whose total is not zero,
    in order, each extended by [EditLevel = VariantReads / TotalReads]; a
    row with zero total reads is dropped, not divided. *)
Theorem redml_rows_with_zero_total_reads_are_dropped
  (df df' : Phase3.frame) :
  Phase3.redml_edit_levels df = Ok df' ->
  forall r', In r' df' <->
    exists r v t,
      In r df
      /\ (c <- Phase3.row_get r "VariantReads" ;; Phase3.cell_number c) = Ok (Some v)
      /\ (c <- Phase3.row_get r "TotalReads" ;; Phase3.cell_number c) = Ok (Some t)
      /\ ~ (t == 0)%Q
      /\ r' = r ++ [("EditLevel", Phase3.CNum (v / t)%Q)].
Proof.
  revert df'. induction df as [|r df IH]; intros df' H r'; cbn [Phase3.redml_edit_levels] in H.
  - injection H as <-. split; [intros [] | intros [r [v [t [[] _]]]]].
  - destruct (c <- Phase3.row_get r "VariantReads" ;; Phase3.cell_number c) as [ov|] eqn:Ev;
      cbn [bind] in H; [|discriminate].
    destruct (c <- Phase3.row_get r "TotalReads" ;; Phase3.cell_number c) as [ot|] eqn:Et;
      cbn [bind] in H; [|discriminate].
    destruct (Phase3.redml_edit_levels df) as [rest'|]; cbn [bind] in H; [|discriminate].
    specialize (IH rest' eq_refl r').
    assert (Hrest : (exists r0 v t,
                        In r0 df
                        /\ (c <- Phase3.row_get r0 "VariantReads" ;; Phase3.cell_number c)
                           = Ok (Some v)
                        /\ (c <- Phase3.row_get r0 "TotalReads" ;; Phase3.cell_number c)
                           = Ok (Some t)
                        /\ ~ (t == 0)%Q
                        /\ r' = r0 ++ [("EditLevel", Phase3.CNum (v / t)%Q)])
                    -> In r' rest') by apply IH.
    assert (Hskip : df' = rest' ->
                    (forall v t, ov = Some v -> ot = Some t -> (t == 0)%Q) ->
                    (In r' df' <->
                     exists r0 v t,
                       In r0 (r :: df)
                       /\ (c <- Phase3.row_get r0 "VariantReads" ;; Phase3.cell_number c)
                          = Ok (Some v)
                       /\ (c <- Phase3.row_get r0 "TotalReads" ;; Phase3.cell_number c)
                          = Ok (Some t)
                       /\ ~ (t == 0)%Q
                       /\ r' = r0 ++ [("EditLevel", Phase3.CNum (v / t)%Q)])).
    { intros -> Hz. rewrite IH. split.
      - intros [r0 [v [t [Hin Hrest0]]]]. exists r0, v, t. split; [now right | exact Hrest0].
      - intros [r0 [v [t [[<-|Hin] [Hv [Ht [Hnz Hr']]]]]]].
        + exfalso. apply Hnz. apply (Hz v t); congruence.
        + exists r0, v, t. auto. }
    destruct ov as [v|]; [|injection H as <-; apply Hskip; [reflexivity | discriminate]].
    destruct ot as [t|]; [|injection H as <-; apply Hskip; [reflexivity | discriminate]].
    destruct (Qeq_bool t 0) eqn:Ez.
    + injection H as <-. apply Hskip; [reflexivity|].
      intros v0 t0 _ Ht0. injection Ht0 as <-. now apply Qeq_bool_iff.
    + injection H as <-. split.
      * intros [<-|Hin].
        -- exists r, v, t. split; [now left|]. split; [exact Ev|]. split; [exact Et|].
           split; [|reflexivity]. intro Hz. apply Qeq_bool_iff in Hz. congruence.
        -- apply IH in Hin. destruct Hin as [r0 [v0 [t0 [Hin Hrest0]]]].
           exists r0, v0, t0. split; [now right | exact Hrest0].
      * intros [r0 [v0 [t0 [[<-|Hin] [Hv [Ht [Hnz Hr']]]]]]].
        -- left. rewrite Hr'. rewrite Ev in Hv. rewrite Et in Ht.
           injection Hv as <-. injection Ht as <-. reflexivity.
        -- right. apply Hrest. exists r0, v0, t0. auto.
Qed.

Lemma redml_rows_with_zero_total_reads_are_dropped_witness :
  exists df',
    Phase3.redml_edit_levels
      [ [("Chr", Phase3.CStr "1"); ("Pos", Phase3.CInt 1000); ("Ref", Phase3.CStr "A");
         ("Alt", Phase3.CStr "G"); ("VariantReads", Phase3.CInt 5);
         ("TotalReads", Phase3.CInt 10)];
        [("Chr", Phase3.CStr "1"); ("Pos", Phase3.CInt 3000); ("Ref", Phase3.CStr "A");
         ("Alt", Phase3.CStr "G"); ("VariantReads", Phase3.CInt 0);
         ("TotalReads", Phase3.CInt 0)] ] = Ok df'
    /\ forall r', In r' df' <->
         exists r v t,
           In r [ [("Chr", Phase3.CStr "1"); ("Pos", Phase3.CInt 1000);
                   ("Ref", Phase3.CStr "A"); ("Alt", Phase3.CStr "G");
                   ("VariantReads", Phase3.CInt 5); ("TotalReads", Phase3.CInt 10)];
                  [("Chr", Phase3.CStr "1"); ("Pos", Phase3.CInt 3000);
                   ("Ref", Phase3.CStr "A"); ("Alt", Phase3.CStr "G");
                   ("VariantReads", Phase3.CInt 0); ("TotalReads", Phase3.CInt 0)] ]
           /\ (c <- Phase3.row_get r "VariantReads" ;; Phase3.cell_number c) = Ok (Some v)
           /\ (c <- Phase3.row_get r "TotalReads" ;; Phase3.cell_number c) = Ok (Some t)
           /\ ~ (t == 0)%Q
           /\ r' = r ++ [("EditLevel", Phase3.CNum (v / t)%Q)].
Proof.
  eexists. split; [reflexivity|].
  eapply (@redml_rows_with_zero_total_reads_are_dropped). reflexivity.
Defined.

(** X29: the contract of the transformation of run_phase6_normalization.py.
    The output has the length of the input and is missing wherever the input
    is; with fewer than two observed values everything is missing; with at
    least two, every observed value gets the normal quantile of the
    percentile [(r - 0.5) / N] of its average rank [r] among the [N]
    observed values, a probability strictly between 0 and 1. *)
Theorem inverse_normal_transformation_contract
  (V : Type) (norm_ppf : Q -> V) (s : series) :
  let out := RankNormalizer.inverse_normal_transformation norm_ppf s in
  let N := length (dropna s) in
  length out = length s
  /\ (forall i, nth_error s i = Some None -> nth_error out i = Some None)
  /\ (N < 2 -> forall o, In o out -> o = None)
  /\ (2 <= N ->
      forall i x, nth_error s i = Some (Some x) ->
        let p := RankNormalizer.percentile N (RankNormalizer.average_rank (dropna s) x) in
        nth_error out i = Some (Some (norm_ppf p))
        /\ (p == (RankNormalizer.average_rank (dropna s) x - (1 # 2))
                 / inject_Z (Z.of_nat N))%Q
        /\ (0 < p < 1)%Q).
Proof.
  cbv zeta.
  pose proof (inverse_normal_transformation_missing norm_ppf s) as Hm. cbv zeta in Hm.
  destruct Hm as [Hlen [Hnone [_ Hall]]].
  split; [exact Hlen|]. split; [exact Hnone|]. split; [exact Hall|].
  intros HN i x Hi. exact (inverse_normal_transformation_quantile norm_ppf s i HN Hi).
Qed.
